(** * gwern.net pop-frame content layer: notification center, content
      cache, content loader, content-type registry, reference data.

    A shallow embedding of the JavaScript of the repository and the
    properties of its specification.

    Conventions.
    - JavaScript strings are byte strings ([string]); only ASCII case
      folding and ASCII white space are interpreted.
    - A JavaScript exception is an explicit [Throw] outcome; the state
      reached when it was raised is kept, as the engine keeps it.
    - The browser (network, DOM parser, URL parser) and the helpers of the
      repository that are defined outside the embedded files are
      parameters of the development; each is introduced where it is used. *)

From Stdlib Require Import String Ascii List Bool Arith Lia.
From stdpp Require Import base option list strings gmap.

Set Default Proof Using "Type".
Set Warnings "-register-all".
Local Open Scope string_scope.
Local Open Scope list_scope.

(* ================================================================== *)
(** ** The notification center (the [GW.notificationCenter] object)     *)
(* ================================================================== *)

Module NotificationCenter.

(** A handler object has members [f] (a function) and [once] (a
    boolean).  Objects are compared by identity ([includes], [indexOf]),
    so a handler carries its identity [ref]; the function [f] is opaque
    and an invocation of it is recorded in the state. *)
Record Handler := mkHandler { ref : nat; once : bool }.

(** [GW.notificationCenter[eventName]] is an array of handlers, or
    [null]/[undefined] (no entry).  [called] records the invocations
    [handler.f()] in order, with the event that caused them. *)
Record State := mkState {
  table  : gmap string (list Handler);
  called : list (string * nat)
}.

Definition initial : State := {| table := ∅; called := [] |}.

Definition same (h h' : Handler) : bool := Nat.eqb (ref h) (ref h').

(** [Array.prototype.includes], on objects. *)
Definition includes (arr : list Handler) (h : Handler) : bool :=
  existsb (same h) arr.

(** [Array.prototype.remove]: [indexOf] then [splice(index, 1)]; the
    first occurrence goes, nothing happens when there is none. *)
Fixpoint Array_remove (arr : list Handler) (item : Handler) : list Handler :=
  match arr with
  | [] => []
  | x :: rest => if same item x then rest else x :: Array_remove rest item
  end.

Definition set_table (t : gmap string (list Handler)) (st : State) : State :=
  {| table := t; called := called st |}.

Definition addHandlerForEvent (eventName : string) (handler : Handler)
    (st : State) : State :=
  let st1 :=
    match table st !! eventName with
    | None => set_table (<[eventName := []]> (table st)) st
    | Some _ => st
    end in
  match table st1 !! eventName with
  | Some arr =>
      if includes arr handler then st1
      else set_table (<[eventName := arr ++ [handler]]> (table st1)) st1
  | None => st1
  end.

Definition cancelHandlerForEvent (eventName : string) (handler : Handler)
    (st : State) : State :=
  match table st !! eventName with
  | None => st
  | Some arr => set_table (<[eventName := Array_remove arr handler]> (table st)) st
  end.

Definition cancelAllHandlersForEvent (eventName : string) (st : State) : State :=
  set_table (delete eventName (table st)) st.

(** [Array.prototype.forEach] over the live array: the length [n] is
    read once, the index [k] runs over [0 .. n-1], and at each index the
    element then present is visited; an index beyond the (shrunk) array
    is skipped.  The callback invokes [handler.f()] and, for a [once]
    handler, cancels it, which splices the array being traversed. *)
Fixpoint forEach_from (n k : nat) (arr : list Handler) (calls : list nat)
    : list Handler * list nat :=
  match n with
  | 0 => (arr, calls)
  | S n' =>
      match arr !! k with
      | None => forEach_from n' (S k) arr calls
      | Some handler =>
          forEach_from n' (S k)
            (if once handler then Array_remove arr handler else arr)
            (calls ++ [ref handler])
      end
  end.

(** The handlers one [fireEvent(eventName)] invokes, in order. *)
Definition invoked (eventName : string) (st : State) : list nat :=
  match table st !! eventName with
  | None => []
  | Some arr => snd (forEach_from (length arr) 0 arr [])
  end.

Definition fireEvent (eventName : string) (st : State) : State :=
  match table st !! eventName with
  | None => st
  | Some arr =>
      let r := forEach_from (length arr) 0 arr [] in
      {| table := <[eventName := fst r]> (table st);
         called := called st ++ map (pair eventName) (snd r) |}
  end.

(** A client of the notification center is a sequence of calls. *)
Inductive Call :=
| Add (eventName : string) (handler : Handler)
| Cancel (eventName : string) (handler : Handler)
| CancelAll (eventName : string)
| Fire (eventName : string).

Definition step (st : State) (c : Call) : State :=
  match c with
  | Add e h => addHandlerForEvent e h st
  | Cancel e h => cancelHandlerForEvent e h st
  | CancelAll e => cancelAllHandlersForEvent e st
  | Fire e => fireEvent e st
  end.

Definition run (calls : list Call) : State := fold_left step calls initial.

(** No handler object occurs twice in the list of any event. *)
Definition distinct (st : State) : Prop :=
  ∀ e arr, table st !! e = Some arr → NoDup (ref <$> arr).

(** The elements at the even positions (0, 2, ...) of a list, and those
    at the odd positions. *)
Fixpoint evens {A} (l : list A) : list A :=
  match l with
  | x :: _ :: rest => x :: evens rest
  | other => other
  end.

Fixpoint odds {A} (l : list A) : list A :=
  match l with
  | _ :: y :: rest => y :: odds rest
  | _ => []
  end.

End NotificationCenter.

(* ================================================================== *)
(** ** Debugging output ([GWLog], [GW.enableLogging], [GW.disableLogging]) *)
(* ================================================================== *)

Module Logging.

(** [GW.loggingEnabled] ([false] also for [undefined]), the browser's
    [localStorage], and what has been written to the console. *)
Record State := mkState {
  loggingEnabled : bool;
  localStorage : gmap string string;
  console : list string
}.

Definition GWLog (s : string) (st : State) : State :=
  if loggingEnabled st
     || bool_decide (localStorage st !! "logging-enabled" = Some "true")
  then {| loggingEnabled := loggingEnabled st;
          localStorage := localStorage st;
          console := console st ++ [s] |}
  else st.

Definition enableLogging (permanently : bool) (st : State) : State :=
  {| loggingEnabled := true;
     localStorage :=
       if permanently then <["logging-enabled" := "true"]> (localStorage st)
       else localStorage st;
     console := console st |}.

Definition disableLogging (permanently : bool) (st : State) : State :=
  {| loggingEnabled := false;
     localStorage :=
       if permanently then delete "logging-enabled" (localStorage st)
       else localStorage st;
     console := console st |}.

(** A session of switching the logging on and off. *)
Inductive Switch :=
| Enable (permanently : bool)
| Disable (permanently : bool).

Definition switch (st : State) (c : Switch) : State :=
  match c with
  | Enable p => enableLogging p st
  | Disable p => disableLogging p st
  end.

Definition session (cs : list Switch) (st : State) : State := fold_left switch cs st.

End Logging.

(* ================================================================== *)
(** ** The general activity indicator (misc.js)                         *)
(* ================================================================== *)

Module Activity.

(** [GW.activities], an array of empty objects, and the indicator
    element, [GW.activityIndicator]: [None] when there is none, else
    whether its class list holds [on]. *)
Record State := mkState {
  activities : list unit;
  indicator : option bool
}.

Definition beginActivity (st : State) : State :=
  {| activities := activities st ++ [tt];
     indicator := (fun _ => true) <$> indicator st |}.

Definition endActivity (st : State) : State :=
  let activities := tail (activities st) in
  {| activities := activities;
     indicator :=
       if Nat.eqb (length activities) 0
       then (fun _ => false) <$> indicator st
       else indicator st |}.

Inductive Call := Begin | End_.

Definition step (st : State) (c : Call) : State :=
  match c with
  | Begin => beginActivity st
  | End_ => endActivity st
  end.

(** The number of activities that a sequence of calls leaves pending:
    an [endActivity] with nothing pending ends nothing. *)
Definition pending (calls : list Call) : nat :=
  fold_left (fun n c => match c with Begin => S n | End_ => pred n end) calls 0.

(** When the script is loaded: [GW.activities = [ ]], and no indicator
    element yet. *)
Definition initial : State := {| activities := []; indicator := None |}.

(** The callback of [doWhenBodyExists]: the indicator element is made,
    with the class [on], whatever [GW.activities] holds. *)
Definition createIndicator (st : State) : State :=
  {| activities := activities st; indicator := Some true |}.

(** The life of the indicator: the calls made before the body exists,
    the creation of the element, the calls made after it.  (The call of
    [endActivity] that [doWhenPageLayoutComplete] makes is one of the
    calls.) *)
Definition run (before after : list Call) : State :=
  fold_left step after (createIndicator (fold_left step before initial)).

(** The indicator has the class [on] exactly when [GW.activities] is not
    empty. *)
Definition shows (st : State) : Prop :=
  indicator st = Some (negb (Nat.eqb (length (activities st)) 0)).

End Activity.

(* ================================================================== *)
(** ** JavaScript strings and regular expressions                       *)
(* ================================================================== *)

Module JS.

(** The double quote, which a string literal of this file cannot hold. *)
Definition quote : string := String (ascii_of_nat 34) EmptyString.
Definition LF : ascii := ascii_of_nat 10.
Definition CR : ascii := ascii_of_nat 13.
Definition TAB : ascii := ascii_of_nat 9.
Definition newline : string := String LF EmptyString.

Definition startsWith (s searchString : string) : bool :=
  String.prefix searchString s.

Definition endsWith (s searchString : string) : bool :=
  String.prefix (String.rev searchString) (String.rev s).

(** [s.slice(n)] and [s.substr(n)] for [0 <= n]. *)
Fixpoint slice (n : nat) (s : string) : string :=
  match n, s with
  | 0, _ => s
  | S n', String _ s' => slice n' s'
  | S _, EmptyString => EmptyString
  end.

(** [s.slice(0, n)]. *)
Fixpoint slice_to (n : nat) (s : string) : string :=
  match n, s with
  | S n', String a s' => String a (slice_to n' s')
  | _, _ => EmptyString
  end.

(** [s.replace(pattern, replacement)] with a string pattern: the first
    occurrence only. *)
Fixpoint replace (pattern replacement s : string) : string :=
  if String.prefix pattern s
  then replacement +:+ slice (String.length pattern) s
  else match s with
       | EmptyString => EmptyString
       | String a s' => String a (replace pattern replacement s')
       end.

(** [s.split(separator)] for a one-character separator; the empty string
    splits into one empty string. *)
Fixpoint split_go (sep : ascii) (cur : string) (s : string) : list string :=
  match s with
  | EmptyString => [String.rev cur]
  | String a s' =>
      if Ascii.eqb a sep then String.rev cur :: split_go sep EmptyString s'
      else split_go sep (String a cur) s'
  end.
Definition split (sep : ascii) (s : string) : list string :=
  split_go sep EmptyString s.

(** [parts.join(separator)]. *)
Definition join (sep : string) (parts : list string) : string :=
  String.concat sep parts.

Definition is_space (a : ascii) : bool :=
  let n := nat_of_ascii a in
  Nat.eqb n 32 || Nat.eqb n 9 || Nat.eqb n 10 || Nat.eqb n 11
  || Nat.eqb n 12 || Nat.eqb n 13.

Fixpoint trimStart (s : string) : string :=
  match s with
  | String a s' => if is_space a then trimStart s' else s
  | EmptyString => EmptyString
  end.
Definition trim (s : string) : string :=
  String.rev (trimStart (String.rev (trimStart s))).

Definition is_digit (a : ascii) : bool :=
  let n := nat_of_ascii a in Nat.leb 48 n && Nat.leb n 57.

Definition toLowerCase (a : ascii) : ascii :=
  let n := nat_of_ascii a in
  if Nat.leb 65 n && Nat.leb n 90 then ascii_of_nat (n + 32) else a.

(** Regular expressions, matched against a whole string by derivatives.
    An unanchored end of a JavaScript pattern is written out with
    [anything]. *)
Inductive RegExp :=
| Never
| Empty
| Class (p : ascii → bool)
| Seq (r1 r2 : RegExp)
| Or (r1 r2 : RegExp)
| Many (r : RegExp).

Fixpoint nullable (r : RegExp) : bool :=
  match r with
  | Never => false
  | Empty => true
  | Class _ => false
  | Seq r1 r2 => nullable r1 && nullable r2
  | Or r1 r2 => nullable r1 || nullable r2
  | Many _ => true
  end.

Fixpoint derivative (a : ascii) (r : RegExp) : RegExp :=
  match r with
  | Never => Never
  | Empty => Never
  | Class p => if p a then Empty else Never
  | Seq r1 r2 =>
      if nullable r1
      then Or (Seq (derivative a r1) r2) (derivative a r2)
      else Seq (derivative a r1) r2
  | Or r1 r2 => Or (derivative a r1) (derivative a r2)
  | Many r1 => Seq (derivative a r1) (Many r1)
  end.

Fixpoint accepts (r : RegExp) (s : string) : bool :=
  match s with
  | EmptyString => nullable r
  | String a s' => accepts (derivative a r) s'
  end.

(** [.] matches all but line terminators (of which the two ASCII ones
    are told apart here). *)
Definition dot : RegExp :=
  Class (fun a => negb (Ascii.eqb a LF) && negb (Ascii.eqb a CR)).
Definition anything : RegExp := Many (Class (fun _ => true)).
Definition chr (c : ascii) : RegExp := Class (Ascii.eqb c).
Definition chr_i (c : ascii) : RegExp :=
  Class (fun a => Ascii.eqb (toLowerCase a) (toLowerCase c)).
Definition digit : RegExp := Class is_digit.
Definition plus (r : RegExp) : RegExp := Seq r (Many r).
Fixpoint lit (s : string) : RegExp :=
  match s with
  | EmptyString => Empty
  | String a s' => Seq (chr a) (lit s')
  end.
(** A literal under the [i] flag. *)
Fixpoint lit_i (s : string) : RegExp :=
  match s with
  | EmptyString => Empty
  | String a s' => Seq (chr_i a) (lit_i s')
  end.
Definition oneOf (rs : list RegExp) : RegExp := fold_right Or Never rs.

(** What a regular expression matches, as a relation: the reading of
    the patterns that [accepts] decides. *)
Inductive Matches : RegExp → string → Prop :=
| M_Empty : Matches Empty EmptyString
| M_Class p a : p a = true → Matches (Class p) (String a EmptyString)
| M_Seq r1 r2 s1 s2 :
    Matches r1 s1 → Matches r2 s2 → Matches (Seq r1 r2) (s1 +:+ s2)
| M_Or_l r1 r2 s : Matches r1 s → Matches (Or r1 r2) s
| M_Or_r r1 r2 s : Matches r2 s → Matches (Or r1 r2) s
| M_Many_nil r : Matches (Many r) EmptyString
| M_Many_cons r s1 s2 :
    Matches r s1 → Matches (Many r) s2 → Matches (Many r) (s1 +:+ s2).

(** The characters of a string. *)
Definition chars (s : string) : list ascii := list_ascii_of_string s.

(** A decimal numeral: digits, and at least one. *)
Definition numeral (s : string) : Prop :=
  s ≠ EmptyString ∧ Forall (fun a => is_digit a = true) (chars s).

End JS.

(* ================================================================== *)
(** ** URLs and links                                                   *)
(* ================================================================== *)

(** A [URL] object, by its components: [protocol] with its colon,
    [search] empty or with its question mark, [hash] empty or with its
    number sign.  (User name and password are not modelled.) *)
Record URL := mkURL {
  protocol : string;
  hostname : string;
  port : string;
  pathname : string;
  search : string;
  hash : string
}.

Definition host (u : URL) : string :=
  if String.eqb (port u) "" then hostname u else hostname u +:+ ":" +:+ port u.

Definition href (u : URL) : string :=
  protocol u +:+ "//" +:+ host u +:+ pathname u +:+ search u +:+ hash u.

(** The setters the code uses. *)
Definition set_hash (h : string) (u : URL) : URL :=
  {| protocol := protocol u; hostname := hostname u; port := port u;
     pathname := pathname u; search := search u; hash := h |}.
Definition set_search (q : string) (u : URL) : URL :=
  {| protocol := protocol u; hostname := hostname u; port := port u;
     pathname := pathname u; search := q; hash := hash u |}.
Definition set_pathname (p : string) (u : URL) : URL :=
  {| protocol := protocol u; hostname := hostname u; port := port u;
     pathname := p; search := search u; hash := hash u |}.
Definition set_hostname (h : string) (u : URL) : URL :=
  {| protocol := protocol u; hostname := h; port := port u;
     pathname := pathname u; search := search u; hash := hash u |}.

(** A link: an [HTMLAnchorElement].  [link_url] holds the components the
    element exposes ([link.href], [link.hostname], [link.pathname],
    [link.search], [link.hash]); [new URL(link.href)] is a fresh [URL] with
    these components.  [classList] is the element's class list.  Of
    [link.dataset] the three entries the code reads are kept:
    [urlOriginal] ([None] when the attribute is absent or empty, otherwise
    the URL it denotes), [targetId] and [backlinkTargetUrl] ([None] when
    absent).  The Content object reads [link.dataset] and [link.classList]
    of every link it classifies, so its links are elements throughout. *)
Record Link := mkLink {
  link_url : URL;
  classList : list string;
  dataset_urlOriginal : option URL;
  dataset_targetId : option string;
  dataset_backlinkTargetUrl : option string
}.

(** The link with another query string and fragment, and nothing else
    changed. *)
Definition with_search_and_hash (q h : string) (link : Link) : Link :=
  {| link_url := set_hash h (set_search q (link_url link));
     classList := classList link;
     dataset_urlOriginal := dataset_urlOriginal link;
     dataset_targetId := dataset_targetId link;
     dataset_backlinkTargetUrl := dataset_backlinkTargetUrl link |}.

Definition contains (classes : list string) (c : string) : bool :=
  existsb (String.eqb c) classes.

(** [originalURLForLink] (misc.js). *)
Definition originalURLForLink (link : Link) : URL :=
  match dataset_urlOriginal link with
  | None => link_url link
  | Some originalURL =>
      if String.eqb (hostname originalURL) "ar5iv.labs.arxiv.org"
      then set_search ""
             (set_pathname (JS.replace "/html/" "/abs/" (pathname originalURL))
               (set_hostname "arxiv.org" originalURL))
      else originalURL
  end.

(* ================================================================== *)
(** ** The document object model                                        *)
(* ================================================================== *)

Module DOM.

(** A node is an element (lower-case tag name, attributes in source
    order, child nodes) or a text node. *)
Inductive Node :=
| Elem (tagName : string) (attributes : list (string * string))
       (childNodes : list Node)
| Text (data : string).

(** A document or document fragment is the list of its child nodes; an
    element in it is named by the path of child indices that leads to it. *)
Definition Path := list nat.

Definition getAttribute (attrs : list (string * string)) (name : string)
    : option string :=
  snd <$> List.find (fun kv => String.eqb (fst kv) name) attrs.

Definition removeAttribute (name : string) (attrs : list (string * string))
    : list (string * string) :=
  List.filter (fun kv => negb (String.eqb (fst kv) name)) attrs.

Fixpoint setAttribute (name value : string) (attrs : list (string * string))
    : list (string * string) :=
  match attrs with
  | [] => [(name, value)]
  | (k, v) :: rest =>
      if String.eqb k name then (k, value) :: rest
      else (k, v) :: setAttribute name value rest
  end.

(** [element.id]. *)
Definition id_of (attrs : list (string * string)) : string :=
  default "" (getAttribute attrs "id").

(** The class attribute as a token list: split on ASCII white space. *)
Definition is_ascii_whitespace (a : ascii) : bool :=
  let n := nat_of_ascii a in
  Nat.eqb n 32 || Nat.eqb n 9 || Nat.eqb n 10 || Nat.eqb n 12 || Nat.eqb n 13.

Fixpoint tokens_go (cur : string) (s : string) : list string :=
  let flush := if String.eqb cur "" then [] else [String.rev cur] in
  match s with
  | EmptyString => flush
  | String a s' =>
      if is_ascii_whitespace a then flush ++ tokens_go EmptyString s'
      else tokens_go (String a cur) s'
  end.

Definition tokens (s : string) : list string := tokens_go EmptyString s.

Fixpoint dedup (l : list string) : list string :=
  match l with
  | [] => []
  | x :: rest => x :: List.filter (fun y => negb (String.eqb x y)) (dedup rest)
  end.

Definition classes_of (attrs : list (string * string)) : list string :=
  dedup (tokens (default "" (getAttribute attrs "class"))).

(** [element.classList.add(...)] and [element.classList.remove(c)]: the
    token set is updated and written back to the attribute, except that
    nothing is written when there is no attribute and no token. *)
Definition write_classes (cs : list string) (attrs : list (string * string))
    : list (string * string) :=
  match getAttribute attrs "class", cs with
  | None, [] => attrs
  | _, _ => setAttribute "class" (JS.join " " cs) attrs
  end.

Definition classList_add (new : list string) (attrs : list (string * string))
    : list (string * string) :=
  write_classes (dedup (classes_of attrs ++ new)) attrs.

Definition classList_remove (c : string) (attrs : list (string * string))
    : list (string * string) :=
  write_classes
    (List.filter (fun x => negb (String.eqb x c)) (classes_of attrs)) attrs.

(** [element.className]. *)
Definition className (attrs : list (string * string)) : string :=
  default "" (getAttribute attrs "class").

Definition is_element (n : Node) : bool :=
  match n with Elem _ _ _ => true | Text _ => false end.

Definition tag_of (n : Node) : string :=
  match n with Elem t _ _ => t | Text _ => "" end.
Definition attrs_of (n : Node) : list (string * string) :=
  match n with Elem _ a _ => a | Text _ => [] end.
Definition children_of (n : Node) : list Node :=
  match n with Elem _ _ cs => cs | Text _ => [] end.

(** [node.textContent]. *)
Fixpoint textContent (n : Node) : string :=
  match n with
  | Text d => d
  | Elem _ _ cs =>
      (fix all (cs : list Node) : string :=
         match cs with
         | [] => ""
         | c :: cs' => textContent c +:+ all cs'
         end) cs
  end.

Fixpoint nodeAt (forest : list Node) (p : Path) : option Node :=
  match p with
  | [] => None
  | i :: p' =>
      match forest !! i with
      | None => None
      | Some n =>
          match p' with
          | [] => Some n
          | _ :: _ => nodeAt (children_of n) p'
          end
      end
  end.

(** The element at a path (not a text node). *)
Definition elementAt (forest : list Node) (p : Path) : option Node :=
  match nodeAt forest p with
  | Some (Elem t a cs) => Some (Elem t a cs)
  | _ => None
  end.

(** The child nodes of the node at [p]; of the document itself for the
    empty path. *)
Definition childrenAt (forest : list Node) (p : Path) : list Node :=
  match p with
  | [] => forest
  | _ :: _ => from_option children_of [] (nodeAt forest p)
  end.

Definition parentPath (p : Path) : Path := removelast p.

(** The paths of the proper ancestors that are elements, nearest first. *)
Fixpoint properAncestors_go (n : nat) (p : Path) : list Path :=
  match n with
  | 0 => []
  | S n' =>
      match parentPath p with
      | [] => []
      | q => q :: properAncestors_go n' q
      end
  end.
Definition properAncestors (p : Path) : list Path :=
  properAncestors_go (length p) p.

(** The elements below a node, in document order, by relative path;
    the node itself (the empty path) first. *)
Fixpoint elementPaths (n : Node) : list Path :=
  match n with
  | Text _ => []
  | Elem _ _ cs =>
      [] :: (fix below (i : nat) (cs : list Node) {struct cs} : list Path :=
               match cs with
               | [] => []
               | c :: cs' => map (cons i) (elementPaths c) ++ below (S i) cs'
               end) 0 cs
  end.

Fixpoint forestPaths_from (i : nat) (forest : list Node) : list Path :=
  match forest with
  | [] => []
  | c :: rest => map (cons i) (elementPaths c) ++ forestPaths_from (S i) rest
  end.

(** All elements of a document, in document order. *)
Definition forestPaths (forest : list Node) : list Path :=
  forestPaths_from 0 forest.

(** The selectors the code uses: compound selectors joined by descendant
    and child combinators, and lists of them. *)
Inductive Simple :=
| Tag (t : string)                      (* [t] *)
| Id (i : string)                       (* [#i] *)
| Class (c : string)                    (* [.c] *)
| HasAttr (a : string)                  (* [[a]] *)
| AttrIs (a v : string)                 (* [[a='v']] *)
| AttrHas (a v : string)                (* [[a*='v']] *)
| IsEmpty                               (* [:empty] *)
| NotClass (c : string)                 (* [:not(.c)] *)
| NthOfType (n : nat).                  (* [:nth-of-type(n)] *)

Definition Compound := list Simple.

Inductive Combinator := Descendant | Child.

(** A complex selector, read from its subject leftwards. *)
Record Complex := mkComplex {
  subject : Compound;
  context : list (Combinator * Compound)
}.

Definition Selector := list Complex.

Definition simple (c : Compound) : Selector := [mkComplex c []].

Fixpoint includes (s searchString : string) : bool :=
  String.prefix searchString s
  || match s with
     | EmptyString => false
     | String _ s' => includes s' searchString
     end.

Definition count_type_before (siblings : list Node) (i : nat) (t : string) : nat :=
  length (List.filter (fun n => is_element n && String.eqb (tag_of n) t)
            (take i siblings)).

Definition matchesSimple (forest : list Node) (p : Path) (s : Simple) : bool :=
  match elementAt forest p with
  | None => false
  | Some n =>
      let attrs := attrs_of n in
      match s with
      | Tag t => String.eqb (tag_of n) t
      | Id i => bool_decide (getAttribute attrs "id" = Some i)
      | Class c => contains (classes_of attrs) c
      | HasAttr a => bool_decide (is_Some (getAttribute attrs a))
      | AttrIs a v => bool_decide (getAttribute attrs a = Some v)
      | AttrHas a v =>
          negb (String.eqb v "")
          && from_option (fun x => includes x v) false (getAttribute attrs a)
      | IsEmpty => bool_decide (children_of n = [])
      | NotClass c => negb (contains (classes_of attrs) c)
      | NthOfType k =>
          Nat.eqb (S (count_type_before (childrenAt forest (parentPath p))
                        (List.last p 0) (tag_of n))) k
      end
  end.

Definition matchesCompound (forest : list Node) (p : Path) (c : Compound) : bool :=
  forallb (matchesSimple forest p) c.

Fixpoint matchesContext (forest : list Node)
    (ctx : list (Combinator * Compound)) (p : Path) : bool :=
  match ctx with
  | [] => true
  | (Child, c) :: rest =>
      match parentPath p with
      | [] => false
      | q => matchesCompound forest q c && matchesContext forest rest q
      end
  | (Descendant, c) :: rest =>
      existsb (fun q => matchesCompound forest q c && matchesContext forest rest q)
              (properAncestors p)
  end.

(** [element.matches(selector)]. *)
Definition matchesSelector (forest : list Node) (sel : Selector) (p : Path) : bool :=
  existsb (fun cx => matchesCompound forest p (subject cx)
                     && matchesContext forest (context cx) p) sel.

Definition is_below (scope p : Path) : bool :=
  Nat.ltb (length scope) (length p)
  && bool_decide (take (length scope) p = scope).

(** [scope.querySelectorAll(selector)]: the matching elements below the
    scope (the document itself for the empty path), in document order. *)
Definition querySelectorAll (forest : list Node) (scope : Path) (sel : Selector)
    : list Path :=
  List.filter (fun p => is_below scope p && matchesSelector forest sel p)
              (forestPaths forest).

Definition querySelector (forest : list Node) (scope : Path) (sel : Selector)
    : option Path :=
  head (querySelectorAll forest scope sel).

(** [element.closest(selector)]: the element itself or its nearest
    ancestor that matches. *)
Definition closest (forest : list Node) (p : Path) (sel : Selector) : option Path :=
  List.find (matchesSelector forest sel) (p :: properAncestors p).

(** [element.firstElementChild]. *)
Fixpoint firstElementIndex (i : nat) (cs : list Node) : option nat :=
  match cs with
  | [] => None
  | c :: cs' => if is_element c then Some i else firstElementIndex (S i) cs'
  end.
Definition firstElementChild (forest : list Node) (p : Path) : option Path :=
  (fun i => p ++ [i]) <$> firstElementIndex 0 (childrenAt forest p).

(** [element.previousElementSibling]. *)
Fixpoint lastElementIndex_before (i : nat) (cs : list Node) : option nat :=
  match i with
  | 0 => None
  | S j =>
      match cs !! j with
      | Some (Elem _ _ _) => Some j
      | _ => lastElementIndex_before j cs
      end
  end.
Definition previousElementSibling (forest : list Node) (p : Path) : option Path :=
  (fun j => parentPath p ++ [j])
    <$> lastElementIndex_before (List.last p 0) (childrenAt forest (parentPath p)).

(** In-place change of the node at a path. *)
Fixpoint updateAt (f : Node → Node) (p : Path) (forest : list Node) : list Node :=
  match p with
  | [] => forest
  | i :: p' =>
      alter (fun n =>
               match p' with
               | [] => f n
               | _ :: _ =>
                   match n with
                   | Elem t a cs => Elem t a (updateAt f p' cs)
                   | Text d => Text d
                   end
               end) i forest
  end.

Definition update_attrs (f : list (string * string) → list (string * string))
    (n : Node) : Node :=
  match n with
  | Elem t a cs => Elem t (f a) cs
  | Text d => Text d
  end.

Definition set_children (cs : list Node) (n : Node) : Node :=
  match n with
  | Elem t a _ => Elem t a cs
  | Text d => Text d
  end.

(** A node without its attributes: the tags, the text and the shape of
    the tree. *)
Fixpoint skeleton (n : Node) : Node :=
  match n with
  | Elem t _ cs => Elem t [] (map skeleton cs)
  | Text d => Text d
  end.

End DOM.

(* ================================================================== *)
(** ** The environment of the Content object                            *)
(* ================================================================== *)

(** What the code reads but does not define: the page it runs in, the
    browser's parsers, and helpers of other files of the repository. *)
Record Env := mkEnv {
  (** [location], the URL of the current page. *)
  location : URL;
  (** [document], the live document of the current page. *)
  document : list DOM.Node;
  (** The HTML parser behind [newDocument(string)] and the [innerHTML]
      setter, and the serializer behind the [innerHTML] getter. *)
  parseHTML : string → list DOM.Node;
  serializeHTML : list DOM.Node → string;
  (** [new URL(string)]; [None] when the constructor throws. *)
  parseURL : string → option URL;
  (** [decodeURIComponent]; [None] when it throws. *)
  decodeURIComponent : string → option string;
  (** [selectorFromHash] (defined outside the embedded files): the
      selector of the element a hash names. *)
  selectorFromHash : string → DOM.Selector;
  (** Modelled from the spec: [Annotations.isAnnotatedLinkFull] and
      [Annotations.isAnnotatedLink] are defined outside the embedded
      files; the spec's link reference carries the flag "annotated" among
      its string classes, so both read the class list of the link. *)
  isAnnotatedLinkFull : list string → bool;
  isAnnotatedLink : list string → bool;
  (** [Transclude.isAnnotationTransclude] (defined outside the embedded
      files). *)
  isAnnotationTransclude : Link → bool;
  (** The identifier [includeLink], which [Content.load] reads but does
      not bind: a global of that name, if one exists. *)
  includeLink : option URL
}.

(** A document the Content object holds: the live [document] itself, or
    a document fragment of its own, with the [baseLocation] set on it. *)
Inductive DocRef :=
| LiveDocument
| Fragment (nodes : list DOM.Node) (baseLocation : option URL).

(** The child nodes of the document a reference denotes. *)
Definition nodes_of (env : Env) (d : DocRef) : list DOM.Node :=
  match d with
  | LiveDocument => document env
  | Fragment nodes _ => nodes
  end.

(** [baseLocationForDocument] (misc.js), for the documents the Content
    object holds: the live document has the current location; a fragment
    has the base location set on it, if any.  (The case of a pop-frame's
    document does not arise for these.) *)
Definition baseLocationForDocument (env : Env) (doc : DocRef) : option URL :=
  match doc with
  | LiveDocument => Some (location env)
  | Fragment _ (Some baseLocation) => Some baseLocation
  | Fragment _ None => None
  end.

(** A content object: [{ document }], and for a local page also
    [title], [bodyClasses], [thumbnailHTML] ([None] for [undefined]). *)
Record ContentObject := mkContent {
  title : option string;
  bodyClasses : option (list string);
  thumbnailHTML : option string;
  content_document : DocRef
}.

Definition document_only (d : DocRef) : ContentObject :=
  {| title := None; bodyClasses := None; thumbnailHTML := None;
     content_document := d |}.

(** A value of [Content.cachedContent]: a content object or the string
    ["LOADING_FAILED"].  A key never stored has no entry. *)
Inductive Cached :=
| Loaded (content : ContentObject)
| LOADING_FAILED.

(** An entry that is a content object: neither absent nor failed. *)
Definition is_loaded (v : option Cached) : bool :=
  match v with
  | Some (Loaded _) => true
  | Some LOADING_FAILED => false
  | None => false
  end.

(** What a content type's [contentFromResponse] does besides returning:
    it fires ["GW.contentDidLoad"] and requests the thumbnail image. *)
Inductive SideEffect :=
| ContentDidLoad (source : string) (container : DocRef)
| ImageRequest (location : string).

Inductive Result (A : Type) :=
| Return (a : A)
| Raise (error : string).
Arguments Return {A} a.
Arguments Raise {A} error.

(** A content type: the members of an entry of [Content.contentTypes].
    [contentFromResponse] yields a content object, a falsy value
    ([None]), or throws.  The member [referenceDataFromContent] is
    embedded for the local page type, further down. *)
Record ContentType := mkContentType {
  typeName : string;
  matches : Link → bool;
  sourceURLsForLink : Link → list URL;
  contentFromResponse :
    option string → Link → URL → Result (option ContentObject) * list SideEffect;
  permittedContentTypes : option (list string)
}.

(** Modelled from the spec: [newDocument] is defined outside the embedded
    files; the spec's Document is a detached page fragment.  Called
    without content it gives a new, empty document fragment (the code
    appends to it); called with a string, the fragment the parser makes of
    the string.  Called with nodes it gives a fragment of copies of them,
    which is written out where it happens. *)
Definition newDocument (env : Env) (content : option string) : list DOM.Node :=
  match content with
  | None => []
  | Some s => parseHTML env s
  end.

(** Truthiness of a response text. *)
Definition truthy (response : option string) : bool :=
  match response with
  | Some s => negb (String.eqb s "")
  | None => false
  end.

(* ------------------------------------------------------------------ *)
(** *** [AuxLinks] (misc.js)                                            *)

Module AuxLinks.

Definition auxLinksLinkTypes : list (string * string) :=
  [ ("/metadata/annotation/backlink/", "backlinks");
    ("/metadata/annotation/similar/", "similars");
    ("/metadata/annotation/link-bibliography/", "link-bibliography") ].

Definition auxLinksLinkType (link : URL) : option string :=
  snd <$> List.find (fun e => JS.startsWith (pathname link) (fst e))
            auxLinksLinkTypes.

(** [None] is [null]; [Some None] a thrown [URIError]. *)
Definition targetOfAuxLinksLink (env : Env) (link : URL) : option (option string) :=
  match List.find (fun e => JS.startsWith (pathname link) (fst e))
          auxLinksLinkTypes with
  | None => None
  | Some (pathnamePrefix, _) =>
      if JS.endsWith (pathname link) ".html"
      then
        let start := String.length pathnamePrefix in
        let stop := String.length (pathname link) - String.length ".html" in
        Some (decodeURIComponent env
                (JS.slice_to (stop - start) (JS.slice start (pathname link)))
              ≫= decodeURIComponent env)
      else Some (Some (JS.slice (String.length pathnamePrefix - 1) (pathname link)))
  end.

End AuxLinks.

(* ------------------------------------------------------------------ *)
(** *** Links and anchors (misc.js)                                     *)

Section Anchors.
Context (env : Env).

(** [x > ""] for a dataset entry: present and not empty. *)
Definition nonempty (v : option string) : bool :=
  match v with
  | Some s => negb (String.eqb s "")
  | None => false
  end.

Definition isAnnotationLink (link : Link) : bool :=
  isAnnotatedLink env (classList link) || isAnnotationTransclude env link.

(** [hash.match(/#[^#]*/g)]: every number sign with the characters up to
    the next one. *)
Fixpoint hashMatches_go (cur : option string) (s : string) : list string :=
  let flush := match cur with Some c => [String.rev c] | None => [] end in
  match s with
  | EmptyString => flush
  | String a s' =>
      if Ascii.eqb a "#" then flush ++ hashMatches_go (Some "#") s'
      else hashMatches_go (String a <$> cur) s'
  end.
Definition hashMatches (s : string) : list string := hashMatches_go None s.

(** [anchorsForLink], for an element. *)
Definition anchorsForLink (link : Link) : list string :=
  if nonempty (dataset_targetId link)
  then map (fun x => "#" +:+ x) (JS.split " " (default "" (dataset_targetId link)))
  else if negb (isAnnotationLink link)
          && negb (String.eqb (hash (link_url link)) "")
  then hashMatches (hash (link_url link))
  else if negb (isAnnotationLink link)
          && nonempty (dataset_backlinkTargetUrl link)
  then [ default "" (dataset_backlinkTargetUrl link) ]
  else [ ].

Definition isAnchorLink (link : Link) : bool :=
  Nat.eqb (length (anchorsForLink link)) 1.

(** [stripAnchorsFromLink], for an element: the two data attributes are
    removed and the hash is emptied. *)
Definition stripAnchorsFromLink (link : Link) : Link :=
  {| link_url := set_hash "" (link_url link);
     classList := classList link;
     dataset_urlOriginal := dataset_urlOriginal link;
     dataset_targetId := None;
     dataset_backlinkTargetUrl := None |}.

(** [a.href], [a.pathname] and [a.dataset.urlOriginal] of an anchor
    element of a document. *)
Definition anchor_url (attrs : list (string * string)) : option URL :=
  DOM.getAttribute attrs "href" ≫= parseURL env.
Definition anchor_href (attrs : list (string * string)) : string :=
  match anchor_url attrs with
  | Some u => href u
  | None => default "" (DOM.getAttribute attrs "href")
  end.
Definition anchor_pathname (attrs : list (string * string)) : string :=
  from_option pathname "" (anchor_url attrs).

(** [#page-metadata a, .aux-links-list a] *)
Definition exclusionSelector : DOM.Selector :=
  [ DOM.mkComplex [DOM.Tag "a"] [(DOM.Descendant, [DOM.Id "page-metadata"])];
    DOM.mkComplex [DOM.Tag "a"] [(DOM.Descendant, [DOM.Class "aux-links-list"])] ].

(** [a[href*='target']:not(.backlink-not),
     a[data-url-original='target']:not(.backlink-not)]; the target is
    escaped for the selector text ([CSS.escape]) and stands for itself. *)
Definition backlinkSelector (target : string) : DOM.Selector :=
  [ DOM.mkComplex [DOM.Tag "a"; DOM.AttrHas "href" target;
                   DOM.NotClass "backlink-not"] [];
    DOM.mkComplex [DOM.Tag "a"; DOM.AttrIs "data-url-original" target;
                   DOM.NotClass "backlink-not"] [] ].

(** [targetElementInDocument], for an element. *)
Definition targetElementInDocument (link : Link) (doc : list DOM.Node)
    : option DOM.Path :=
  if negb (isAnchorLink link) then None
  else
    let anchor := default "" (head (anchorsForLink link)) in
    let element :=
      if JS.startsWith anchor "#"
      then DOM.querySelector doc [] (selectorFromHash env anchor)
      else None in
    match element with
    | Some e => Some e
    | None =>
        if nonempty (dataset_backlinkTargetUrl link)
        then
          let target := default "" (dataset_backlinkTargetUrl link) in
          head
            (List.filter
               (fun backlink =>
                  let attrs := from_option DOM.attrs_of [] (DOM.nodeAt doc backlink) in
                  (if JS.startsWith target "/"
                   then String.eqb (anchor_pathname attrs) target
                   else String.eqb (anchor_href attrs) target
                        || bool_decide
                             (DOM.getAttribute attrs "data-url-original" = Some target))
                  && bool_decide (DOM.closest doc backlink exclusionSelector = None))
               (DOM.querySelectorAll doc [] (backlinkSelector target)))
        else None
    end.

End Anchors.

(* ------------------------------------------------------------------ *)
(** *** [Notes] (misc.js)                                               *)

Module Notes.

(** [/#[sf]n[0-9]/] and [/#fnref[0-9]/] *)
Definition noteRegExp : JS.RegExp :=
  JS.Seq JS.anything
    (JS.Seq (JS.chr "#")
       (JS.Seq (JS.Or (JS.chr "s") (JS.chr "f"))
          (JS.Seq (JS.chr "n") (JS.Seq JS.digit JS.anything)))).
Definition citationRegExp : JS.RegExp :=
  JS.Seq JS.anything (JS.Seq (JS.lit "#fnref") (JS.Seq JS.digit JS.anything)).

Definition noteNumberFromHash (hash : string) : string :=
  let hash := if negb (JS.startsWith hash "#") then "#" +:+ hash else hash in
  if JS.accepts noteRegExp hash then JS.slice 3 hash
  else if JS.accepts citationRegExp hash then JS.slice 6 hash
  else "".

Definition idForCitationNumber (number : string) : string := "fnref" +:+ number.
Definition idForFootnoteNumber (number : string) : string := "fn" +:+ number.
Definition idForSidenoteNumber (number : string) : string := "sn" +:+ number.

(** [noteNumber] of an element without a [hash], such as a list item:
    the number in its [id]. *)
Definition noteNumber (attrs : list (string * string)) : string :=
  noteNumberFromHash (DOM.id_of attrs).

(** A citation: the link in the text that points to a note.  Of the
    element, its [hash], its [id] and the text of its first element
    child ([None] when it has no element child). *)
Record Citation := mkCitation {
  citation_hash : string;
  citation_id : string;
  citation_text : option string
}.

(** [link.hash = value]: one number sign in front of the value is
    dropped, and what is left, if anything, is the fragment; the [hash]
    is then the number sign and the fragment.  (The percent-encoding of
    the fragment is not modelled.) *)
Definition assign_hash (value : string) : string :=
  let input := if JS.startsWith value "#" then JS.slice 1 value else value in
  if String.eqb input "" then "" else "#" +:+ input.

(** [Notes.setCitationNumber]: the citation afterwards, and whether the
    call returned ([false] when the last assignment throws, the first two
    having been made). *)
Definition setCitationNumber (citation : Citation) (number : string)
    : Citation * bool :=
  let hash := assign_hash (JS.slice_to 3 (citation_hash citation) +:+ number) in
  let id := JS.slice_to 5 (citation_id citation) +:+ number in
  match citation_text citation with
  | None => (mkCitation hash id None, false)
  | Some _ => (mkCitation hash id (Some number), true)
  end.

End Notes.

(** The object [referenceDataFromContent] returns for a local page. *)
Record ReferenceData := mkReferenceData {
  content : list DOM.Node;
  pageTitle : option string;
  pageBodyClasses : option (list string);
  pageThumbnailHTML : option string;
  popFrameTitleLinkHref : string;
  popFrameTitleText : string;
  popFrameTitleTextShort : option (option string)
}.

(* ------------------------------------------------------------------ *)
(** *** [Content.contentTypes.localTweetArchive]                        *)

Module localTweetArchive.
Section WithEnv.
Context (env : Env).

(** [/\/.+?\/status\/[0-9]+$/] *)
Definition statusRegExp : JS.RegExp :=
  JS.Seq JS.anything
    (JS.Seq (JS.chr "/")
       (JS.Seq (JS.plus JS.dot)
          (JS.Seq (JS.lit "/status/") (JS.plus JS.digit)))).

Definition matches (link : Link) : bool :=
  let originalURL := originalURLForLink link in
  String.eqb (hostname (link_url link)) (hostname (location env))
  && JS.startsWith (pathname (link_url link)) "/doc/www/"
  && String.eqb (hostname originalURL) "twitter.com"
  && JS.accepts statusRegExp (pathname originalURL).

Definition sourceURLsForLink (link : Link) : list URL :=
  let url := link_url link in
  let url := set_hash "" url in
  let url := set_search "" url in
  [ url ].

Definition contentFromResponse (response : option string) (link : Link)
    (loadURL : URL) : Result (option ContentObject) * list SideEffect :=
  (Return (Some (document_only (Fragment (newDocument env response) None))), []).

Definition contentType : ContentType :=
  mkContentType "localTweetArchive" matches sourceURLsForLink contentFromResponse None.

End WithEnv.
End localTweetArchive.

(* ------------------------------------------------------------------ *)
(** *** [Content.contentTypes.localCodeFile]                            *)

Module localCodeFile.
Section WithEnv.
Context (env : Env).

Definition codeFileExtensions : list string :=
  [ "bash"; "c"; "conf"; "css"; "csv"; "diff"; "hs"; "html"; "js";
    "json"; "jsonl"; "opml"; "page"; "patch"; "php"; "py"; "R";
    "sh"; "xml"; "yaml";
    "txt" ].

(** [/\.(html|pdf)$/i] *)
Definition documentRegExp : JS.RegExp :=
  JS.Seq JS.anything
    (JS.Seq (JS.chr ".") (JS.Or (JS.lit_i "html") (JS.lit_i "pdf"))).

(** [new RegExp('\\.(' + codeFileExtensions.join("|") + ')$', 'i')] *)
Definition codeFileURLRegExp : JS.RegExp :=
  JS.Seq JS.anything
    (JS.Seq (JS.chr ".") (JS.oneOf (map JS.lit_i codeFileExtensions))).

Definition matches (link : Link) : bool :=
  if negb (String.eqb (hostname (link_url link)) (hostname (location env)))
  then false
  else if isAnnotatedLinkFull env (classList link)
  then false
  else if JS.startsWith (pathname (link_url link)) "/metadata/"
  then false
  else if JS.startsWith (pathname (link_url link)) "/doc/www/"
          || (JS.startsWith (pathname (link_url link)) "/doc/"
              && JS.accepts documentRegExp (pathname (link_url link)))
  then false
  else JS.accepts codeFileURLRegExp (pathname (link_url link)).

Definition sourceURLsForLink (link : Link) : list URL :=
  let codeFileURL := link_url link in
  let codeFileURL := set_hash "" codeFileURL in
  let codeFileURL := set_search "" codeFileURL in
  let syntaxHighlightedCodeFileURL :=
    set_pathname (pathname codeFileURL +:+ ".html") codeFileURL in
  [ syntaxHighlightedCodeFileURL; codeFileURL ].

(** [response.replace(/[<>]/g, c => ('&#' + c.charCodeAt(0) + ';'))] *)
Fixpoint htmlEncode (s : string) : string :=
  match s with
  | EmptyString => EmptyString
  | String a s' =>
      if Ascii.eqb a "<" then "&#60;" +:+ htmlEncode s'
      else if Ascii.eqb a ">" then "&#62;" +:+ htmlEncode s'
      else String a (htmlEncode s')
  end.

Definition lineSpan (line : string) : string :=
  "<span class=" +:+ JS.quote +:+ "line" +:+ JS.quote +:+ ">"
  +:+ (if String.eqb line "" then "&nbsp;" else line) +:+ "</span>".

Definition contentFromResponse (response : option string) (link : Link)
    (loadURL : URL) : Result (option ContentObject) * list SideEffect :=
  match response with
  | None => (Raise "TypeError", [])
  | Some response =>
      let codeDocument :=
        if String.eqb (JS.slice_to 1 response) "<"
        then newDocument env (Some response)
        else newDocument env
               (Some ("<pre class=" +:+ JS.quote +:+ "raw-code" +:+ JS.quote
                      +:+ "><code>" +:+ htmlEncode response +:+ "</code></pre>")) in
      match DOM.querySelector codeDocument [] (DOM.simple [DOM.Tag "code"]) with
      | None => (Raise "TypeError", [])
      | Some codeBlock =>
          let innerHTML :=
            JS.join JS.newline
              (map lineSpan
                 (JS.split JS.LF
                    (serializeHTML env (DOM.childrenAt codeDocument codeBlock)))) in
          let codeDocument :=
            DOM.updateAt (DOM.set_children (parseHTML env innerHTML))
              codeBlock codeDocument in
          (Return (Some (document_only (Fragment codeDocument None))), [])
      end
  end.

Definition contentType : ContentType :=
  mkContentType "localCodeFile" matches sourceURLsForLink contentFromResponse None.

End WithEnv.
End localCodeFile.

(* ------------------------------------------------------------------ *)
(** *** [Content.contentTypes.localFragment]                            *)

Module localFragment.
Section WithEnv.
Context (env : Env).

Definition matches (link : Link) : bool :=
  if negb (String.eqb (hostname (link_url link)) (hostname (location env)))
  then false
  else if isAnnotatedLinkFull env (classList link)
  then false
  else JS.startsWith (pathname (link_url link)) "/metadata/"
       && JS.endsWith (pathname (link_url link)) ".html".

Definition sourceURLsForLink (link : Link) : list URL :=
  let url := link_url link in
  let url := set_hash "" url in
  let url := set_search "" url in
  [ url ].

(** [elements.forEach(e => e.classList.add(c))] *)
Definition addClassToAll (c : string) (paths : list DOM.Path)
    (fragment : list DOM.Node) : list DOM.Node :=
  fold_left
    (fun doc p => DOM.updateAt (DOM.update_attrs (DOM.classList_add [c])) p doc)
    paths fragment.

(** [.backlink-source a:nth-of-type(2), .backlink-context a] *)
Definition backlinkAnchors : DOM.Selector :=
  [ DOM.mkComplex [DOM.Tag "a"; DOM.NthOfType 2]
      [(DOM.Descendant, [DOM.Class "backlink-source"])];
    DOM.mkComplex [DOM.Tag "a"]
      [(DOM.Descendant, [DOM.Class "backlink-context"])] ].

(** The marking of an auxiliary-links list; [None] when it throws. *)
Definition markAuxLinksList (auxLinksLinkType : string) (loadURL : URL)
    (fragment : list DOM.Node) : option (list DOM.Node) :=
  match DOM.querySelector fragment []
          [DOM.mkComplex [DOM.Tag "ul"] []; DOM.mkComplex [DOM.Tag "ol"] []] with
  | None => Some fragment
  | Some auxLinksList =>
      let fragment :=
        DOM.updateAt
          (DOM.update_attrs
             (DOM.classList_add ["aux-links-list"; auxLinksLinkType +:+ "-list"]))
          auxLinksList fragment in
      match DOM.previousElementSibling fragment auxLinksList with
      | None => None
      | Some label =>
          let fragment :=
            DOM.updateAt
              (DOM.update_attrs
                 (DOM.classList_add
                    ["aux-links-list-label"; auxLinksLinkType +:+ "-list-label"]))
              label fragment in
          if String.eqb auxLinksLinkType "backlinks"
          then
            let fragment :=
              addClassToAll "backlink-context"
                (DOM.querySelectorAll fragment auxLinksList
                   (DOM.simple [DOM.Tag "blockquote"]))
                fragment in
            let fragment :=
              addClassToAll "backlink-source"
                (DOM.querySelectorAll fragment auxLinksList
                   [DOM.mkComplex [DOM.Tag "p"] [(DOM.Child, [DOM.Tag "li"])]])
                fragment in
            match DOM.querySelectorAll fragment auxLinksList backlinkAnchors with
            | [] => Some fragment
            | auxLinks =>
                let assign (target : string) :=
                  fold_left
                    (fun doc p =>
                       DOM.updateAt
                         (DOM.update_attrs
                            (DOM.setAttribute "data-backlink-target-url" target))
                         p doc)
                    auxLinks fragment in
                match AuxLinks.targetOfAuxLinksLink env loadURL with
                | Some (Some target) => Some (assign target)
                | Some None => None
                | None => Some (assign "null")
                end
            end
          else Some fragment
      end
  end.

Definition contentFromResponse (response : option string) (link : Link)
    (loadURL : URL) : Result (option ContentObject) * list SideEffect :=
  let fragment := newDocument env response in
  let marked :=
    match AuxLinks.auxLinksLinkType loadURL with
    | Some auxLinksLinkType => markAuxLinksList auxLinksLinkType loadURL fragment
    | None => Some fragment
    end in
  match marked with
  | None => (Raise "TypeError", [])
  | Some fragment =>
      (Return (Some (document_only (Fragment fragment None))),
       [ContentDidLoad "Content.contentTypes.localFragment.load"
          (Fragment fragment None)])
  end.

Definition contentType : ContentType :=
  mkContentType "localFragment" matches sourceURLsForLink contentFromResponse
    (Some ["text/html"]).

End WithEnv.
End localFragment.

(* ------------------------------------------------------------------ *)
(** *** [Content.contentTypes.localPage]                                *)

Module localPage.
Section WithEnv.
Context (env : Env).

(** [/\./] *)
Definition periodRegExp : JS.RegExp :=
  JS.Seq JS.anything (JS.Seq (JS.chr ".") JS.anything).

Definition matches (link : Link) : bool :=
  if negb (String.eqb (hostname (link_url link)) (hostname (location env)))
  then false
  else if isAnnotatedLinkFull env (classList link)
  then false
  else negb (JS.accepts periodRegExp (pathname (link_url link)))
       || JS.endsWith (pathname (link_url link)) "/index"
       || contains (classList link) "link-page".

Definition sourceURLsForLink (link : Link) : list URL :=
  let url := link_url link in
  let url := set_hash "" url in
  let url := set_search "" url in
  [ url ].

Definition defaultPageThumbnailPathnamePrefix : string := "/static/img/logo/logo-".

(** [s.match(pageTitleRegexp)[1]] for
    [/^(.+?) · Gwern\.net( \(reader mode\))?$/]: the string without its
    ending, when that leaves at least one character and no line
    terminator; [None] when there is no match. *)
Definition withoutEnding (s ending : string) : option string :=
  if JS.endsWith s ending
  then Some (JS.slice_to (String.length s - String.length ending) s)
  else None.

Definition pageTitleMatch (s : string) : option string :=
  let name :=
    match withoutEnding s " · Gwern.net" with
    | Some t => Some t
    | None => withoutEnding s " · Gwern.net (reader mode)"
    end in
  match name with
  | Some t =>
      if negb (String.eqb t "") && JS.accepts (JS.Many JS.dot) t
      then Some t else None
  | None => None
  end.

(** [s.replace(re, "&quot;")] for the global pattern [re] of one double
    quote. *)
Fixpoint escapeQuotes (s : string) : string :=
  match s with
  | EmptyString => EmptyString
  | String a s' =>
      if Ascii.eqb a (ascii_of_nat 34) then "&quot;" +:+ escapeQuotes s'
      else String a (escapeQuotes s')
  end.

(** The template strings print [null] as ["null"]. *)
Definition shown (v : option string) : string := default "null" v.

Definition indent : string :=
  JS.newline +:+ String JS.TAB (String JS.TAB (String JS.TAB (String JS.TAB
    (String JS.TAB (String JS.TAB (String JS.TAB EmptyString)))))).

Definition imgTag (src alt width height : string) : string :=
  "<img"
  +:+ indent +:+ "src=" +:+ JS.quote +:+ src +:+ JS.quote
  +:+ indent +:+ "title=" +:+ JS.quote +:+ alt +:+ JS.quote
  +:+ indent +:+ "width=" +:+ JS.quote +:+ width +:+ JS.quote
  +:+ indent +:+ "height=" +:+ JS.quote +:+ height +:+ JS.quote
  +:+ indent +:+ "style=" +:+ JS.quote +:+ "width: " +:+ width
  +:+ "px; height: auto;" +:+ JS.quote
  +:+ indent +:+ String JS.TAB EmptyString +:+ ">".

Definition meta (attribute value : string) : DOM.Selector :=
  DOM.simple [DOM.Tag "meta"; DOM.AttrIs attribute value].

(** [element.getAttribute("content")] of the first match of a selector:
    [None] when nothing matches, [Some None] when the attribute is not
    there. *)
Definition contentOf (page : list DOM.Node) (sel : DOM.Selector)
    : option (option string) :=
  match DOM.querySelector page [] sel with
  | None => None
  | Some p =>
      Some (DOM.getAttribute (from_option DOM.attrs_of [] (DOM.nodeAt page p))
              "content")
  end.

(** The thumbnail part: the [<img>] tag, if one is made, and the URL of
    the image that is requested; [None] when it throws. *)
Definition pageThumbnail (page : list DOM.Node) (pageTitle : string)
    : option (option string * list SideEffect) :=
  match contentOf page (meta "property" "og:image") with
  | None => Some (None, [])
  | Some content =>
      match parseURL env (shown content) with
      | None => None
      | Some pageThumbnailURL =>
          let altText :=
            match contentOf page (meta "property" "og:image:alt") with
            | None => Some ("Thumbnail image for “" +:+ pageTitle +:+ "”")
            | Some alt => alt
            end in
          match altText,
                contentOf page (meta "property" "og:image:width"),
                contentOf page (meta "property" "og:image:height") with
          | Some altText, Some pageThumbnailWidth, Some pageThumbnailHeight =>
              let pageThumbnailHTML :=
                if negb (JS.startsWith (pathname pageThumbnailURL)
                           defaultPageThumbnailPathnamePrefix)
                then Some (imgTag (href pageThumbnailURL) (escapeQuotes altText)
                             (shown pageThumbnailWidth) (shown pageThumbnailHeight))
                else None in
              Some (pageThumbnailHTML, [ImageRequest (href pageThumbnailURL)])
          | _, _, _ => None
          end
      end
  end.

Definition contentFromResponse (response : option string) (link : Link)
    (loadURL : URL) : Result (option ContentObject) * list SideEffect :=
  let page :=
    if truthy response
    then Fragment (newDocument env response) (Some loadURL)
    else LiveDocument in
  let nodes := nodes_of env page in
  match contentOf nodes (meta "name" "page-body-classes"),
        DOM.querySelector nodes [] (DOM.simple [DOM.Tag "title"]) with
  | Some (Some classes), Some titleElement =>
      let pageBodyClasses := JS.split " " (JS.trim classes) in
      match pageTitleMatch (serializeHTML env (DOM.childrenAt nodes titleElement)) with
      | None => (Raise "TypeError", [])
      | Some pageTitle =>
          match pageThumbnail nodes pageTitle with
          | None => (Raise "TypeError", [])
          | Some (pageThumbnailHTML, requests) =>
              (Return (Some {| title := Some pageTitle;
                               bodyClasses := Some pageBodyClasses;
                               thumbnailHTML := pageThumbnailHTML;
                               content_document := page |}),
               requests
               ++ (if truthy response
                   then [ContentDidLoad "Content.contentTypes.localPage.load" page]
                   else []))
          end
      end
  | _, _ => (Raise "TypeError", [])
  end.

(** The section mark, as the code writes it. *)
Definition sectionMark : string := "&#x00a7;".

(** [parts.join(" ")]; an [undefined] part prints as the empty string. *)
Definition joinParts (parts : list (option string)) : string :=
  JS.join " " (map (default "") parts).

(** The page content: a copy of the metadata block, if the page has one,
    without its class [markdownBody], then copies of the children of the
    main content block; [None] when the page has no main content block. *)
Definition pageContentOf (page : list DOM.Node) : option (list DOM.Node) :=
  let pageContent : list DOM.Node := newDocument env None in
  let pageContent :=
    match DOM.querySelector page [] (DOM.simple [DOM.Id "page-metadata"]) with
    | Some block =>
        let pageContent := pageContent ++ option_list (DOM.nodeAt page block) in
        match DOM.querySelector pageContent [] (DOM.simple [DOM.Id "page-metadata"]) with
        | Some pageMetadataBlock =>
            DOM.updateAt
              (DOM.update_attrs
                 (fun attrs =>
                    let attrs := DOM.classList_remove "markdownBody" attrs in
                    if String.eqb (DOM.className attrs) ""
                    then DOM.removeAttribute "class" attrs
                    else attrs))
              pageMetadataBlock pageContent
        | None => pageContent
        end
    | None => pageContent
    end in
  match DOM.querySelector page [] (DOM.simple [DOM.Id "markdownBody"]) with
  | Some body => Some (pageContent ++ DOM.childrenAt page body)
  | None => None
  end.

(** The parts a target element adds to the title; [None] when it throws. *)
Definition elementTitleParts (link : Link) (pageContent : list DOM.Node)
    (element : DOM.Path) : option (list (option string)) :=
  let nearestSection := DOM.closest pageContent element (DOM.simple [DOM.Tag "section"]) in
  let nearestFootnote :=
    DOM.closest pageContent element (DOM.simple [DOM.Tag "li"; DOM.Class "footnote"]) in
  match nearestFootnote, nearestSection with
  | Some footnote, _ =>
      let attrs := from_option DOM.attrs_of [] (DOM.nodeAt pageContent footnote) in
      let identifyingSpan :=
        DOM.querySelector pageContent footnote
          (DOM.simple [DOM.Tag "span"; DOM.HasAttr "id"; DOM.IsEmpty]) in
      Some ([Some "Footnote"; Some (Notes.noteNumber attrs)]
            ++ match identifyingSpan with
               | Some span =>
                   [Some ("(#" +:+ DOM.id_of (from_option DOM.attrs_of []
                                                (DOM.nodeAt pageContent span))
                          +:+ ")")]
               | None => []
               end)
  | None, Some section =>
      let attrs := from_option DOM.attrs_of [] (DOM.nodeAt pageContent section) in
      if String.eqb (DOM.id_of attrs) "footnotes"
      then Some [Some sectionMark; Some "Footnotes"]
      else
        match DOM.firstElementChild pageContent section with
        | None => None
        | Some heading =>
            Some [Some sectionMark;
                  Some (from_option DOM.textContent "" (DOM.nodeAt pageContent heading))]
        end
  | None, None => Some [Some (hash (link_url link))]
  end.

Definition referenceDataFromContent (page : ContentObject) (link : Link)
    : Result ReferenceData :=
  match pageContentOf (nodes_of env (content_document page)) with
  | None => Raise "TypeError"
  | Some pageContent =>
      let element := targetElementInDocument env link pageContent in
      let popFrameTitleTextParts : list (option string) :=
        if negb (String.eqb (pathname (link_url link)) (pathname (location env)))
        then [title page] else [] in
      let elementParts :=
        match element with
        | Some e => elementTitleParts link pageContent e
        | None => Some []
        end in
      match elementParts with
      | None => Raise "TypeError"
      | Some more =>
          let popFrameTitleTextParts := popFrameTitleTextParts ++ more in
          Return {| content := pageContent;
                    pageTitle := title page;
                    pageBodyClasses := bodyClasses page;
                    pageThumbnailHTML := thumbnailHTML page;
                    popFrameTitleLinkHref := href (link_url link);
                    popFrameTitleText := joinParts popFrameTitleTextParts;
                    popFrameTitleTextShort := head popFrameTitleTextParts |}
      end
  end.

Definition contentType : ContentType :=
  mkContentType "localPage" matches sourceURLsForLink contentFromResponse
    (Some ["text/html"]).

End WithEnv.
End localPage.


(* ================================================================== *)
(** ** The [Content] object                                             *)
(* ================================================================== *)

Module Content.

(** The callbacks of a request [Content.load] makes with [doAjax]: the
    variables [onSuccess] and [onFailure] close over. *)
Record Request := mkRequest {
  request_link : Link;
  sourceURL : URL;
  sourceURLsRemaining : list URL
}.

(** What the Content object does to the world around it, in the order
    it does it.  Handlers passed to [load] are opaque functions, named by
    a number.  The notification center is called with an event payload
    and with handler options; these calls are recorded, and what the
    notification center makes of them is not part of the Content object. *)
Inductive Effect :=
(** [doAjax({ location: sourceURL.href, onSuccess, onFailure })] *)
| Ajax (request : Request)
(** [GW.notificationCenter.fireEvent(eventName, { link: link })] *)
| FireEvent (eventName : string) (link : Link)
(** [GWServerLogError(errorString, errorType)] *)
| ServerLogError (errorString errorType : string)
(** an effect of the content type's [contentFromResponse] *)
| FromContentType (effect : SideEffect)
(** [loadHandler(link)] or [loadFailHandler(link)] *)
| CallHandler (handler : nat) (link : Link)
(** the two [addHandlerForEvent] calls of [waitForDataLoad] *)
| AwaitLoad (link : Link) (loadHandler loadFailHandler : option nat).

(** The state: [Content.cachedContent] and the effects so far. *)
Record State := mkState {
  cachedContent : gmap string Cached;
  trace : list Effect
}.

Definition initial : State := {| cachedContent := ∅; trace := [] |}.

(** The outcome of a call: it returns, or it throws; the state is the
    one reached either way. *)
Inductive Outcome (A : Type) :=
| Ok (a : A) (st : State)
| Throw (error : string) (st : State).
Arguments Ok {A} a st.
Arguments Throw {A} error st.

Definition M (A : Type) : Type := State → Outcome A.

Definition ret {A} (a : A) : M A := fun st => Ok a st.
Definition throw {A} (error : string) : M A := fun st => Throw error st.
Definition bind {A B} (m : M A) (k : A → M B) : M B :=
  fun st =>
    match m st with
    | Ok a st' => k a st'
    | Throw e st' => Throw e st'
    end.
Definition emit (effects : list Effect) : M unit :=
  fun st => Ok tt {| cachedContent := cachedContent st;
                     trace := trace st ++ effects |}.
Definition store (key : string) (value : Cached) : M unit :=
  fun st => Ok tt {| cachedContent := <[key := value]> (cachedContent st);
                     trace := trace st |}.
Definition read (key : string) : M (option Cached) :=
  fun st => Ok (cachedContent st !! key) st.
Definition when (b : bool) (m : M unit) : M unit := if b then m else ret tt.

#[local] Notation "'let!' x ':=' m 'in' k" := (bind m (fun x => k))
  (at level 10, x name, m at level 100, k at level 200).

Definition state_of {A} (o : Outcome A) : State :=
  match o with
  | Ok _ st => st
  | Throw _ st => st
  end.

Section WithRegistry.
Context (env : Env).

(** [Object.entries(Content.contentTypes)], in order. *)
Context (contentTypes : list ContentType).

Definition contentTypeForLink (link : Link) : option ContentType :=
  List.find (fun contentType => matches contentType link) contentTypes.

Definition sourceURLsForLink (link : Link) : M (list URL) :=
  match contentTypeForLink link with
  | Some contentType => ret (sourceURLsForLink contentType link)
  | None => throw "TypeError"
  end.

Definition contentCacheKeyForLink (link : Link) : M string :=
  let! urls := sourceURLsForLink link in
  match urls with
  | first :: _ => ret (href first)
  | [] => throw "TypeError"
  end.

Definition cacheContentForLink (content : Cached) (link : Link) : M unit :=
  let! key := contentCacheKeyForLink link in
  store key content.

Definition contentFromResponse (response : option string) (link : Link)
    (loadURL : URL) : M (option ContentObject) :=
  match contentTypeForLink link with
  | None => throw "TypeError"
  | Some contentType =>
      let r := contentFromResponse contentType response link loadURL in
      let! _ := emit (map FromContentType (snd r)) in
      match fst r with
      | Return content => ret content
      | Raise e => throw e
      end
  end.

(** The function [processResponse] that [load] defines. *)
Definition processResponse (link : Link) (sourceURL : URL)
    (response : option string) : M unit :=
  let! content := contentFromResponse response link sourceURL in
  match content with
  | Some content =>
      let! _ := cacheContentForLink (Loaded content) link in
      emit [FireEvent "Content.contentDidLoad" link]
  | None =>
      let! _ := cacheContentForLink LOADING_FAILED link in
      let! _ := emit [FireEvent "Content.contentLoadDidFail" link] in
      emit [ServerLogError (href sourceURL +:+ "--could-not-process")
              "problematic content"]
  end.

(** [Content.load] up to its last statement. *)
Definition load_request (link : Link) (sourceURLsRemaining : option (list URL))
    : M unit :=
  let! sourceURLsRemaining :=
    match sourceURLsRemaining with
    | Some urls => ret urls
    | None => sourceURLsForLink link
    end in
  match sourceURLsRemaining with
  | [] => throw "TypeError"
  | sourceURL :: sourceURLsRemaining =>
      if String.eqb (pathname sourceURL) (pathname (location env))
      then processResponse link sourceURL None
      else emit [Ajax (mkRequest link sourceURL sourceURLsRemaining)]
  end.

(** [Content.load(link)], as [cachedContentForLink] calls it: without
    handlers, so that the last statement of [load] does nothing. *)
Definition cachedContentForLink (link : Link) : M (option Cached) :=
  let! _ := when (String.eqb (pathname (link_url link)) (pathname (location env)))
                 (load_request link None) in
  let! key := contentCacheKeyForLink link in
  read key.

Definition cachedDocumentForLink (link : Link) : M (option DocRef) :=
  let! content := cachedContentForLink link in
  match content with
  | Some (Loaded content) => ret (Some (content_document content))
  | _ => ret None
  end.

Definition cachedDataExists (link : Link) : M bool :=
  let! cachedContent := cachedContentForLink link in
  match cachedContent with
  | None => ret false
  | Some LOADING_FAILED => ret false
  | Some (Loaded _) => ret true
  end.

Definition call (handler : option nat) (link : Link) : M unit :=
  match handler with
  | Some h => emit [CallHandler h link]
  | None => ret tt
  end.

Definition waitForDataLoad (link : Link) (loadHandler loadFailHandler : option nat)
    : M unit :=
  let! c := cachedContentForLink link in
  match c with
  | Some LOADING_FAILED => call loadFailHandler link
  | _ =>
      let! c := cachedContentForLink link in
      match c with
      | Some _ => call loadHandler link
      | None => emit [AwaitLoad link loadHandler loadFailHandler]
      end
  end.

Definition load (link : Link) (loadHandler loadFailHandler : option nat)
    (sourceURLsRemaining : option (list URL)) : M unit :=
  let! _ := load_request link sourceURLsRemaining in
  when (bool_decide (is_Some loadHandler) || bool_decide (is_Some loadFailHandler))
       (waitForDataLoad link loadHandler loadFailHandler).

(** A character of a media type: not the semicolon, not a line
    terminator. *)
Definition plain (a : ascii) : bool :=
  negb (Ascii.eqb a ";") && negb (Ascii.eqb a JS.LF) && negb (Ascii.eqb a JS.CR).

(** [header.match(/(.+?)(?:;|$)/)[1]]: from the first position where it
    can, the shortest run of characters, none a line terminator, that a
    semicolon or the end of the header follows. *)
Fixpoint mimeTypeAt (s : string) : option string :=
  match s with
  | EmptyString => None
  | String a s' =>
      if negb (Ascii.eqb a JS.LF) && negb (Ascii.eqb a JS.CR)
      then match s' with
           | EmptyString => Some (String a EmptyString)
           | String b _ =>
               if Ascii.eqb b ";" then Some (String a EmptyString)
               else String a <$> mimeTypeAt s'
           end
      else None
  end.

Fixpoint mimeType (s : string) : option string :=
  match mimeTypeAt s with
  | Some m => Some m
  | None =>
      match s with
      | EmptyString => None
      | String _ s' => mimeType s'
      end
  end.

(** The check of [onSuccess]: [Some true] when the response is refused,
    [None] when the check throws. *)
Definition badContentType (contentType : ContentType)
    (httpContentTypeHeader : option string) : option bool :=
  match permittedContentTypes contentType with
  | None => Some false
  | Some permitted =>
      match httpContentTypeHeader with
      | None => Some true
      | Some header =>
          match mimeType header with
          | None => None
          | Some m => Some (negb (contains permitted m))
          end
      end
  end.

(** The callback [onSuccess] of a request, called with the response's
    [Content-Type] header ([None] for [null]) and text. *)
Definition onSuccess (r : Request) (httpContentTypeHeader : option string)
    (responseText : string) : M unit :=
  match contentTypeForLink (request_link r) with
  | None => throw "TypeError"
  | Some contentType =>
      match badContentType contentType httpContentTypeHeader with
      | None => throw "TypeError"
      | Some true =>
          match includeLink env with
          | None => throw "ReferenceError"
          | Some includeLink =>
              emit [ServerLogError (href includeLink +:+ "--bad-content-type")
                      "bad content type"]
          end
      | Some false =>
          processResponse (request_link r) (sourceURL r) (Some responseText)
      end
  end.

(** The callback [onFailure] of a request. *)
Definition onFailure (r : Request) : M unit :=
  match sourceURLsRemaining r with
  | _ :: _ => load (request_link r) None None (Some (sourceURLsRemaining r))
  | [] =>
      let! _ := cacheContentForLink LOADING_FAILED (request_link r) in
      let! _ := emit [FireEvent "Content.contentLoadDidFail" (request_link r)] in
      emit [ServerLogError (href (sourceURL r)) "missing content"]
  end.

(** What a client and the network do to the Content object, one call at
    a time: the client loads, reads and waits; a request is answered by
    one of its two callbacks. *)
Inductive Action :=
| DoLoad (link : Link) (loadHandler loadFailHandler : option nat)
| DoRead (link : Link)
| DoWait (link : Link) (loadHandler loadFailHandler : option nat)
| Respond (r : Request) (httpContentTypeHeader : option string)
          (responseText : string)
| GiveUp (r : Request).

(** The state after a call, whether it returns or throws. *)
Definition perform (a : Action) (st : State) : State :=
  match a with
  | DoLoad link loadHandler loadFailHandler =>
      state_of (load link loadHandler loadFailHandler None st)
  | DoRead link => state_of (cachedContentForLink link st)
  | DoWait link loadHandler loadFailHandler =>
      state_of (waitForDataLoad link loadHandler loadFailHandler st)
  | Respond r header text => state_of (onSuccess r header text st)
  | GiveUp r => state_of (onFailure r st)
  end.

Definition after (actions : list Action) : State :=
  fold_left (fun st a => perform a st) actions initial.

(** The cache key of a link; [None] when computing it throws.  (The
    computation reads no state.) *)
Definition keyOf (link : Link) : option string :=
  match contentCacheKeyForLink link initial with
  | Ok key _ => Some key
  | Throw _ _ => None
  end.

(** The event that goes with a cache value. *)
Definition eventFor (v : Cached) : string :=
  match v with
  | Loaded _ => "Content.contentDidLoad"
  | LOADING_FAILED => "Content.contentLoadDidFail"
  end.

(** The last event fired for a link with the given key: [Some true] for
    ["Content.contentDidLoad"], [Some false] for another event, [None]
    when there has been none. *)
Definition lastEvent (key : string) (t : list Effect) : option bool :=
  fold_left
    (fun last e =>
       match e with
       | FireEvent name link =>
           if bool_decide (keyOf link = Some key)
           then Some (String.eqb name "Content.contentDidLoad")
           else last
       | _ => last
       end) t None.

(** An effect that is no event of the Content object, and no request for
    the page the user is on. *)
Definition quiet (e : Effect) : Prop :=
  match e with
  | FireEvent _ _ => False
  | Ajax r => pathname (sourceURL r) ≠ pathname (location env)
  | _ => True
  end.

(** How the state moves: by quiet effects, and by storing a value under
    the key of a link together with firing the event that goes with the
    value for that link. *)
Inductive Steps : State → State → Prop :=
| steps_refl st : Steps st st
| steps_quiet st effects :
    Forall quiet effects →
    Steps st {| cachedContent := cachedContent st; trace := trace st ++ effects |}
| steps_store st link key v :
    keyOf link = Some key →
    Steps st {| cachedContent := <[key := v]> (cachedContent st);
                trace := trace st ++ [FireEvent (eventFor v) link] |}
| steps_trans st1 st2 st3 : Steps st1 st2 → Steps st2 st3 → Steps st1 st3.

(** The cache reflects the events: under every key the entry is a
    content object when the last event for the key is
    ["Content.contentDidLoad"], the failure mark when it is another
    event, and absent when there has been none. *)
Definition Reflects (st : State) : Prop :=
  ∀ key,
    lastEvent key (trace st)
    = (fun v => match v with Loaded _ => true | LOADING_FAILED => false end)
        <$> cachedContent st !! key.

(** A computation all of whose runs move the state in these ways. *)
Definition Preserves {A} (m : M A) : Prop :=
  ∀ st, Steps st (state_of (m st)).

End WithRegistry.

(** [Content.contentTypes] *)
Definition contentTypes (env : Env) : list ContentType :=
  [ localTweetArchive.contentType env;
    localCodeFile.contentType env;
    localFragment.contentType env;
    localPage.contentType env ].

(** Observations of a trace: the requests [load] has made, and the links
    for which an event has been fired. *)
Definition requests (t : list Effect) : list Request :=
  omap (fun e => match e with Ajax r => Some r | _ => None end) t.

Definition broadcasts (eventName : string) (t : list Effect) : list Link :=
  omap (fun e =>
          match e with
          | FireEvent name link =>
              if String.eqb name eventName then Some link else None
          | _ => None
          end) t.

(** The requests for images that content types have made. *)
Definition imageRequests (t : list Effect) : list string :=
  omap (fun e =>
          match e with
          | FromContentType (ImageRequest location) => Some location
          | _ => None
          end) t.

End Content.

(* ================================================================== *)
(** ** The users of the Content object in [Extracts] (extracts-content.js) *)
(* ================================================================== *)

Module Extracts.
Section WithEnv.
Context (env : Env).

Definition isLocalPageLink (target : Link) : bool :=
  localPage.matches env target
  && (isAnchorLink env target
      || negb (String.eqb (pathname (link_url target)) (pathname (location env)))).

Definition isTransformableLocalDocumentLink (target : Link) : bool :=
  if contains (classList target) "content-transform-not" then false
  else localTweetArchive.matches env target.

Definition isLocalCodeFileLink (target : Link) : bool :=
  localCodeFile.matches env target.

(** The listener that [setUpContentLoadEventsWithin] puts on a target
    (for the hover, or for the click): load, unless the data exists. *)
Definition contentLoad (target : Link) : Content.M unit :=
  Content.bind (Content.cachedDataExists env (Content.contentTypes env) target)
    (fun exists_ =>
       if exists_ then Content.ret tt
       else Content.load env (Content.contentTypes env) target None None None).

End WithEnv.
End Extracts.

(** Unfolding of the primitive steps of the [Content] monad. *)
Ltac content_steps :=
  unfold Content.bind, Content.emit, Content.ret, Content.throw,
    Content.store, Content.read, Content.when, Content.call; simpl.

(* ------------------------------------------------------------------ *)
(** ** A sample page, for the examples                                  *)

Module Sample.

Definition site (path fragment : string) : URL :=
  {| protocol := "https:"; hostname := "gwern.net"; port := "";
     pathname := path; search := ""; hash := fragment |}.

Definition anchor (u : URL) : Link :=
  {| link_url := u; classList := []; dataset_urlOriginal := None;
     dataset_targetId := None; dataset_backlinkTargetUrl := None |}.

(** A page of the site titled "Essay", with two sections, the second the
    footnotes section; [metas] are further elements of its head. *)
Definition page (metas : list DOM.Node) : list DOM.Node :=
  [ DOM.Elem "html" []
      [ DOM.Elem "head" []
          ([ DOM.Elem "title" [] [DOM.Text "Essay · Gwern.net"];
             DOM.Elem "meta" [("name", "page-body-classes"); ("content", "page-essay")] [] ]
           ++ metas);
        DOM.Elem "body" []
          [ DOM.Elem "div" [("id", "markdownBody"); ("class", "markdownBody")]
              [ DOM.Elem "section" [("id", "section-3"); ("class", "level1")]
                  [ DOM.Elem "h1" [] [DOM.Text "Third section"];
                    DOM.Elem "p" [("id", "claim")] [DOM.Text "A paragraph."] ];
                DOM.Elem "section" [("id", "footnotes"); ("class", "footnotes")]
                  [ DOM.Elem "h1" [] [DOM.Text "Notes"];
                    DOM.Elem "p" [("id", "preamble")] [DOM.Text "About the notes."];
                    DOM.Elem "ol" []
                      [ DOM.Elem "li" [("id", "fn1"); ("class", "footnote")]
                          [ DOM.Elem "p" [("id", "note-text")] [DOM.Text "A note."] ] ] ] ] ] ] ].

Definition essay : list DOM.Node := page [].

(** The same page with a thumbnail image declared in its head. *)
Definition illustrated : list DOM.Node :=
  page [ DOM.Elem "meta" [("property", "og:image");
                          ("content", "https://gwern.net/doc/thumbnail.png")] [];
         DOM.Elem "meta" [("property", "og:image:width"); ("content", "640")] [];
         DOM.Elem "meta" [("property", "og:image:height"); ("content", "480")] [] ].

Fixpoint text_of (nodes : list DOM.Node) : string :=
  match nodes with
  | [] => ""
  | n :: rest => DOM.textContent n +:+ text_of rest
  end.

(** An environment: the current page is [current], with [live] as its
    live document; the parser knows the one text "essay" (the source of
    [essay]) and the one URL of the thumbnail; a hash selects by id; a
    link is annotated by its class. *)
Definition env_with (current : URL) (live : list DOM.Node) : Env :=
  {| location := current;
     document := live;
     parseHTML := fun s => if String.eqb s "essay" then essay else [];
     serializeHTML := text_of;
     parseURL := fun s => if String.eqb s "https://gwern.net/doc/thumbnail.png"
                          then Some (site "/doc/thumbnail.png" "") else None;
     decodeURIComponent := Some;
     selectorFromHash := fun h => DOM.simple [DOM.Id (JS.slice 1 h)];
     isAnnotatedLinkFull := fun classes => contains classes "link-annotated";
     isAnnotatedLink := fun classes => contains classes "link-annotated";
     isAnnotationTransclude := fun _ => false;
     includeLink := None |}.

Definition env (current : URL) : Env := env_with current essay.

(** The same environment with a value for the global [includeLink]. *)
Definition with_includeLink (global : option URL) (e : Env) : Env :=
  {| location := location e; document := document e;
     parseHTML := parseHTML e; serializeHTML := serializeHTML e;
     parseURL := parseURL e; decodeURIComponent := decodeURIComponent e;
     selectorFromHash := selectorFromHash e;
     isAnnotatedLinkFull := isAnnotatedLinkFull e;
     isAnnotatedLink := isAnnotatedLink e;
     isAnnotationTransclude := isAnnotationTransclude e;
     includeLink := global |}.





(** A registry of one content type whose [contentFromResponse] gives
    nothing usable, whatever the response. *)
Definition unusable : ContentType :=
  {| typeName := "unusable";
     matches := fun _ => true;
     sourceURLsForLink := fun link => [set_search "" (set_hash "" (link_url link))];
     contentFromResponse := fun _ _ _ => (Return None, []);
     permittedContentTypes := None |}.

End Sample.

(* ================================================================== *)
(** * Properties                                                        *)
(* ================================================================== *)

Module NotificationCenterFacts.
Import NotificationCenter.

Lemma same_true h h' : same h h' = true ↔ ref h = ref h'.
Proof. unfold same. apply Nat.eqb_eq. Qed.

Lemma includes_true arr h : includes arr h = true ↔ ref h ∈ ref <$> arr.
Proof.
  unfold includes. induction arr as [|x arr IH]; simpl.
  - split; [discriminate | intros H; inversion H].
  - rewrite orb_true_iff, IH, same_true, elem_of_cons. tauto.
Qed.

Lemma includes_false arr h : includes arr h = false ↔ ref h ∉ ref <$> arr.
Proof.
  rewrite <- includes_true. destruct (includes arr h); split; congruence.
Qed.

Lemma Array_remove_sublist arr h : Array_remove arr h `sublist_of` arr.
Proof.
  induction arr as [|x arr IH]; simpl; [constructor|].
  destruct (same h x); [by apply sublist_cons | by apply sublist_skip].
Qed.

(** With no duplicate in the array, removing the handler found at index
    [k] splices exactly that index. *)
Lemma Array_remove_at arr : ∀ k h,
  NoDup (ref <$> arr) → arr !! k = Some h → Array_remove arr h = delete k arr.
Proof.
  induction arr as [|x arr IH]; intros k h Hnd Hk; [done|].
  rewrite fmap_cons in Hnd. apply NoDup_cons in Hnd as [Hx Hnd].
  destruct k as [|k]; simpl in *.
  - inversion Hk; subst. unfold same. by rewrite Nat.eqb_refl.
  - destruct (same h x) eqn:E.
    + apply same_true in E. exfalso. apply Hx. rewrite <- E.
      apply list_elem_of_fmap. exists h. split; [done|].
      by eapply list_elem_of_lookup_2.
    + f_equal. by apply IH.
Qed.

Lemma distinct_sublist (arr arr' : list Handler) :
  arr' `sublist_of` arr → NoDup (ref <$> arr) → NoDup (ref <$> arr').
Proof. intros Hs Hnd. eapply sublist_NoDup; [done | by apply fmap_sublist]. Qed.

(** The traversal invariant: the handlers invoked so far are pairwise
    distinct and none of them is still ahead of the index. *)
Lemma forEach_from_invariant n : ∀ k arr calls,
  NoDup (ref <$> arr) → NoDup calls →
  (∀ r, r ∈ calls → r ∉ ref <$> drop k arr) →
  NoDup (snd (forEach_from n k arr calls))
  ∧ fst (forEach_from n k arr calls) `sublist_of` arr.
Proof.
  induction n as [|n IH]; intros k arr calls Harr Hcalls Hahead; simpl.
  { split; [done | reflexivity]. }
  destruct (arr !! k) as [h|] eqn:Hk.
  - assert (Hdrop : drop k arr = h :: drop (S k) arr).
    { by apply drop_S. }
    assert (Hh : ref h ∉ calls).
    { intros Hin. apply (Hahead _ Hin). rewrite Hdrop, fmap_cons. left. }
    assert (Hlater : ref h ∉ ref <$> drop (S k) arr).
    { assert (Hnd : NoDup (ref <$> drop k arr)).
      { eapply distinct_sublist; [apply sublist_drop | done]. }
      rewrite Hdrop, fmap_cons in Hnd. by apply NoDup_cons in Hnd as [? _]. }
    assert (Hcalls' : NoDup (calls ++ [ref h])).
    { apply NoDup_app. split_and!; [done | | apply NoDup_singleton].
      intros x Hx Hx'. apply list_elem_of_singleton in Hx'. by subst. }
    assert (Hstep : ∀ r, r ∈ calls ++ [ref h] → r ∉ ref <$> drop (S k) arr).
    { intros r Hr. apply elem_of_app in Hr as [Hr|Hr].
      - intros Hin. apply (Hahead _ Hr). rewrite Hdrop, fmap_cons. by right.
      - apply list_elem_of_singleton in Hr. by subst. }
    destruct (once h).
    + rewrite (Array_remove_at arr k h Harr Hk).
      assert (Hsub : delete k arr `sublist_of` arr) by apply sublist_delete.
      destruct (IH (S k) (delete k arr) (calls ++ [ref h])) as [H1 H2].
      * by eapply distinct_sublist.
      * done.
      * intros r Hr Hin. apply (Hstep r Hr).
        assert (Hs : drop (S k) (delete k arr) `sublist_of` drop (S k) arr).
        { rewrite delete_take_drop.
          assert (Hlen : length (take k arr) = k).
          { apply length_take_le. apply lookup_lt_Some in Hk. lia. }
          rewrite drop_app_ge by lia. rewrite Hlen.
          replace (S k - k) with 1 by lia. apply sublist_drop. }
        eapply elem_of_sublist; [done | by apply fmap_sublist].
      * split; [done | by etrans].
    + by apply IH.
  - apply IH; [done | done |].
    intros r Hr Hin. apply (Hahead r Hr).
    rewrite (drop_ge arr k); [| by apply lookup_ge_None].
    rewrite drop_ge in Hin; [done | apply lookup_ge_None in Hk; lia].
Qed.

Lemma forEach_from_distinct arr :
  NoDup (ref <$> arr) →
  NoDup (snd (forEach_from (length arr) 0 arr []))
  ∧ NoDup (ref <$> fst (forEach_from (length arr) 0 arr [])).
Proof.
  intros Hnd.
  destruct (forEach_from_invariant (length arr) 0 arr []) as [H1 H2];
    [done | constructor | intros r Hr; inversion Hr |].
  split; [done | by eapply distinct_sublist].
Qed.

Lemma distinct_initial : distinct initial.
Proof. intros e arr H. simpl in H. by rewrite lookup_empty in H. Qed.

Lemma distinct_addHandlerForEvent e h st :
  distinct st → distinct (addHandlerForEvent e h st).
Proof.
  intros Hd e' arr'. unfold addHandlerForEvent.
  destruct (table st !! e) as [arr|] eqn:He; simpl.
  - rewrite He. destruct (includes arr h) eqn:Hi; simpl; [apply Hd|].
    destruct (decide (e = e')) as [->|Hne].
    + rewrite lookup_insert_eq. intros [= <-].
      rewrite fmap_app. apply NoDup_app. split_and!.
      * by eapply Hd.
      * intros x Hx Hx'. apply list_elem_of_singleton in Hx'. subst.
        by apply includes_false in Hi.
      * apply NoDup_singleton.
    + rewrite lookup_insert_ne by done. apply Hd.
  - rewrite lookup_insert_eq. simpl.
    destruct (decide (e = e')) as [->|Hne].
    + rewrite lookup_insert_eq. intros [= <-]. simpl. apply NoDup_singleton.
    + rewrite !lookup_insert_ne by done. apply Hd.
Qed.

Lemma distinct_cancelHandlerForEvent e h st :
  distinct st → distinct (cancelHandlerForEvent e h st).
Proof.
  intros Hd e' arr'. unfold cancelHandlerForEvent.
  destruct (table st !! e) as [arr|] eqn:He; simpl; [|apply Hd].
  destruct (decide (e = e')) as [->|Hne].
  - rewrite lookup_insert_eq. intros [= <-].
    eapply distinct_sublist; [apply Array_remove_sublist | by eapply Hd].
  - rewrite lookup_insert_ne by done. apply Hd.
Qed.

Lemma distinct_cancelAllHandlersForEvent e st :
  distinct st → distinct (cancelAllHandlersForEvent e st).
Proof.
  intros Hd e' arr'. simpl. intros H.
  apply lookup_delete_Some in H as [_ H]. by eapply Hd.
Qed.

Lemma distinct_fireEvent e st : distinct st → distinct (fireEvent e st).
Proof.
  intros Hd e' arr'. unfold fireEvent.
  destruct (table st !! e) as [arr|] eqn:He; simpl; [|apply Hd].
  destruct (decide (e = e')) as [->|Hne].
  - rewrite lookup_insert_eq. intros [= <-].
    apply forEach_from_distinct. by eapply Hd.
  - rewrite lookup_insert_ne by done. apply Hd.
Qed.

Lemma distinct_step st c : distinct st → distinct (step st c).
Proof.
  destruct c; simpl;
    auto using distinct_addHandlerForEvent, distinct_cancelHandlerForEvent,
      distinct_cancelAllHandlersForEvent, distinct_fireEvent.
Qed.

Lemma distinct_fold calls : ∀ st, distinct st → distinct (fold_left step calls st).
Proof.
  induction calls as [|c calls IH]; intros st Hd; simpl; [done|].
  apply IH. by apply distinct_step.
Qed.

Lemma addHandlerForEvent_present e h st arr :
  table st !! e = Some arr → includes arr h = true →
  addHandlerForEvent e h st = st.
Proof. intros He Hi. unfold addHandlerForEvent. by rewrite He, He, Hi. Qed.

Lemma addHandlerForEvent_registers e h st :
  ∃ arr, table (addHandlerForEvent e h st) !! e = Some arr
         ∧ includes arr h = true.
Proof.
  assert (Hin : ∀ arr, includes (arr ++ [h]) h = true).
  { intros arr. apply includes_true. rewrite fmap_app.
    apply elem_of_app. right. simpl. left. }
  unfold addHandlerForEvent.
  destruct (table st !! e) as [arr|] eqn:He; simpl.
  - rewrite He. destruct (includes arr h) eqn:Hi; simpl.
    + by exists arr.
    + exists (arr ++ [h]). by rewrite lookup_insert_eq.
  - rewrite lookup_insert_eq. simpl. exists [h].
    rewrite lookup_insert_eq. split; [done | apply (Hin [])].
Qed.

Lemma addHandlerForEvent_twice e h st :
  addHandlerForEvent e h (addHandlerForEvent e h st) = addHandlerForEvent e h st.
Proof.
  destruct (addHandlerForEvent_registers e h st) as (arr & He & Hi).
  by eapply addHandlerForEvent_present.
Qed.

(** Two handlers registered twice each, one of them [once]: each is
    listed once; firing invokes the first and, the array having been
    spliced under the traversal, passes over the second. *)
Example fireEvent_after_double_registration :
  let h1 := mkHandler 1 true in
  let h2 := mkHandler 2 false in
  let st := run [Add "e" h1; Add "e" h2; Add "e" h1; Add "e" h2] in
  table st !! "e" = Some [h1; h2]
  ∧ invoked "e" st = [1]
  ∧ table (fireEvent "e" st) !! "e" = Some [h2].
Proof. by vm_compute. Qed.

(** C10.  Registering the same handler object a second time for the same
    event changes nothing; hence, in every state the notification center
    reaches from its initial (empty) state by calls of [addHandlerForEvent],
    [cancelHandlerForEvent], [cancelAllHandlersForEvent] and [fireEvent],
    no event's handler list contains a handler object twice, and one
    [fireEvent] of an event invokes a given handler at most once. *)
Theorem addHandlerForEvent_idempotent_no_duplicates :
  ∀ (calls : list Call) (eventName : string) (handler : Handler),
    let st := run calls in
    addHandlerForEvent eventName handler (addHandlerForEvent eventName handler st)
      = addHandlerForEvent eventName handler st
    ∧ distinct st
    ∧ NoDup (invoked eventName st)
    ∧ called (fireEvent eventName st)
        = called st ++ map (pair eventName) (invoked eventName st).
Proof.
  intros calls e h st.
  assert (Hd : distinct st) by (apply distinct_fold, distinct_initial).
  split_and!; [apply addHandlerForEvent_twice | done | |].
  - unfold invoked. destruct (table st !! e) as [arr|] eqn:He; [|constructor].
    apply forEach_from_distinct. by eapply Hd.
  - unfold fireEvent, invoked. destruct (table st !! e); simpl; [done|].
    by rewrite app_nil_r.
Qed.

End NotificationCenterFacts.

Module ContentFacts.

Lemma requests_app t1 t2 :
  Content.requests (t1 ++ t2) = Content.requests t1 ++ Content.requests t2.
Proof. apply omap_app. Qed.

Lemma broadcasts_app name t1 t2 :
  Content.broadcasts name (t1 ++ t2)
  = Content.broadcasts name t1 ++ Content.broadcasts name t2.
Proof. apply omap_app. Qed.

Lemma requests_FromContentType effects :
  Content.requests (map Content.FromContentType effects) = [].
Proof. by induction effects. Qed.

Lemma broadcasts_FromContentType name effects :
  Content.broadcasts name (map Content.FromContentType effects) = [].
Proof. by induction effects. Qed.

Section Generic.
Context (env : Env) (reg : list ContentType).

Lemma sourceURLsForLink_Some link ct st :
  Content.contentTypeForLink reg link = Some ct →
  Content.sourceURLsForLink reg link st = Content.Ok (sourceURLsForLink ct link) st.
Proof. intros H. unfold Content.sourceURLsForLink. by rewrite H. Qed.

Lemma contentCacheKeyForLink_Some link ct first rest st :
  Content.contentTypeForLink reg link = Some ct →
  sourceURLsForLink ct link = first :: rest →
  Content.contentCacheKeyForLink reg link st = Content.Ok (href first) st.
Proof.
  intros H1 H2. unfold Content.contentCacheKeyForLink, Content.bind.
  by rewrite (sourceURLsForLink_Some _ _ _ H1), H2.
Qed.

Lemma cacheContentForLink_Some value link ct first rest st :
  Content.contentTypeForLink reg link = Some ct →
  sourceURLsForLink ct link = first :: rest →
  Content.cacheContentForLink reg value link st
  = Content.Ok tt
      {| Content.cachedContent := <[href first := value]> (Content.cachedContent st);
         Content.trace := Content.trace st |}.
Proof.
  intros H1 H2. unfold Content.cacheContentForLink, Content.bind.
  by rewrite (contentCacheKeyForLink_Some _ _ _ _ _ H1 H2).
Qed.

(** What [processResponse] does once the content type has returned. *)
Lemma processResponse_returned link url response ct first rest result effects st :
  Content.contentTypeForLink reg link = Some ct →
  sourceURLsForLink ct link = first :: rest →
  contentFromResponse ct response link url = (Return result, effects) →
  Content.processResponse reg link url response st
  = Content.Ok tt
      {| Content.cachedContent :=
           <[href first := from_option Loaded LOADING_FAILED result]>
             (Content.cachedContent st);
         Content.trace :=
           Content.trace st ++ map Content.FromContentType effects
           ++ match result with
              | Some _ => [Content.FireEvent "Content.contentDidLoad" link]
              | None =>
                  [Content.FireEvent "Content.contentLoadDidFail" link;
                   Content.ServerLogError (href url +:+ "--could-not-process")
                     "problematic content"]
              end |}.
Proof.
  intros H1 H2 H3.
  unfold Content.processResponse, Content.contentFromResponse, Content.bind.
  rewrite H1, H3. simpl.
  destruct result as [c|]; simpl;
    rewrite (cacheContentForLink_Some _ _ _ _ _ _ H1 H2); simpl.
  all: unfold Content.emit; simpl; by rewrite <- ?app_assoc.
Qed.

(** When the content type throws, nothing is stored and no event fired. *)
Lemma processResponse_raised link url response ct error effects st :
  Content.contentTypeForLink reg link = Some ct →
  contentFromResponse ct response link url = (Raise error, effects) →
  Content.processResponse reg link url response st
  = Content.Throw error
      {| Content.cachedContent := Content.cachedContent st;
         Content.trace := Content.trace st ++ map Content.FromContentType effects |}.
Proof.
  intros H1 H3.
  unfold Content.processResponse, Content.contentFromResponse, Content.bind.
  by rewrite H1, H3.
Qed.

Lemma load_request_remote link url rest st :
  pathname url ≠ pathname (location env) →
  Content.load_request env reg link (Some (url :: rest)) st
  = Content.Ok tt
      {| Content.cachedContent := Content.cachedContent st;
         Content.trace := Content.trace st ++ [Content.Ajax (Content.mkRequest link url rest)] |}.
Proof.
  intros Hne. unfold Content.load_request, Content.bind. simpl.
  by apply String.eqb_neq in Hne as ->.
Qed.

Lemma load_request_first link ct url rest st :
  Content.contentTypeForLink reg link = Some ct →
  sourceURLsForLink ct link = url :: rest →
  Content.load_request env reg link None st
  = Content.load_request env reg link (Some (url :: rest)) st.
Proof.
  intros H1 H2. unfold Content.load_request, Content.bind.
  by rewrite (sourceURLsForLink_Some _ _ _ H1), H2.
Qed.

Lemma load_without_handlers link remaining st :
  Content.load env reg link None None remaining st
  = Content.load_request env reg link remaining st.
Proof.
  unfold Content.load, Content.bind. simpl.
  by destruct (Content.load_request env reg link remaining st) as [[] ?|].
Qed.


Lemma onSuccess_accepted r header text ct st :
  Content.contentTypeForLink reg (Content.request_link r) = Some ct →
  Content.badContentType ct header = Some false →
  Content.onSuccess env reg r header text st
  = Content.processResponse reg (Content.request_link r) (Content.sourceURL r)
      (Some text) st.
Proof. intros H1 H2. unfold Content.onSuccess. by rewrite H1, H2. Qed.

(** A response of a type that is not permitted: whatever [includeLink]
    is, the cache keeps its value, and no event is fired. *)
Lemma onSuccess_refused r header text ct st :
  Content.contentTypeForLink reg (Content.request_link r) = Some ct →
  Content.badContentType ct header = Some true →
  let st' := Content.state_of (Content.onSuccess env reg r header text st) in
  Content.cachedContent st' = Content.cachedContent st
  ∧ (∀ name, Content.broadcasts name (Content.trace st')
             = Content.broadcasts name (Content.trace st))
  ∧ Content.requests (Content.trace st') = Content.requests (Content.trace st).
Proof.
  intros H1 H2. unfold Content.onSuccess. rewrite H1, H2.
  destruct (includeLink env); simpl; [|done].
  split_and!; [done | |].
  - intros name. rewrite broadcasts_app. simpl. by rewrite app_nil_r.
  - rewrite requests_app. simpl. by rewrite app_nil_r.
Qed.

End Generic.

(** The first match of a registry, in general. *)
Lemma contentTypeForLink_Some_iff (reg : list ContentType) (link : Link) ct :
  Content.contentTypeForLink reg link = Some ct
  ↔ ∃ earlier later,
      reg = earlier ++ ct :: later
      ∧ matches ct link = true
      ∧ Forall (fun c => matches c link = false) earlier.
Proof.
  unfold Content.contentTypeForLink. induction reg as [|c reg IH]; simpl.
  - split; [discriminate|]. intros (earlier & later & H & _). by destruct earlier.
  - destruct (matches c link) eqn:Hc.
    + split.
      * intros [= <-]. exists [], reg. by repeat split.
      * intros (earlier & later & H & Hm & Hall).
        destruct earlier as [|c' earlier]; simpl in H.
        -- by inversion H.
        -- inversion H; subst. apply Forall_cons in Hall as [Hc' _]. congruence.
    + rewrite IH. split.
      * intros (earlier & later & -> & Hm & Hall).
        exists (c :: earlier), later. repeat split; [done|]. by constructor.
      * intros (earlier & later & H & Hm & Hall).
        destruct earlier as [|c' earlier]; simpl in H.
        -- inversion H; subst. congruence.
        -- inversion H; subst. apply Forall_cons in Hall as [_ Hall].
           by exists earlier, later.
Qed.

Lemma contentTypeForLink_None_iff (reg : list ContentType) (link : Link) :
  Content.contentTypeForLink reg link = None
  ↔ Forall (fun c => matches c link = false) reg.
Proof.
  unfold Content.contentTypeForLink. induction reg as [|c reg IH]; simpl.
  - split; [constructor | done].
  - destruct (matches c link) eqn:Hc.
    + split; [discriminate|]. intros H. apply Forall_cons in H as [H _]. congruence.
    + rewrite IH. split; [by constructor | by intros [_ ?]%Forall_cons].
Qed.

(** The predicates overlap, so the order decides: a code file marked as a
    page matches both types, and is a code file. *)
Example contentTypeForLink_overlap :
  let env := Sample.env (Sample.site "/essay" "") in
  let link := {| link_url := Sample.site "/static/build.hs" "";
                 classList := ["link-page"];
                 dataset_urlOriginal := None; dataset_targetId := None;
                 dataset_backlinkTargetUrl := None |} in
  localCodeFile.matches env link = true
  ∧ localPage.matches env link = true
  ∧ typeName <$> Content.contentTypeForLink (Content.contentTypes env) link
    = Some "localCodeFile".
Proof. by vm_compute. Qed.

(** C7.  [Content.contentTypeForLink] is a function of the link and the
    current location alone (it reads and changes no state, and always
    returns): its value is the first content type, in the order
    localTweetArchive, localCodeFile, localFragment, localPage, whose
    [matches] holds of the link, and [None] ([null]) exactly when none
    matches. *)
Theorem contentTypeForLink_first_match (env : Env) (link : Link) :
  let reg := Content.contentTypes env in
  map typeName reg
    = ["localTweetArchive"; "localCodeFile"; "localFragment"; "localPage"]
  ∧ Content.contentTypeForLink reg link
    = (if localTweetArchive.matches env link
       then Some (localTweetArchive.contentType env)
       else if localCodeFile.matches env link
       then Some (localCodeFile.contentType env)
       else if localFragment.matches env link
       then Some (localFragment.contentType env)
       else if localPage.matches env link
       then Some (localPage.contentType env)
       else None)
  ∧ (∀ ct, Content.contentTypeForLink reg link = Some ct
           ↔ ∃ earlier later,
               reg = earlier ++ ct :: later
               ∧ matches ct link = true
               ∧ Forall (fun c => matches c link = false) earlier)
  ∧ (Content.contentTypeForLink reg link = None
     ↔ Forall (fun c => matches c link = false) reg).
Proof.
  intros reg. split_and!.
  - reflexivity.
  - unfold Content.contentTypeForLink, reg, Content.contentTypes. simpl.
    repeat (match goal with |- context [if ?b then _ else _] => destruct b end;
            try reflexivity).
  - intros ct. apply contentTypeForLink_Some_iff.
  - apply contentTypeForLink_None_iff.
Qed.

(** Classification does not look at the query string or the fragment. *)
Lemma contentTypeForLink_with_search_and_hash env q h link :
  Content.contentTypeForLink (Content.contentTypes env) (with_search_and_hash q h link)
  = Content.contentTypeForLink (Content.contentTypes env) link.
Proof.
  assert (H1 : localTweetArchive.matches env (with_search_and_hash q h link)
               = localTweetArchive.matches env link).
  { unfold localTweetArchive.matches, originalURLForLink. simpl.
    by destruct (dataset_urlOriginal link). }
  assert (H2 : localCodeFile.matches env (with_search_and_hash q h link)
               = localCodeFile.matches env link) by reflexivity.
  assert (H3 : localFragment.matches env (with_search_and_hash q h link)
               = localFragment.matches env link) by reflexivity.
  assert (H4 : localPage.matches env (with_search_and_hash q h link)
               = localPage.matches env link) by reflexivity.
  unfold Content.contentTypeForLink, Content.contentTypes. simpl.
  by rewrite H1, H2, H3, H4.
Qed.

(** C9.  For a link that some registered content type matches, the cache
    key is the [href] of the first source URL, and it is the same for the
    link with any other query string and fragment; every source URL of
    every registered content type has an empty [hash] and an empty
    [search]. *)
Theorem cache_key_ignores_search_and_hash
    (env : Env) (link : Link) (q h : string) (st : Content.State) :
  let reg := Content.contentTypes env in
  is_Some (Content.contentTypeForLink reg link) →
  (∃ key,
     Content.contentCacheKeyForLink reg link st = Content.Ok key st
     ∧ Content.contentCacheKeyForLink reg (with_search_and_hash q h link) st
       = Content.Ok key st)
  ∧ (∀ ct url, ct ∈ reg → url ∈ sourceURLsForLink ct link →
       hash url = "" ∧ search url = "").
Proof.
  intros reg [ct Hct]. split.
  - assert (Hreg : ct ∈ reg).
    { apply contentTypeForLink_Some_iff in Hct as (earlier & later & -> & _).
      apply elem_of_app. right. left. }
    assert (Hsame : sourceURLsForLink ct (with_search_and_hash q h link)
                    = sourceURLsForLink ct link).
    { unfold reg, Content.contentTypes in Hreg.
      repeat (apply elem_of_cons in Hreg as [->|Hreg]; [reflexivity|]).
      inversion Hreg. }
    assert (Hne : ∃ first rest, sourceURLsForLink ct link = first :: rest).
    { unfold reg, Content.contentTypes in Hreg.
      repeat (apply elem_of_cons in Hreg as [->|Hreg]; [simpl; eauto|]).
      inversion Hreg. }
    destruct Hne as (first & rest & Hurls).
    exists (href first). split.
    + by apply (contentCacheKeyForLink_Some reg link ct first rest).
    + apply (contentCacheKeyForLink_Some reg _ ct first rest).
      * unfold reg. by rewrite contentTypeForLink_with_search_and_hash.
      * by rewrite Hsame.
  - intros ct' url Hreg Hurl. unfold reg, Content.contentTypes in Hreg.
    repeat (apply elem_of_cons in Hreg as [->|Hreg];
            [simpl in Hurl;
             repeat (apply elem_of_cons in Hurl as [->|Hurl]; [done|]);
             inversion Hurl|]).
    inversion Hreg.
Qed.

Lemma cache_key_ignores_search_and_hash_witness :
  let env := Sample.env (Sample.site "/essay" "") in
  let reg := Content.contentTypes env in
  let link := Sample.anchor (Sample.site "/other" "#section-3") in
  is_Some (Content.contentTypeForLink reg link)
  ∧ ∃ key,
      Content.contentCacheKeyForLink reg link Content.initial
        = Content.Ok key Content.initial
      ∧ Content.contentCacheKeyForLink reg
          (with_search_and_hash "?v=2" "#footnotes" link) Content.initial
        = Content.Ok key Content.initial.
Proof.
  intros env reg link.
  assert (H : is_Some (Content.contentTypeForLink reg link))
    by (exists (localPage.contentType env); reflexivity).
  split; [exact H|].
  exact (proj1 (cache_key_ignores_search_and_hash env link "?v=2" "#footnotes"
                  Content.initial H)).
Defined.

(** Computing the cache key reads no state. *)
Lemma contentCacheKeyForLink_pure (reg : list ContentType) link st key st' :
  Content.contentCacheKeyForLink reg link st = Content.Ok key st' →
  st' = st ∧ ∀ st'', Content.contentCacheKeyForLink reg link st'' = Content.Ok key st''.
Proof.
  unfold Content.contentCacheKeyForLink, Content.sourceURLsForLink, Content.bind.
  destruct (Content.contentTypeForLink reg link) as [ct|]; simpl; [|done].
  destruct (sourceURLsForLink ct link) as [|first rest]; simpl; [done|].
  by intros [= <- <-].
Qed.

(** C5, as the code has it.  [Content.cachedDataExists] answers [true]
    exactly when the entry under the link's key is a loaded content
    object; it answers [false] when there is no entry and also when the
    entry is ["LOADING_FAILED"].  (The entry is read after
    [cachedContentForLink] has reloaded the current page, which it does
    for a link to the current page; for any other link the state is left
    as it was.) *)
Theorem cachedDataExists_only_for_loaded
    (env : Env) (reg : list ContentType) (link : Link) (st : Content.State) :
  (∀ b st',
     Content.cachedDataExists env reg link st = Content.Ok b st' →
     ∃ key,
       Content.contentCacheKeyForLink reg link st' = Content.Ok key st'
       ∧ b = is_loaded (Content.cachedContent st' !! key))
  ∧ (∀ ct first rest,
       Content.contentTypeForLink reg link = Some ct →
       sourceURLsForLink ct link = first :: rest →
       pathname (link_url link) ≠ pathname (location env) →
       Content.cachedDataExists env reg link st
       = Content.Ok (is_loaded (Content.cachedContent st !! href first)) st).
Proof.
  split.
  - intros b st'. unfold Content.cachedDataExists, Content.cachedContentForLink.
    unfold Content.bind at 1 2.
    destruct (Content.when _ _ st) as [[] st1|e st1]; [|done].
    unfold Content.bind.
    destruct (Content.contentCacheKeyForLink reg link st1) as [key st2|e st2] eqn:Hkey;
      [|done].
    apply contentCacheKeyForLink_pure in Hkey as [-> Hkey].
    unfold Content.read.
    destruct (Content.cachedContent st1 !! key) as [[c|]|] eqn:Hv;
      content_steps; intros [= <- <-]; exists key; by rewrite Hkey, Hv.
  - intros ct first rest Hct Hurls Hne.
    unfold Content.cachedDataExists, Content.cachedContentForLink.
    apply String.eqb_neq in Hne. rewrite Hne. content_steps.
    rewrite (contentCacheKeyForLink_Some reg link ct first rest st Hct Hurls).
    by destruct (Content.cachedContent st !! href first) as [[c|]|].
Qed.

Lemma cachedDataExists_only_for_loaded_witness :
  let env := Sample.env (Sample.site "/essay" "") in
  let reg := Content.contentTypes env in
  let link := Sample.anchor (Sample.site "/other" "#section-3") in
  Content.contentTypeForLink reg link = Some (localPage.contentType env)
  ∧ Content.cachedDataExists env reg link Content.initial
    = Content.Ok false Content.initial.
Proof.
  intros env reg link.
  assert (Hct : Content.contentTypeForLink reg link = Some (localPage.contentType env))
    by reflexivity.
  split; [exact Hct|].
  exact (proj2 (cachedDataExists_only_for_loaded env reg link Content.initial)
           (localPage.contentType env) (Sample.site "/other" "") []
           Hct eq_refl ltac:(discriminate)).
Defined.

(** C5, as the claim states it, fails: after the only source URL of a
    link has failed, the entry is ["LOADING_FAILED"], and
    [cachedDataExists] answers [false]. *)
Lemma cachedDataExists_false_for_failed :
  let env := Sample.env (Sample.site "/essay" "") in
  let reg := Content.contentTypes env in
  let link := Sample.anchor (Sample.site "/other" "#section-3") in
  let request := Content.mkRequest link (Sample.site "/other" "") [] in
  ∃ st1 st2,
    Content.load env reg link None None None Content.initial = Content.Ok tt st1
    ∧ Content.onFailure env reg request st1 = Content.Ok tt st2
    ∧ Content.cachedContent st2 !! "https://gwern.net/other" = Some LOADING_FAILED
    ∧ Content.contentCacheKeyForLink reg link st2
      = Content.Ok "https://gwern.net/other" st2
    ∧ Content.cachedDataExists env reg link st2 = Content.Ok false st2.
Proof.
  intros env reg link request.
  eexists. eexists. split; [reflexivity|]. split; [reflexivity|].
  split; [by vm_compute|]. split; [reflexivity|]. by vm_compute.
Qed.

Lemma cachedContentForLink_elsewhere env (reg : list ContentType) link ct first rest st :
  Content.contentTypeForLink reg link = Some ct →
  sourceURLsForLink ct link = first :: rest →
  pathname (link_url link) ≠ pathname (location env) →
  Content.cachedContentForLink env reg link st
  = Content.Ok (Content.cachedContent st !! href first) st.
Proof.
  intros Hct Hurls Hne. unfold Content.cachedContentForLink.
  apply String.eqb_neq in Hne. rewrite Hne. content_steps.
  by rewrite (contentCacheKeyForLink_Some reg link ct first rest st Hct Hurls).
Qed.

(** C1, as the code has it.  For a link to another page whose key has a
    cached result, reading the cache ([cachedContentForLink]) returns that
    result and changes nothing; [Content.load] keeps the cached result and
    fires no event, and it calls the handler that fits the result at once
    (the load handler for a content object, the failure handler for
    ["LOADING_FAILED"]); but [load] does not look at the cache before it
    fetches: it makes one new request, for the first source URL. *)
Theorem load_of_cached_link
    (env : Env) (reg : list ContentType) (link : Link) (ct : ContentType)
    (first : URL) (rest : list URL) (cached : Cached)
    (loadHandler loadFailHandler : option nat) (st : Content.State) :
  Content.contentTypeForLink reg link = Some ct →
  sourceURLsForLink ct link = first :: rest →
  pathname (link_url link) ≠ pathname (location env) →
  pathname first ≠ pathname (location env) →
  Content.cachedContent st !! href first = Some cached →
  Content.cachedContentForLink env reg link st = Content.Ok (Some cached) st
  ∧ ∃ st',
      Content.load env reg link loadHandler loadFailHandler None st = Content.Ok tt st'
      ∧ Content.cachedContent st' = Content.cachedContent st
      ∧ Content.trace st'
        = Content.trace st
          ++ [Content.Ajax (Content.mkRequest link first rest)]
          ++ match (match cached with
                    | Loaded _ => loadHandler
                    | LOADING_FAILED => loadFailHandler
                    end) with
             | Some handler => [Content.CallHandler handler link]
             | None => []
             end
      ∧ Content.requests (Content.trace st')
        = Content.requests (Content.trace st) ++ [Content.mkRequest link first rest]
      ∧ (∀ name, Content.broadcasts name (Content.trace st')
                 = Content.broadcasts name (Content.trace st)).
Proof.
  intros Hct Hurls Hlink Hfirst Hcached.
  split.
  { rewrite (cachedContentForLink_elsewhere env reg link ct first rest st Hct Hurls Hlink).
    by rewrite Hcached. }
  pose (st1 := {| Content.cachedContent := Content.cachedContent st;
                  Content.trace := Content.trace st
                    ++ [Content.Ajax (Content.mkRequest link first rest)] |}).
  assert (Hload : Content.load_request env reg link None st = Content.Ok tt st1).
  { rewrite (load_request_first env reg link ct first rest st Hct Hurls).
    by apply load_request_remote. }
  assert (Hread : Content.cachedContentForLink env reg link st1
                  = Content.Ok (Some cached) st1).
  { rewrite (cachedContentForLink_elsewhere env reg link ct first rest st1 Hct Hurls Hlink).
    simpl. by rewrite Hcached. }
  assert (Hwait : Content.waitForDataLoad env reg link loadHandler loadFailHandler st1
                  = Content.Ok tt
                      {| Content.cachedContent := Content.cachedContent st;
                         Content.trace := Content.trace st1
                           ++ match (match cached with
                                     | Loaded _ => loadHandler
                                     | LOADING_FAILED => loadFailHandler
                                     end) with
                              | Some handler => [Content.CallHandler handler link]
                              | None => []
                              end |}).
  { unfold Content.waitForDataLoad. unfold Content.bind at 1. rewrite Hread.
    destruct cached as [c|].
    - unfold Content.bind. rewrite Hread.
      destruct loadHandler; content_steps; by rewrite ?app_nil_r.
    - destruct loadFailHandler; content_steps; by rewrite ?app_nil_r. }
  assert (Hsilent : ∀ (name : string) (handler : option nat),
            Content.broadcasts name
              (match handler with
               | Some handler => [Content.CallHandler handler link]
               | None => []
               end) = []) by (by intros ? []).
  assert (Hquiet : ∀ handler : option nat,
            Content.requests
              (match handler with
               | Some handler => [Content.CallHandler handler link]
               | None => []
               end) = []) by (by intros []).
  unfold Content.load, Content.bind. rewrite Hload.
  destruct (bool_decide (is_Some loadHandler) || bool_decide (is_Some loadFailHandler))
    eqn:Hhandlers; simpl.
  - rewrite Hwait. eexists. split; [done|]. simpl. split_and!.
    + done.
    + by rewrite <- app_assoc.
    + by rewrite !requests_app, Hquiet, app_nil_r.
    + intros name. by rewrite !broadcasts_app, Hsilent, !app_nil_r.
  - apply orb_false_iff in Hhandlers as [H1 H2].
    destruct loadHandler; [done|]. destruct loadFailHandler; [done|].
    eexists. split; [done|]. simpl. split_and!.
    + done.
    + by destruct cached.
    + by rewrite requests_app.
    + intros name. by rewrite broadcasts_app, app_nil_r.
Qed.

Lemma load_of_cached_link_witness :
  let env := Sample.env (Sample.site "/essay" "") in
  let reg := Content.contentTypes env in
  let link := Sample.anchor (Sample.site "/other" "#section-3") in
  let request := Content.mkRequest link (Sample.site "/other" "") [] in
  let st := {| Content.cachedContent := {[ "https://gwern.net/other" := LOADING_FAILED ]};
               Content.trace := [] |} in
  Content.cachedContent st !! "https://gwern.net/other" = Some LOADING_FAILED
  ∧ Content.cachedContentForLink env reg link st = Content.Ok (Some LOADING_FAILED) st
  ∧ ∃ st',
      Content.load env reg link (Some 1) (Some 2) None st = Content.Ok tt st'
      ∧ Content.trace st' = [Content.Ajax request; Content.CallHandler 2 link].
Proof.
  intros env reg link request st.
  assert (Hcached : Content.cachedContent st !! "https://gwern.net/other"
                    = Some LOADING_FAILED) by apply lookup_singleton_eq.
  destruct (load_of_cached_link env reg link (localPage.contentType env)
              (Sample.site "/other" "") [] LOADING_FAILED (Some 1) (Some 2) st)
    as (Hread & st' & Hload & _ & Htrace & _);
    [reflexivity | reflexivity | discriminate | discriminate | exact Hcached |].
  split; [exact Hcached|]. split; [exact Hread|].
  exists st'. split; [exact Hload | exact Htrace].
Defined.

(** C1, as the claim states it, fails: a page is loaded and cached; a
    further [load] of the same link makes a second request, and when that
    request succeeds ["Content.contentDidLoad"] is fired a second time. *)
Lemma cached_link_is_requested_again :
  let env := Sample.env (Sample.site "/essay" "") in
  let reg := Content.contentTypes env in
  let link := Sample.anchor (Sample.site "/other" "#section-3") in
  let request := Content.mkRequest link (Sample.site "/other" "") [] in
  ∃ st1 st2 st3 st4,
    Content.load env reg link None None None Content.initial = Content.Ok tt st1
    ∧ Content.onSuccess env reg request (Some "text/html") "essay" st1
      = Content.Ok tt st2
    ∧ Content.requests (Content.trace st2) = [request]
    ∧ Content.broadcasts "Content.contentDidLoad" (Content.trace st2) = [link]
    ∧ is_loaded (Content.cachedContent st2 !! "https://gwern.net/other") = true
    ∧ Content.load env reg link None None None st2 = Content.Ok tt st3
    ∧ Content.requests (Content.trace st3) = [request; request]
    ∧ Content.onSuccess env reg request (Some "text/html") "essay" st3
      = Content.Ok tt st4
    ∧ Content.broadcasts "Content.contentDidLoad" (Content.trace st4) = [link; link].
Proof.
  intros env reg link request.
  eexists. eexists. eexists. eexists.
  split; [reflexivity|]. split; [reflexivity|].
  split; [reflexivity|]. split; [reflexivity|].
  split; [by vm_compute|]. split; [reflexivity|].
  split; [reflexivity|]. split; [reflexivity|]. reflexivity.
Qed.

(** The thumbnail part makes no request, or the one for the image. *)
Lemma pageThumbnail_requests env page pageTitle html requests :
  localPage.pageThumbnail env page pageTitle = Some (html, requests) →
  requests = [] ∨ ∃ location, requests = [ImageRequest location].
Proof.
  unfold localPage.pageThumbnail.
  destruct (localPage.contentOf page _) as [c|]; [|intros [= <- <-]; by left].
  destruct (parseURL env _) as [u|]; [|done].
  destruct (match localPage.contentOf page (localPage.meta "property" "og:image:alt") with
            | Some alt => alt | None => _ end) as [alt|]; [|done].
  destruct (localPage.contentOf page (localPage.meta "property" "og:image:width"));
    [|done].
  destruct (localPage.contentOf page (localPage.meta "property" "og:image:height"));
    [|done].
  intros [= <- <-]. right. eauto.
Qed.

(** Without a response, the local page type reads the live document. *)
Lemma localPage_contentFromResponse_live env link loadURL result effects :
  localPage.contentFromResponse env None link loadURL = (Return result, effects) →
  (∃ content, result = Some content ∧ content_document content = LiveDocument)
  ∧ (effects = [] ∨ ∃ location, effects = [ImageRequest location]).
Proof.
  unfold localPage.contentFromResponse. simpl.
  destruct (localPage.contentOf (document env) _) as [[classes|]|]; [|done|done].
  destruct (DOM.querySelector (document env) [] _) as [titleElement|]; [|done].
  destruct (localPage.pageTitleMatch _) as [pageTitle|]; [|done].
  destruct (localPage.pageThumbnail env (document env) pageTitle)
    as [[html requests]|] eqn:Hthumbnail; [|done].
  intros [= <- <-]. split; [eauto|].
  rewrite app_nil_r. by eapply pageThumbnail_requests.
Qed.

(** What the local page type makes of the live document of a page of
    the site that declares no image. *)
Lemma localPage_of_live_page env link loadURL classes titleElement pageTitle :
  localPage.contentOf (document env) (localPage.meta "name" "page-body-classes")
    = Some (Some classes) →
  DOM.querySelector (document env) [] (DOM.simple [DOM.Tag "title"])
    = Some titleElement →
  localPage.pageTitleMatch
    (serializeHTML env (DOM.childrenAt (document env) titleElement)) = Some pageTitle →
  localPage.contentOf (document env) (localPage.meta "property" "og:image") = None →
  ∃ content,
    localPage.contentFromResponse env None link loadURL = (Return (Some content), [])
    ∧ content_document content = LiveDocument
    ∧ title content = Some pageTitle.
Proof.
  intros Hclasses Htitle Hmatch Himage.
  unfold localPage.contentFromResponse, localPage.pageThumbnail. simpl.
  rewrite Hclasses, Htitle, Hmatch, Himage. by eexists.
Qed.

(** The same for a page that declares an image, with its dimensions. *)
Lemma localPage_of_live_page_with_image
    env link loadURL classes titleElement pageTitle image thumbnailURL width height :
  localPage.contentOf (document env) (localPage.meta "name" "page-body-classes")
    = Some (Some classes) →
  DOM.querySelector (document env) [] (DOM.simple [DOM.Tag "title"])
    = Some titleElement →
  localPage.pageTitleMatch
    (serializeHTML env (DOM.childrenAt (document env) titleElement)) = Some pageTitle →
  localPage.contentOf (document env) (localPage.meta "property" "og:image")
    = Some image →
  parseURL env (localPage.shown image) = Some thumbnailURL →
  localPage.contentOf (document env) (localPage.meta "property" "og:image:alt")
    ≠ Some None →
  localPage.contentOf (document env) (localPage.meta "property" "og:image:width")
    = Some width →
  localPage.contentOf (document env) (localPage.meta "property" "og:image:height")
    = Some height →
  ∃ content,
    localPage.contentFromResponse env None link loadURL
      = (Return (Some content), [ImageRequest (href thumbnailURL)])
    ∧ content_document content = LiveDocument
    ∧ title content = Some pageTitle.
Proof.
  intros Hclasses Htitle Hmatch Himage Hurl Halt Hwidth Hheight.
  unfold localPage.contentFromResponse, localPage.pageThumbnail. simpl.
  rewrite Hclasses, Htitle, Hmatch, Himage, Hurl, Hwidth, Hheight.
  destruct (localPage.contentOf (document env)
              (localPage.meta "property" "og:image:alt")) as [[alt|]|];
    [|done|]; by eexists.
Qed.

(** C6, as the code has it.  For a link that is classified as a local
    page and whose pathname is the current page's, [Content.load] makes
    no request for the page, whatever the live document is like.  When
    the live document has the [page-body-classes] meta tag with its
    content and a title of the site's form, and declares no image or an
    image with a URL, a width and a height (and with a content in the tag
    of its alternative text, if it has that tag), then the call itself
    stores under the link's key a content object whose document is the
    live document, and fires ["Content.contentDidLoad"]; it does nothing
    else when the page declares no image, and when it declares one it
    makes one request besides, for that image. *)
Theorem self_page_link_resolves_to_live_document
    (env : Env) (link : Link) (st : Content.State) :
  let reg := Content.contentTypes env in
  let url := set_search "" (set_hash "" (link_url link)) in
  let live := document env in
  let stored content effects :=
    {| Content.cachedContent :=
         <[href url := Loaded content]> (Content.cachedContent st);
       Content.trace :=
         Content.trace st ++ effects
         ++ [Content.FireEvent "Content.contentDidLoad" link] |} in
  Content.contentTypeForLink reg link = Some (localPage.contentType env) →
  pathname (link_url link) = pathname (location env) →
  Content.requests
    (Content.trace (Content.state_of (Content.load env reg link None None None st)))
    = Content.requests (Content.trace st)
  ∧ (∀ classes titleElement pageTitle,
       localPage.contentOf live (localPage.meta "name" "page-body-classes")
         = Some (Some classes) →
       DOM.querySelector live [] (DOM.simple [DOM.Tag "title"]) = Some titleElement →
       localPage.pageTitleMatch (serializeHTML env (DOM.childrenAt live titleElement))
         = Some pageTitle →
       (localPage.contentOf live (localPage.meta "property" "og:image") = None →
        ∃ content,
          Content.load env reg link None None None st
            = Content.Ok tt (stored content [])
          ∧ content_document content = LiveDocument
          ∧ title content = Some pageTitle)
       ∧ (∀ image thumbnailURL width height,
            localPage.contentOf live (localPage.meta "property" "og:image")
              = Some image →
            parseURL env (localPage.shown image) = Some thumbnailURL →
            localPage.contentOf live (localPage.meta "property" "og:image:alt")
              ≠ Some None →
            localPage.contentOf live (localPage.meta "property" "og:image:width")
              = Some width →
            localPage.contentOf live (localPage.meta "property" "og:image:height")
              = Some height →
            ∃ content,
              Content.load env reg link None None None st
                = Content.Ok tt
                    (stored content
                       [Content.FromContentType (ImageRequest (href thumbnailURL))])
              ∧ content_document content = LiveDocument
              ∧ title content = Some pageTitle)).
Proof.
  intros reg url live stored Hct Hself.
  assert (Hurls : sourceURLsForLink (localPage.contentType env) link = [url])
    by reflexivity.
  assert (Hload : Content.load env reg link None None None st
                  = Content.processResponse reg link url None st).
  { rewrite load_without_handlers.
    rewrite (load_request_first env reg link _ url [] st Hct Hurls).
    unfold Content.load_request. content_steps.
    replace (pathname (link_url link) =? pathname (location env))%string with true;
      [done|]. symmetry. by apply String.eqb_eq. }
  split.
  - rewrite Hload.
    destruct (contentFromResponse (localPage.contentType env) None link url)
      as [[result|error] effects] eqn:Hparse.
    + rewrite (processResponse_returned reg link url None _ url [] result effects st
                 Hct Hurls Hparse). simpl.
      rewrite !requests_app, requests_FromContentType. simpl.
      destruct result; simpl; by rewrite app_nil_r.
    + rewrite (processResponse_raised reg link url None _ error effects st Hct Hparse).
      simpl. by rewrite requests_app, requests_FromContentType, app_nil_r.
  - intros classes titleElement pageTitle Hclasses Htitle Hmatch. split.
    + intros Himage.
      destruct (localPage_of_live_page env link url classes titleElement pageTitle
                  Hclasses Htitle Hmatch Himage) as (content & Hparse & Hlive & Hname).
      exists content. split; [|done].
      rewrite Hload.
      by rewrite (processResponse_returned reg link url None _ url [] (Some content)
                    [] st Hct Hurls Hparse).
    + intros image thumbnailURL width height Himage Hurl Halt Hwidth Hheight.
      destruct (localPage_of_live_page_with_image env link url classes titleElement
                  pageTitle image thumbnailURL width height
                  Hclasses Htitle Hmatch Himage Hurl Halt Hwidth Hheight)
        as (content & Hparse & Hlive & Hname).
      exists content. split; [|done].
      rewrite Hload.
      by rewrite (processResponse_returned reg link url None _ url [] (Some content)
                    _ st Hct Hurls Hparse).
Qed.

Lemma self_page_link_resolves_to_live_document_witness :
  let env := Sample.env_with (Sample.site "/essay" "") Sample.illustrated in
  let reg := Content.contentTypes env in
  let link := Sample.anchor (Sample.site "/essay" "#section-3") in
  Content.contentTypeForLink reg link = Some (localPage.contentType env)
  ∧ pathname (link_url link) = pathname (location env)
  ∧ ∃ content,
      Content.load env reg link None None None Content.initial
        = Content.Ok tt
            {| Content.cachedContent := <[ "https://gwern.net/essay" := Loaded content ]> ∅;
               Content.trace :=
                 [Content.FromContentType
                    (ImageRequest "https://gwern.net/doc/thumbnail.png");
                  Content.FireEvent "Content.contentDidLoad" link] |}
      ∧ content_document content = LiveDocument
      ∧ title content = Some "Essay".
Proof.
  intros env reg link.
  assert (Hct : Content.contentTypeForLink reg link = Some (localPage.contentType env))
    by reflexivity.
  assert (Hself : pathname (link_url link) = pathname (location env)) by reflexivity.
  destruct (self_page_link_resolves_to_live_document env link Content.initial Hct Hself)
    as [_ Hlive].
  destruct (Hlive "page-essay" [0; 0; 0] "Essay" eq_refl eq_refl eq_refl) as [_ Himage].
  destruct (Himage (Some "https://gwern.net/doc/thumbnail.png")
              (Sample.site "/doc/thumbnail.png" "") (Some "640") (Some "480")
              eq_refl eq_refl ltac:(discriminate) eq_refl eq_refl)
    as (content & Hload & Hdoc & Hname).
  split; [exact Hct|]. split; [exact Hself|].
  exists content. split; [exact Hload|]. by split.
Defined.

(** C6, as the claim states it, fails.  The page [/essay] declares an
    image, as the pages of the site do, and holds a link to one of its
    own sections.  The key of the link is the location of the page, and
    [load] stores the live document for it; but it does not do so without
    a network request: the local page type asks for the image, with
    [doAjax], while it makes the content object. *)
Lemma self_page_link_makes_a_network_request :
  let env := Sample.env_with (Sample.site "/essay" "") Sample.illustrated in
  let reg := Content.contentTypes env in
  let link := Sample.anchor (Sample.site "/essay" "#section-3") in
  Content.contentCacheKeyForLink reg link Content.initial
    = Content.Ok (href (location env)) Content.initial
  ∧ ∃ st' content,
      Content.load env reg link None None None Content.initial = Content.Ok tt st'
      ∧ Content.cachedContent st' !! href (location env) = Some (Loaded content)
      ∧ content_document content = LiveDocument
      ∧ Content.trace st'
        = [Content.FromContentType (ImageRequest "https://gwern.net/doc/thumbnail.png");
           Content.FireEvent "Content.contentDidLoad" link]
      ∧ Content.imageRequests (Content.trace st')
        = ["https://gwern.net/doc/thumbnail.png"].
Proof.
  intros env reg link. split; [reflexivity|].
  destruct (localPage_of_live_page_with_image env link (location env)
              "page-essay" [0; 0; 0] "Essay" (Some "https://gwern.net/doc/thumbnail.png")
              (Sample.site "/doc/thumbnail.png" "") (Some "640") (Some "480")
              eq_refl eq_refl eq_refl eq_refl eq_refl ltac:(discriminate)
              eq_refl eq_refl) as (content & Hparse & Hlive & _).
  exists {| Content.cachedContent := <[href (location env) := Loaded content]> ∅;
            Content.trace :=
              [Content.FromContentType
                 (ImageRequest "https://gwern.net/doc/thumbnail.png");
               Content.FireEvent "Content.contentDidLoad" link] |}.
  exists content. split.
  { rewrite load_without_handlers.
    rewrite (load_request_first env reg link (localPage.contentType env)
               (location env) [] Content.initial eq_refl eq_refl).
    assert (Content.load_request env reg link (Some [location env]) Content.initial
            = Content.processResponse reg link (location env) None Content.initial)
      as -> by reflexivity.
    by rewrite (processResponse_returned reg link (location env) None
                  (localPage.contentType env) (location env) [] (Some content)
                  _ Content.initial eq_refl eq_refl Hparse). }
  split; [apply lookup_insert_eq|]. split; [exact Hlive|]. split; reflexivity.
Qed.

(** C2, on the code.  A link to a metadata fragment is loaded; the
    response arrives with the content type [application/octet-stream],
    which the local fragment type does not permit.  Whatever the global
    [includeLink] is, [onSuccess] then leaves the cache without an entry
    for the link and fires no event; with no such global it throws a
    [ReferenceError] where it means to report the failure. *)
Theorem bad_content_type_is_not_cached_as_failed (global : option URL) :
  let env := Sample.with_includeLink global (Sample.env (Sample.site "/essay" "")) in
  let reg := Content.contentTypes env in
  let link := Sample.anchor (Sample.site "/metadata/today.html" "") in
  let request := Content.mkRequest link (Sample.site "/metadata/today.html" "") [] in
  ∃ st1,
    Content.load env reg link None None None Content.initial = Content.Ok tt st1
    ∧ Content.requests (Content.trace st1) = [request]
    ∧ Content.badContentType (localFragment.contentType env)
        (Some "application/octet-stream") = Some true
    ∧ let outcome :=
        Content.onSuccess env reg request (Some "application/octet-stream")
          "binary" st1 in
      Content.cachedContent (Content.state_of outcome)
        !! "https://gwern.net/metadata/today.html" = None
      ∧ Content.broadcasts "Content.contentLoadDidFail"
          (Content.trace (Content.state_of outcome)) = []
      ∧ Content.requests (Content.trace (Content.state_of outcome)) = [request]
      ∧ match global with
        | None => outcome = Content.Throw "ReferenceError" st1
        | Some includeLink =>
            ∃ st2, outcome = Content.Ok tt st2
                   ∧ Content.trace st2
                     = Content.trace st1
                       ++ [Content.ServerLogError
                             (href includeLink +:+ "--bad-content-type")
                             "bad content type"]
        end.
Proof.
  intros env reg link request. eexists.
  split; [reflexivity|]. split; [reflexivity|]. split; [reflexivity|].
  destruct global as [includeLink|]; simpl.
  - split_and!; [by vm_compute | reflexivity | reflexivity |].
    eexists. split; reflexivity.
  - split_and!; [by vm_compute | reflexivity | reflexivity | reflexivity].
Qed.

(** C8, as the code has it.  Take the page content of a cached local
    page.  When the link's target element is found in it and has an
    enclosing section but no enclosing footnote, the pop-frame title text
    is the page title (for a link to another page), the section mark, and
    then the text of the section's first child element, separated by
    spaces; except that for the section with the id [footnotes] the word
    "Footnotes" stands in place of that text.  For a link to the whole
    page (no anchor) the title text is the page title alone, or empty for
    a link to the current page. *)
Theorem anchored_section_title
    (env : Env) (page : ContentObject) (link : Link) (pageContent : list DOM.Node) :
  localPage.pageContentOf env (nodes_of env (content_document page)) = Some pageContent →
  let elsewhere :=
    negb (String.eqb (pathname (link_url link)) (pathname (location env))) in
  (∀ element section,
     targetElementInDocument env link pageContent = Some element →
     DOM.closest pageContent element (DOM.simple [DOM.Tag "li"; DOM.Class "footnote"])
       = None →
     DOM.closest pageContent element (DOM.simple [DOM.Tag "section"]) = Some section →
     let sectionId :=
       DOM.id_of (from_option DOM.attrs_of [] (DOM.nodeAt pageContent section)) in
     (sectionId ≠ "footnotes" →
      ∀ heading,
        DOM.firstElementChild pageContent section = Some heading →
        let headingText :=
          from_option DOM.textContent "" (DOM.nodeAt pageContent heading) in
        ∃ data,
          localPage.referenceDataFromContent env page link = Return data
          ∧ popFrameTitleText data
            = if elsewhere
              then default "" (title page) +:+ " " +:+ "&#x00a7;" +:+ " " +:+ headingText
              else "&#x00a7;" +:+ " " +:+ headingText)
     ∧ (sectionId = "footnotes" →
        ∃ data,
          localPage.referenceDataFromContent env page link = Return data
          ∧ popFrameTitleText data
            = if elsewhere
              then default "" (title page) +:+ " " +:+ "&#x00a7;" +:+ " " +:+ "Footnotes"
              else "&#x00a7;" +:+ " " +:+ "Footnotes"))
  ∧ (isAnchorLink env link = false →
     ∃ data,
       localPage.referenceDataFromContent env page link = Return data
       ∧ popFrameTitleText data = if elsewhere then default "" (title page) else "").
Proof.
  intros HpageContent elsewhere. split.
  - intros element section Htarget Hfootnote Hsection sectionId. split.
    + intros Hid heading Hheading headingText.
      unfold localPage.referenceDataFromContent.
      rewrite HpageContent, Htarget.
      unfold localPage.elementTitleParts. rewrite Hfootnote, Hsection.
      fold sectionId. apply String.eqb_neq in Hid. rewrite Hid, Hheading.
      fold elsewhere. eexists. split; [reflexivity|].
      by destruct elsewhere.
    + intros Hid.
      unfold localPage.referenceDataFromContent.
      rewrite HpageContent, Htarget.
      unfold localPage.elementTitleParts. rewrite Hfootnote, Hsection.
      fold sectionId. rewrite Hid. simpl.
      fold elsewhere. eexists. split; [reflexivity|].
      by destruct elsewhere.
  - intros Hwhole.
    unfold localPage.referenceDataFromContent.
    rewrite HpageContent. unfold targetElementInDocument. rewrite Hwhole. simpl.
    fold elsewhere. eexists. split; [reflexivity|].
    by destruct elsewhere.
Qed.

Lemma anchored_section_title_witness :
  let env := Sample.env (Sample.site "/essay" "") in
  let page := {| title := Some "Essay"; bodyClasses := Some ["page-essay"];
                 thumbnailHTML := None;
                 content_document := Fragment Sample.essay (Some (Sample.site "/other" "")) |} in
  let link := Sample.anchor (Sample.site "/other" "#claim") in
  ∃ pageContent element section heading data,
    localPage.pageContentOf env Sample.essay = Some pageContent
    ∧ targetElementInDocument env link pageContent = Some element
    ∧ DOM.closest pageContent element (DOM.simple [DOM.Tag "section"]) = Some section
    ∧ DOM.firstElementChild pageContent section = Some heading
    ∧ localPage.referenceDataFromContent env page link = Return data
    ∧ popFrameTitleText data = "Essay &#x00a7; Third section".
Proof.
  intros env page link.
  destruct (proj1 (anchored_section_title env page link
                     (DOM.children_of
                        (default (DOM.Text "")
                           (DOM.nodeAt Sample.essay [0; 1; 0]))) eq_refl)
              [0; 1] [0] eq_refl eq_refl eq_refl)
    as [Hsection _].
  destruct (Hsection ltac:(discriminate) [0; 0] eq_refl) as (data & Hdata & Htitle).
  eexists. exists [0; 1], [0], [0; 0], data.
  split; [reflexivity|]. split; [reflexivity|]. split; [reflexivity|].
  split; [reflexivity|]. split; [exact Hdata | exact Htitle].
Defined.

(** C8, as the claim states it, fails: the target lies in the section
    with the id [footnotes], outside any footnote; the heading of that
    section reads "Notes", and the title text says "Footnotes". *)
Lemma footnotes_section_title_is_not_its_heading :
  let env := Sample.env (Sample.site "/essay" "") in
  let page := {| title := Some "Essay"; bodyClasses := Some ["page-essay"];
                 thumbnailHTML := None;
                 content_document := Fragment Sample.essay (Some (Sample.site "/other" "")) |} in
  let link := Sample.anchor (Sample.site "/other" "#preamble") in
  ∃ pageContent element section heading data,
    localPage.pageContentOf env Sample.essay = Some pageContent
    ∧ targetElementInDocument env link pageContent = Some element
    ∧ DOM.closest pageContent element (DOM.simple [DOM.Tag "li"; DOM.Class "footnote"])
      = None
    ∧ DOM.closest pageContent element (DOM.simple [DOM.Tag "section"]) = Some section
    ∧ DOM.firstElementChild pageContent section = Some heading
    ∧ (DOM.textContent <$> DOM.nodeAt pageContent heading) = Some "Notes"
    ∧ localPage.referenceDataFromContent env page link = Return data
    ∧ popFrameTitleText data = "Essay &#x00a7; Footnotes"
    ∧ popFrameTitleText data ≠ "Essay &#x00a7; Notes".
Proof.
  intros env page link.
  eexists. exists [1; 1], [1], [1; 0]. eexists.
  split; [reflexivity|]. split; [reflexivity|]. split; [reflexivity|].
  split; [reflexivity|]. split; [reflexivity|]. split; [reflexivity|].
  split; [reflexivity|]. split; [reflexivity | discriminate].
Qed.

(** None of the four registered content types returns a falsy value:
    each returns a content object, or throws. *)
Lemma registered_types_return_content env ct response link loadURL effects :
  ct ∈ Content.contentTypes env →
  contentFromResponse ct response link loadURL ≠ (Return None, effects).
Proof.
  intros Hreg. unfold Content.contentTypes in Hreg.
  repeat (apply elem_of_cons in Hreg as [->|Hreg]); [| | | |inversion Hreg]; simpl.
  - done.
  - unfold localCodeFile.contentFromResponse.
    destruct response as [response|]; [|done].
    by destruct (DOM.querySelector _ _ _).
  - unfold localFragment.contentFromResponse.
    by destruct (match AuxLinks.auxLinksLinkType loadURL with Some _ => _ | None => _ end).
  - unfold localPage.contentFromResponse.
    destruct (localPage.contentOf _ _) as [[classes|]|]; [|done|done].
    destruct (DOM.querySelector _ _ _); [|done].
    destruct (localPage.pageTitleMatch _); [|done].
    by destruct (localPage.pageThumbnail _ _ _) as [[? ?]|].
Qed.

(** The header check on some headers. *)
Example mimeType_examples :
  Content.mimeType "text/html; charset=utf-8" = Some "text/html"
  ∧ Content.mimeType "text/html" = Some "text/html"
  ∧ Content.mimeType "" = None
  ∧ Content.badContentType (localPage.contentType (Sample.env (Sample.site "/" "")))
      (Some "text/html; charset=utf-8") = Some false
  ∧ Content.badContentType (localPage.contentType (Sample.env (Sample.site "/" "")))
      None = Some true
  ∧ Content.badContentType (localCodeFile.contentType (Sample.env (Sample.site "/" "")))
      (Some "application/octet-stream") = Some false.
Proof. by vm_compute. Qed.

(** C4.  Parse failure: when the transport succeeds, the response passes
    the content-type check, and the content type's [contentFromResponse]
    returns a falsy value, then [onSuccess] stores ["LOADING_FAILED"] under
    the link's cache key (and no other value), fires
    ["Content.contentLoadDidFail"] for the link exactly once (and no
    ["Content.contentDidLoad"]), and reports the source URL with the
    suffix [--could-not-process] to the server log. *)
Theorem parse_failure_is_cached_as_failed
    (env : Env) (reg : list ContentType) (r : Content.Request)
    (header : option string) (responseText : string)
    (ct : ContentType) (first : URL) (rest : list URL)
    (effects : list SideEffect) (st : Content.State) :
  let link := Content.request_link r in
  Content.contentTypeForLink reg link = Some ct →
  sourceURLsForLink ct link = first :: rest →
  Content.badContentType ct header = Some false →
  contentFromResponse ct (Some responseText) link (Content.sourceURL r)
    = (Return None, effects) →
  ∃ st',
    Content.onSuccess env reg r header responseText st = Content.Ok tt st'
    ∧ Content.cachedContent st'
      = <[href first := LOADING_FAILED]> (Content.cachedContent st)
    ∧ Content.contentCacheKeyForLink reg link st' = Content.Ok (href first) st'
    ∧ Content.trace st'
      = Content.trace st ++ map Content.FromContentType effects
        ++ [ Content.FireEvent "Content.contentLoadDidFail" link;
             Content.ServerLogError
               (href (Content.sourceURL r) +:+ "--could-not-process")
               "problematic content" ]
    ∧ Content.broadcasts "Content.contentLoadDidFail" (Content.trace st')
      = Content.broadcasts "Content.contentLoadDidFail" (Content.trace st) ++ [link]
    ∧ Content.broadcasts "Content.contentDidLoad" (Content.trace st')
      = Content.broadcasts "Content.contentDidLoad" (Content.trace st).
Proof.
  intros link Hct Hurls Hheader Hparse.
  eexists. split.
  { rewrite (onSuccess_accepted env reg r header responseText ct st Hct Hheader).
    apply (processResponse_returned reg link _ _ ct first rest None effects st
             Hct Hurls Hparse). }
  simpl. split_and!.
  - done.
  - by apply (contentCacheKeyForLink_Some reg link ct first rest).
  - done.
  - rewrite !broadcasts_app, broadcasts_FromContentType. done.
  - rewrite !broadcasts_app, broadcasts_FromContentType. simpl.
    by rewrite app_nil_r.
Qed.

Lemma parse_failure_is_cached_as_failed_witness :
  let r := Content.mkRequest (Sample.anchor (Sample.site "/other" "#top"))
             (Sample.site "/other" "") [] in
  ∃ st',
    Content.onSuccess (Sample.env (Sample.site "/essay" "")) [Sample.unusable]
      r (Some "text/html") "essay" Content.initial = Content.Ok tt st'
    ∧ Content.cachedContent st' !! "https://gwern.net/other" = Some LOADING_FAILED
    ∧ Content.broadcasts "Content.contentLoadDidFail" (Content.trace st')
      = [Content.request_link r].
Proof.
  intros r.
  destruct (parse_failure_is_cached_as_failed
              (Sample.env (Sample.site "/essay" "")) [Sample.unusable]
              r (Some "text/html") "essay" Sample.unusable
              (Sample.site "/other" "") [] [] Content.initial)
    as (st' & Hrun & Hcache & _ & _ & Hfail & _);
    [reflexivity | reflexivity | reflexivity | reflexivity |].
  exists st'. split; [exact Hrun|]. split.
  - rewrite Hcache. apply lookup_insert_eq.
  - exact Hfail.
Defined.




End ContentFacts.

(* ================================================================== *)
(** * Further properties of the notification center                    *)
(* ================================================================== *)

Module NotificationCenterMore.
Import NotificationCenter NotificationCenterFacts.

Lemma same_ref_same_handler (arr : list Handler) x y :
  NoDup (ref <$> arr) → x ∈ arr → y ∈ arr → ref x = ref y → x = y.
Proof.
  induction arr as [|a arr IH]; intros Hnd Hx Hy Href; [by inversion Hx|].
  rewrite fmap_cons in Hnd. apply NoDup_cons in Hnd as [Ha Hnd].
  apply elem_of_cons in Hx as [->|Hx]; apply elem_of_cons in Hy as [->|Hy].
  - done.
  - exfalso. apply Ha. rewrite Href. by apply list_elem_of_fmap_2.
  - exfalso. apply Ha. rewrite <- Href. by apply list_elem_of_fmap_2.
  - by apply IH.
Qed.

Lemma forEach_from_beyond n : ∀ k arr calls,
  (length arr ≤ k)%nat → forEach_from n k arr calls = (arr, calls).
Proof.
  induction n as [|n IH]; intros k arr calls Hk; simpl; [done|].
  rewrite (lookup_ge_None_2 arr k Hk). apply IH. lia.
Qed.

Lemma Array_remove_absent arr h :
  ref h ∉ ref <$> arr → Array_remove arr h = arr.
Proof.
  induction arr as [|x arr IH]; intros Hh; simpl; [done|].
  rewrite fmap_cons in Hh. apply not_elem_of_cons in Hh as [Hx Hh].
  destruct (same h x) eqn:E; [by apply same_true in E|].
  f_equal. by apply IH.
Qed.

Lemma Array_remove_filter arr h :
  NoDup (ref <$> arr) →
  Array_remove arr h = List.filter (fun x => negb (same h x)) arr.
Proof.
  induction arr as [|x arr IH]; intros Hnd; simpl; [done|].
  rewrite fmap_cons in Hnd. apply NoDup_cons in Hnd as [Hx Hnd].
  destruct (same h x) eqn:E; simpl.
  - apply same_true in E. rewrite <- (IH Hnd). symmetry.
    apply Array_remove_absent. by rewrite E.
  - f_equal. by apply IH.
Qed.

(** X1.  Cancelling unregisters: in every state the notification center
    reaches, after [cancelHandlerForEvent] the handler is not in the
    event's list any more, and the other handlers are, in their order;
    and cancelling a handler right after registering it, when it was not
    registered before, gives back the list there was (the empty list, if
    the event had none). *)
Theorem cancelHandlerForEvent_unregisters
    (calls : list Call) (eventName : string) (handler : Handler) :
  let st := run calls in
  (∀ arr, table st !! eventName = Some arr →
     table (cancelHandlerForEvent eventName handler st) !! eventName
       = Some (List.filter (fun x => negb (same handler x)) arr)
     ∧ includes (List.filter (fun x => negb (same handler x)) arr) handler = false)
  ∧ (includes (default [] (table st !! eventName)) handler = false →
     table (cancelHandlerForEvent eventName handler
              (addHandlerForEvent eventName handler st)) !! eventName
       = Some (default [] (table st !! eventName))).
Proof.
  intros st.
  assert (Hd : distinct st) by (apply distinct_fold, distinct_initial).
  split.
  - intros arr He. unfold cancelHandlerForEvent. rewrite He. simpl.
    rewrite lookup_insert_eq, (Array_remove_filter arr handler (Hd _ _ He)).
    split; [done|].
    apply includes_false. intros Hin.
    apply list_elem_of_fmap in Hin as (x & Href & Hx).
    apply list_elem_of_In, filter_In in Hx as [_ Hx].
    apply negb_true_iff in Hx. unfold same in Hx. apply Nat.eqb_neq in Hx. done.
  - intros Hnew.
    assert (Hsnoc : ∀ arr, includes arr handler = false →
              Array_remove (arr ++ [handler]) handler = arr).
    { intros arr Hi. induction arr as [|x arr IH]; simpl.
      - unfold same. by rewrite Nat.eqb_refl.
      - simpl in Hi. apply orb_false_iff in Hi as [Hx Hi]. rewrite Hx.
        f_equal. by apply IH. }
    unfold addHandlerForEvent.
    destruct (table st !! eventName) as [arr|] eqn:He; simpl in *.
    + rewrite He, Hnew. unfold cancelHandlerForEvent. simpl.
      rewrite lookup_insert_eq. simpl. rewrite lookup_insert_eq.
      by rewrite Hsnoc.
    + rewrite lookup_insert_eq. simpl. unfold cancelHandlerForEvent. simpl.
      rewrite lookup_insert_eq. simpl. rewrite lookup_insert_eq.
      simpl. unfold same. by rewrite Nat.eqb_refl.
Qed.

Lemma cancelHandlerForEvent_unregisters_witness :
  let handler := mkHandler 1 false in
  table (cancelHandlerForEvent "GW.hashDidChange" handler
           (addHandlerForEvent "GW.hashDidChange" handler (run [])))
    !! "GW.hashDidChange" = Some [].
Proof.
  intros handler.
  exact (proj2 (cancelHandlerForEvent_unregisters [] "GW.hashDidChange" handler)
           eq_refl).
Defined.

Lemma forEach_from_no_once n : ∀ k arr calls,
  Forall (fun h => once h = false) arr →
  n = length arr - k →
  forEach_from n k arr calls = (arr, calls ++ (ref <$> drop k arr)).
Proof.
  induction n as [|n IH]; intros k arr calls Hall Hn; simpl.
  - rewrite drop_ge by lia. by rewrite app_nil_r.
  - destruct (arr !! k) as [h|] eqn:Hk.
    + assert (Hh : once h = false).
      { eapply (proj1 (Forall_forall _ _) Hall). by eapply list_elem_of_lookup_2. }
      rewrite Hh, (IH (S k) arr _ Hall) by lia.
      rewrite (drop_S arr h k Hk), fmap_cons. by rewrite <- app_assoc.
    + apply lookup_ge_None in Hk. lia.
Qed.

(** X2.  When no handler of the event is a [once] handler, [fireEvent]
    invokes every handler, each once, in the order of registration, and
    leaves the handler lists as they were. *)
Theorem fireEvent_without_once_handlers
    (st : State) (eventName : string) (arr : list Handler) :
  table st !! eventName = Some arr →
  Forall (fun h => once h = false) arr →
  invoked eventName st = ref <$> arr
  ∧ table (fireEvent eventName st) = table st
  ∧ called (fireEvent eventName st)
    = called st ++ ((fun h => (eventName, ref h)) <$> arr).
Proof.
  intros He Hall. unfold invoked, fireEvent. rewrite He.
  rewrite (forEach_from_no_once (length arr) 0 arr [] Hall) by lia.
  simpl. split; [done|]. split; [by apply insert_id|].
  f_equal. by rewrite <- list_fmap_compose.
Qed.

Lemma fireEvent_without_once_handlers_witness :
  let h1 := mkHandler 1 false in
  let h2 := mkHandler 2 false in
  let st := run [Add "e" h1; Add "e" h2] in
  table st !! "e" = Some [h1; h2]
  ∧ invoked "e" st = [1; 2]
  ∧ table (fireEvent "e" st) = table st.
Proof.
  intros h1 h2 st.
  assert (He : table st !! "e" = Some [h1; h2]) by (by vm_compute).
  destruct (fireEvent_without_once_handlers st "e" [h1; h2] He) as (H1 & H2 & _).
  { by repeat constructor. }
  split; [exact He|]. split; [exact H1 | exact H2].
Defined.

Lemma filter_filter_and {A} (f g : A → bool) (l : list A) :
  List.filter f (List.filter g l) = List.filter (fun x => f x && g x) l.
Proof.
  induction l as [|x l IH]; simpl; [done|].
  destruct (g x); simpl; rewrite ?andb_true_r, ?andb_false_r; [|done].
  destruct (f x); simpl; by rewrite IH.
Qed.

Lemma keep_after_invocation (arr : list Handler) h new :
  NoDup (ref <$> arr) → h ∈ arr →
  List.filter (fun x => negb (once x && bool_decide (ref x ∈ ref h :: new))) arr
  = List.filter (fun x => negb (once x && bool_decide (ref x ∈ new))
                          && negb (once h && same h x)) arr.
Proof.
  intros Hnd Hh. apply filter_ext_in. intros x Hx%list_elem_of_In.
  destruct (same h x) eqn:E.
  - apply same_true in E.
    assert (x = h) as -> by (by eapply same_ref_same_handler).
    rewrite (bool_decide_eq_true_2 (ref h ∈ ref h :: new)) by left.
    destruct (once h); simpl; [by rewrite andb_false_r | done].
  - assert (Hne : ref x ≠ ref h).
    { intros Href. unfold same in E. apply Nat.eqb_neq in E. congruence. }
    rewrite andb_false_r. simpl. rewrite andb_true_r.
    do 2 f_equal. apply bool_decide_ext. rewrite elem_of_cons.
    split; [intros [?|?]; [congruence | done] | by right].
Qed.

(** What one traversal does to an array without duplicates: it removes
    the [once] handlers it has invoked and nothing else. *)
Lemma forEach_from_removes n : ∀ k arr calls,
  NoDup (ref <$> arr) →
  ∃ new,
    snd (forEach_from n k arr calls) = calls ++ new
    ∧ fst (forEach_from n k arr calls)
      = List.filter (fun h => negb (once h && bool_decide (ref h ∈ new))) arr.
Proof.
  induction n as [|n IH]; intros k arr calls Hnd; simpl.
  { exists []. rewrite app_nil_r. split; [done|].
    symmetry. rewrite <- (filter_ext_in (fun _ => true)).
    - clear. induction arr as [|x arr IHarr]; simpl; [done|]. by f_equal.
    - intros x _. rewrite bool_decide_eq_false_2; [by rewrite andb_false_r|].
      intros H. inversion H. }
  destruct (arr !! k) as [h|] eqn:Hk; [|by apply IH].
  assert (Hh : h ∈ arr) by (by eapply list_elem_of_lookup_2).
  destruct (once h) eqn:Honce.
  - assert (Hnd' : NoDup (ref <$> Array_remove arr h)).
    { eapply distinct_sublist; [apply Array_remove_sublist | done]. }
    destruct (IH (S k) (Array_remove arr h) (calls ++ [ref h]) Hnd')
      as (new & Hcalls & Harr).
    exists (ref h :: new). split.
    { rewrite Hcalls. by rewrite <- app_assoc. }
    rewrite Harr, (Array_remove_filter arr h Hnd), filter_filter_and.
    rewrite (keep_after_invocation arr h new Hnd Hh), Honce. done.
  - destruct (IH (S k) arr (calls ++ [ref h]) Hnd) as (new & Hcalls & Harr).
    exists (ref h :: new). split.
    { rewrite Hcalls. by rewrite <- app_assoc. }
    rewrite Harr, (keep_after_invocation arr h new Hnd Hh), Honce.
    apply filter_ext_in. intros x _. simpl. by rewrite andb_true_r.
Qed.

(** X3.  In every state the notification center reaches, [fireEvent]
    leaves in the event's list exactly the handlers that are not [once]
    handlers it has just invoked, in their order; so no handler that is
    not a [once] handler is ever dropped by firing, and a [once] handler
    that has been invoked is not invoked by the next [fireEvent] of the
    event. *)
Theorem fireEvent_removes_invoked_once_handlers
    (calls : list Call) (eventName : string) (arr : list Handler) :
  let st := run calls in
  table st !! eventName = Some arr →
  table (fireEvent eventName st) !! eventName
    = Some (List.filter
              (fun h => negb (once h && bool_decide (ref h ∈ invoked eventName st)))
              arr)
  ∧ (∀ h, h ∈ arr → once h = true → ref h ∈ invoked eventName st →
       ref h ∉ invoked eventName (fireEvent eventName st)).
Proof.
  intros st He.
  assert (Hd : distinct st) by (apply distinct_fold, distinct_initial).
  assert (Hnd : NoDup (ref <$> arr)) by (by eapply Hd).
  destruct (forEach_from_removes (length arr) 0 arr [] Hnd) as (new & Hnew & Harr).
  simpl in Hnew.
  assert (Htable : table (fireEvent eventName st) !! eventName
            = Some (List.filter
                      (fun h => negb (once h && bool_decide (ref h ∈ invoked eventName st)))
                      arr)).
  { unfold fireEvent, invoked. rewrite He. simpl.
    rewrite lookup_insert_eq, Harr. by rewrite Hnew. }
  split; [done|].
  intros h Hh Honce Hinvoked Hagain.
  unfold invoked at 1 in Hagain. rewrite Htable in Hagain.
  set (arr' := List.filter _ arr) in Hagain.
  assert (Hsub : ∀ n k (l : list Handler) cs r,
            r ∈ snd (forEach_from n k l cs) → r ∈ cs ∨ r ∈ ref <$> l).
  { clear. induction n as [|n IH]; intros k l cs r Hr; simpl in Hr; [by left|].
    destruct (l !! k) as [x|] eqn:Hk; [|by apply IH in Hr].
    apply IH in Hr as [Hr|Hr].
    - apply elem_of_app in Hr as [Hr|Hr]; [by left|].
      apply list_elem_of_singleton in Hr as ->. right.
      apply list_elem_of_fmap_2. by eapply list_elem_of_lookup_2.
    - right. destruct (once x); [|done].
      eapply elem_of_sublist; [done|]. apply fmap_sublist, Array_remove_sublist. }
  apply Hsub in Hagain as [Hagain|Hagain]; [by inversion Hagain|].
  apply list_elem_of_fmap in Hagain as (x & Href & Hx).
  apply list_elem_of_In, filter_In in Hx as [Hx%list_elem_of_In Hkeep].
  assert (x = h) as -> by (by eapply same_ref_same_handler).
  rewrite Honce, bool_decide_eq_true_2 in Hkeep by done. done.
Qed.

Lemma fireEvent_removes_invoked_once_handlers_witness :
  let h1 := mkHandler 1 true in
  let h2 := mkHandler 2 false in
  let h3 := mkHandler 3 true in
  let st := run [Add "e" h1; Add "e" h2; Add "e" h3] in
  table st !! "e" = Some [h1; h2; h3]
  ∧ table (fireEvent "e" st) !! "e"
    = Some (List.filter
              (fun h => negb (once h && bool_decide (ref h ∈ invoked "e" st)))
              [h1; h2; h3]).
Proof.
  intros h1 h2 h3 st.
  assert (He : table st !! "e" = Some [h1; h2; h3]) by (by vm_compute).
  split; [exact He|].
  exact (proj1 (fireEvent_removes_invoked_once_handlers
                  [Add "e" h1; Add "e" h2; Add "e" h3] "e" [h1; h2; h3] He)).
Defined.

Lemma forEach_from_all_once n : ∀ (kept rest : list Handler) calls,
  NoDup (ref <$> kept ++ rest) →
  Forall (fun h => once h = true) rest →
  (length rest ≤ n)%nat →
  forEach_from n (length kept) (kept ++ rest) calls
  = (kept ++ odds rest, calls ++ (ref <$> evens rest)).
Proof.
  induction n as [|n IH]; intros kept rest calls Hnd Hall Hn.
  { destruct rest; [|simpl in Hn; lia]. simpl. by rewrite !app_nil_r. }
  destruct rest as [|h rest].
  { simpl evens. simpl odds. rewrite !app_nil_r.
    apply forEach_from_beyond. lia. }
  simpl forEach_from.
  assert (Hk : (kept ++ h :: rest) !! length kept = Some h).
  { by rewrite lookup_app_r, Nat.sub_diag by lia. }
  rewrite Hk.
  apply Forall_cons in Hall as [Honce Hall]. rewrite Honce.
  rewrite (Array_remove_at _ _ _ Hnd Hk).
  assert (Hdel : delete (length kept) (kept ++ h :: rest) = kept ++ rest).
  { rewrite delete_take_drop, take_app_length.
    rewrite (cons_middle h kept rest), app_assoc.
    replace (S (length kept)) with (length (kept ++ [h]))
      by (rewrite length_app; simpl; lia).
    by rewrite drop_app_length. }
  rewrite Hdel.
  assert (Hnd' : NoDup (ref <$> kept ++ rest)).
  { eapply distinct_sublist; [|exact Hnd]. rewrite <- Hdel. apply sublist_delete. }
  destruct rest as [|h2 rest].
  - simpl. rewrite app_nil_r. apply forEach_from_beyond. lia.
  - apply Forall_cons in Hall as [_ Hall].
    replace (S (length kept)) with (length (kept ++ [h2]))
      by (rewrite length_app; simpl; lia).
    rewrite (cons_middle h2 kept rest), app_assoc.
    rewrite (IH (kept ++ [h2]) rest).
    + simpl. rewrite <- !app_assoc. done.
    + by rewrite <- app_assoc.
    + done.
    + simpl in Hn. lia.
Qed.

(** X4.  In every state the notification center reaches, when all the
    handlers of an event are [once] handlers, one [fireEvent] invokes
    those at the even positions of the list (the first, the third, ...)
    and removes them; those at the odd positions are passed over, because
    the list is spliced under the traversal, and stay registered. *)
Theorem fireEvent_with_once_handlers_only
    (calls : list Call) (eventName : string) (arr : list Handler) :
  let st := run calls in
  table st !! eventName = Some arr →
  Forall (fun h => once h = true) arr →
  invoked eventName st = ref <$> evens arr
  ∧ table (fireEvent eventName st) !! eventName = Some (odds arr).
Proof.
  intros st He Hall.
  assert (Hd : distinct st) by (apply distinct_fold, distinct_initial).
  pose proof (forEach_from_all_once (length arr) [] arr [] (Hd _ _ He) Hall
                (le_n _)) as Hrun.
  simpl in Hrun.
  unfold invoked, fireEvent. rewrite He. simpl.
  rewrite Hrun. simpl. by rewrite lookup_insert_eq.
Qed.

Lemma fireEvent_with_once_handlers_only_witness :
  let h1 := mkHandler 1 true in
  let h2 := mkHandler 2 true in
  let h3 := mkHandler 3 true in
  let st := run [Add "e" h1; Add "e" h2; Add "e" h3] in
  table st !! "e" = Some [h1; h2; h3]
  ∧ invoked "e" st = [1; 3]
  ∧ table (fireEvent "e" st) !! "e" = Some [h2].
Proof.
  intros h1 h2 h3 st.
  assert (He : table st !! "e" = Some [h1; h2; h3]) by (by vm_compute).
  destruct (fireEvent_with_once_handlers_only
              [Add "e" h1; Add "e" h2; Add "e" h3] "e" [h1; h2; h3] He)
    as [H1 H2].
  { by repeat constructor. }
  split; [exact He|]. split; [exact H1 | exact H2].
Defined.

End NotificationCenterMore.

(* ================================================================== *)
(** * Properties of the debugging output                                *)
(* ================================================================== *)

Module LoggingFacts.
Import Logging.

Lemma session_snoc cs c st : session (cs ++ [c]) st = switch (session cs st) c.
Proof. unfold session. by rewrite fold_left_app. Qed.

Lemma console_session cs st : console (session cs st) = console st.
Proof.
  induction cs as [|c cs IH] using rev_ind; [done|].
  rewrite session_snoc. by destruct c.
Qed.

Lemma snoc_decompose {A} (pre post cs : list A) (x c : A) :
  pre ++ x :: post = cs ++ [c] →
  (post = [] ∧ pre = cs ∧ x = c)
  ∨ ∃ post', post = post' ++ [c] ∧ cs = pre ++ x :: post'.
Proof.
  intros H. destruct post as [|y post _] using rev_ind.
  - left. apply app_inj_tail in H as [-> ->]. done.
  - right. exists post.
    replace (pre ++ x :: post ++ [y]) with ((pre ++ x :: post) ++ [y]) in H
      by (by rewrite <- app_assoc).
    apply app_inj_tail in H as [<- ->]. done.
Qed.

Lemma flag_session cs st :
  loggingEnabled (session cs st) = true
  ↔ (∃ pre p, cs = pre ++ [Enable p]) ∨ (cs = [] ∧ loggingEnabled st = true).
Proof.
  destruct cs as [|c cs _] using rev_ind.
  - simpl. split; [by right|]. intros [(pre & p & H)|[_ H]]; [|done].
    by destruct pre.
  - rewrite session_snoc. destruct c as [p|p]; simpl.
    + split; [|done]. intros _. left. by exists cs, p.
    + split; [done|]. intros [(pre & q & H)|[H _]].
      * apply app_inj_tail in H as [_ H]. done.
      * by destruct cs.
Qed.

Lemma stored_session cs st :
  localStorage (session cs st) !! "logging-enabled" = Some "true"
  ↔ (∃ pre post, cs = pre ++ Enable true :: post ∧ (Disable true ∉ post))
    ∨ ((Disable true ∉ cs) ∧ localStorage st !! "logging-enabled" = Some "true").
Proof.
  induction cs as [|c cs IH] using rev_ind.
  - simpl. split.
    + intros H. right. split; [|done]. intros Hin. inversion Hin.
    + intros [(pre & post & H & _)|[_ H]]; [by destruct pre | done].
  - rewrite session_snoc.
    assert (Hkeep : c ≠ Disable true →
              ((∃ pre post, cs ++ [c] = pre ++ Enable true :: post ∧ (Disable true ∉ post))
               ∨ ((Disable true ∉ cs ++ [c])
                  ∧ localStorage st !! "logging-enabled" = Some "true"))
              ↔ (c = Enable true
                 ∨ (∃ pre post, cs = pre ++ Enable true :: post ∧ (Disable true ∉ post))
                 ∨ ((Disable true ∉ cs)
                    ∧ localStorage st !! "logging-enabled" = Some "true"))).
    { intros Hc. split.
      - intros [(pre & post & H & Hpost)|[Hcs Hst]].
        + symmetry in H. apply snoc_decompose in H
            as [(-> & -> & <-)|(post' & -> & ->)]; [by left|].
          right. left. exists pre, post'. split; [done|].
          intros Hin. apply Hpost. apply elem_of_app. by left.
        + right. right. split; [|done]. intros Hin. apply Hcs.
          apply elem_of_app. by left.
      - intros [->|[(pre & post & -> & Hpost)|[Hcs Hst]]].
        + left. exists cs, []. split; [done|]. intros Hin. inversion Hin.
        + left. exists pre, (post ++ [c]). split; [by rewrite <- app_assoc|].
          intros [Hin|Hin%list_elem_of_singleton]%elem_of_app; [done | congruence].
        + right. split; [|done].
          intros [Hin|Hin%list_elem_of_singleton]%elem_of_app; [done | congruence]. }
    destruct c as [[]|[]]; simpl.
    + rewrite lookup_insert_eq. rewrite Hkeep by done. split; [by left | done].
    + rewrite IH, Hkeep by done. split; [by right|]. by intros [?|?].
    + rewrite lookup_delete_eq. split; [done|].
      intros [(pre & post & H & Hpost)|[Hcs _]].
      * symmetry in H. apply snoc_decompose in H
          as [(_ & _ & ?)|(post' & -> & _)]; [done|].
        exfalso. apply Hpost. apply elem_of_app. right. left.
      * exfalso. apply Hcs. apply elem_of_app. right. left.
    + rewrite IH, Hkeep by done. split; [by right|]. by intros [?|?].
Qed.

(** X5.  After any session of [GW.enableLogging] and [GW.disableLogging]
    calls, [GWLog] writes its string to the console exactly when the last
    call was [enableLogging], or the stored flag is set: an
    [enableLogging(true)] was not followed by a [disableLogging(true)], or
    the flag was stored before and no [disableLogging(true)] was called.
    So [disableLogging()] does not silence logging that was enabled
    permanently.  The calls themselves write nothing. *)
Theorem GWLog_after_switching (cs : list Switch) (s : string) (st : State) :
  let st' := fold_left switch cs st in
  console st' = console st
  ∧ (console (GWLog s st') = console st' ++ [s]
     ↔ ((∃ pre p, cs = pre ++ [Enable p]) ∨ (cs = [] ∧ loggingEnabled st = true))
       ∨ (∃ pre post, cs = pre ++ Enable true :: post ∧ (Disable true ∉ post))
       ∨ ((Disable true ∉ cs) ∧ localStorage st !! "logging-enabled" = Some "true"))
  ∧ (console (GWLog s st') = console st' ∨ console (GWLog s st') = console st' ++ [s]).
Proof.
  intros st'. split; [apply console_session|].
  assert (Hlogs : console (GWLog s st') = console st' ++ [s]
                  ↔ loggingEnabled st' = true
                    ∨ localStorage st' !! "logging-enabled" = Some "true").
  { unfold GWLog.
    destruct (loggingEnabled st') eqn:Hflag; simpl; [by split; [left|]|].
    destruct (bool_decide _) eqn:Hstored; simpl.
    - apply bool_decide_eq_true in Hstored. by split; [right|].
    - apply bool_decide_eq_false in Hstored. split.
      + intros H. apply (f_equal length) in H. rewrite length_app in H.
        simpl in H. lia.
      + by intros [?|?]. }
  split.
  - rewrite Hlogs. unfold st'. fold (session cs st).
    rewrite flag_session, stored_session. tauto.
  - unfold GWLog. destruct (_ || _); [by right | by left].
Qed.

End LoggingFacts.

(* ================================================================== *)
(** * Further properties of the Content object                          *)
(* ================================================================== *)

Module ContentMore.
Import ContentFacts.

Section Invariants.
Context (env : Env) (reg : list ContentType).

Lemma preserves_ret {A} (a : A) : Content.Preserves env reg (Content.ret a).
Proof. intros st. apply Content.steps_refl. Qed.

Lemma preserves_throw {A} e : Content.Preserves env reg (@Content.throw A e).
Proof. intros st. apply Content.steps_refl. Qed.

Lemma preserves_read key : Content.Preserves env reg (Content.read key).
Proof. intros st. apply Content.steps_refl. Qed.

Lemma preserves_emit effects :
  Forall (Content.quiet env) effects → Content.Preserves env reg (Content.emit effects).
Proof. intros H st. by apply Content.steps_quiet. Qed.

Lemma preserves_bind {A B} (m : Content.M A) (k : A → Content.M B) :
  Content.Preserves env reg m → (∀ a, Content.Preserves env reg (k a)) →
  Content.Preserves env reg (Content.bind m k).
Proof.
  intros Hm Hk st. unfold Content.bind. specialize (Hm st).
  destruct (m st) as [a st'|e st']; simpl in *; [|done].
  eapply Content.steps_trans; [exact Hm | apply Hk].
Qed.

Lemma preserves_when b m :
  Content.Preserves env reg m → Content.Preserves env reg (Content.when b m).
Proof. destruct b; [done | intros _; apply preserves_ret]. Qed.

Lemma preserves_call handler link : Content.Preserves env reg (Content.call handler link).
Proof.
  destruct handler; simpl; [|apply preserves_ret].
  apply preserves_emit. by repeat constructor.
Qed.

Lemma keyOf_Ok link st key st' :
  Content.contentCacheKeyForLink reg link st = Content.Ok key st' →
  Content.keyOf reg link = Some key ∧ st' = st.
Proof.
  intros H. apply contentCacheKeyForLink_pure in H as [-> H].
  unfold Content.keyOf. by rewrite H.
Qed.

Lemma contentCacheKeyForLink_Throw link st e st' :
  Content.contentCacheKeyForLink reg link st = Content.Throw e st' → st' = st.
Proof.
  unfold Content.contentCacheKeyForLink, Content.sourceURLsForLink, Content.bind.
  destruct (Content.contentTypeForLink reg link) as [ct|]; simpl.
  - destruct (sourceURLsForLink ct link); simpl; [|done]. by intros [= _ <-].
  - by intros [= _ <-].
Qed.

Lemma preserves_sourceURLsForLink link :
  Content.Preserves env reg (Content.sourceURLsForLink reg link).
Proof.
  intros st. unfold Content.sourceURLsForLink.
  destruct (Content.contentTypeForLink reg link); apply Content.steps_refl.
Qed.

Lemma preserves_contentCacheKeyForLink link :
  Content.Preserves env reg (Content.contentCacheKeyForLink reg link).
Proof.
  intros st.
  destruct (Content.contentCacheKeyForLink reg link st) as [key st'|e st'] eqn:H; simpl.
  - apply keyOf_Ok in H as [_ ->]. apply Content.steps_refl.
  - apply contentCacheKeyForLink_Throw in H as ->. apply Content.steps_refl.
Qed.

(** Storing a value for a link and then firing the event that goes with
    the value, as [processResponse] and [onFailure] do. *)
Lemma preserves_store_and_fire v link (rest : Content.M unit) :
  Content.Preserves env reg rest →
  Content.Preserves env reg
    (Content.bind (Content.cacheContentForLink reg v link)
       (fun _ => Content.bind
                   (Content.emit [Content.FireEvent (Content.eventFor v) link])
                   (fun _ => rest))).
Proof.
  intros Hrest st. unfold Content.cacheContentForLink, Content.bind at 1 2.
  destruct (Content.contentCacheKeyForLink reg link st) as [key st'|e st'] eqn:H.
  - apply keyOf_Ok in H as [Hkey ->]. unfold Content.store.
    unfold Content.bind, Content.emit.
    eapply Content.steps_trans; [by apply (Content.steps_store env reg st link key v)|].
    apply Hrest.
  - apply contentCacheKeyForLink_Throw in H as ->. apply Content.steps_refl.
Qed.

Lemma bind_ret_r (m : Content.M unit) st :
  Content.bind m (fun _ => Content.ret tt) st = m st.
Proof. unfold Content.bind. by destruct (m st) as [[] ?|]. Qed.

Lemma preserves_contentFromResponse response link url :
  Content.Preserves env reg (Content.contentFromResponse reg response link url).
Proof.
  unfold Content.contentFromResponse.
  destruct (Content.contentTypeForLink reg link) as [ct|]; [|apply preserves_throw].
  apply preserves_bind.
  - apply preserves_emit. apply Forall_forall. intros e He.
    apply list_elem_of_In, in_map_iff in He as (x & <- & _). done.
  - intros _. destruct (fst _); [apply preserves_ret | apply preserves_throw].
Qed.

Lemma preserves_processResponse link url response :
  Content.Preserves env reg (Content.processResponse reg link url response).
Proof.
  unfold Content.processResponse. apply preserves_bind.
  - apply preserves_contentFromResponse.
  - intros [content|].
    + intros st.
      pose proof (preserves_store_and_fire (Loaded content) link (Content.ret tt)
                    (preserves_ret tt) st) as H.
      unfold Content.bind at 2 in H. simpl in H. exact H.
    + apply (preserves_store_and_fire LOADING_FAILED link).
      apply preserves_emit. by repeat constructor.
Qed.

Lemma preserves_load_request link remaining :
  Content.Preserves env reg (Content.load_request env reg link remaining).
Proof.
  unfold Content.load_request. apply preserves_bind.
  - destruct remaining; [apply preserves_ret | apply preserves_sourceURLsForLink].
  - intros [|url rest]; [apply preserves_throw|].
    destruct (String.eqb _ _) eqn:E; [apply preserves_processResponse|].
    apply preserves_emit. constructor; [|constructor].
    simpl. by apply String.eqb_neq.
Qed.

Lemma preserves_cachedContentForLink link :
  Content.Preserves env reg (Content.cachedContentForLink env reg link).
Proof.
  unfold Content.cachedContentForLink. apply preserves_bind.
  - apply preserves_when, preserves_load_request.
  - intros _. apply preserves_bind; [apply preserves_contentCacheKeyForLink|].
    intros key. apply preserves_read.
Qed.

Lemma preserves_waitForDataLoad link loadHandler loadFailHandler :
  Content.Preserves env reg
    (Content.waitForDataLoad env reg link loadHandler loadFailHandler).
Proof.
  unfold Content.waitForDataLoad. apply preserves_bind.
  - apply preserves_cachedContentForLink.
  - assert (Hsecond : Content.Preserves env reg
              (Content.bind (Content.cachedContentForLink env reg link)
                 (fun c => match c with
                           | Some _ => Content.call loadHandler link
                           | None => Content.emit
                                       [Content.AwaitLoad link loadHandler loadFailHandler]
                           end))).
    { apply preserves_bind; [apply preserves_cachedContentForLink|].
      intros [c|]; [apply preserves_call|].
      apply preserves_emit. by repeat constructor. }
    intros [[c|]|]; [exact Hsecond | apply preserves_call | exact Hsecond].
Qed.

Lemma preserves_load link loadHandler loadFailHandler remaining :
  Content.Preserves env reg
    (Content.load env reg link loadHandler loadFailHandler remaining).
Proof.
  unfold Content.load. apply preserves_bind; [apply preserves_load_request|].
  intros _. apply preserves_when, preserves_waitForDataLoad.
Qed.

Lemma preserves_onSuccess r header text :
  Content.Preserves env reg (Content.onSuccess env reg r header text).
Proof.
  unfold Content.onSuccess.
  destruct (Content.contentTypeForLink reg _) as [ct|]; [|apply preserves_throw].
  destruct (Content.badContentType ct header) as [[]|]; [| |apply preserves_throw].
  - destruct (includeLink env); [|apply preserves_throw].
    apply preserves_emit. by repeat constructor.
  - apply preserves_processResponse.
Qed.

Lemma preserves_onFailure r :
  Content.Preserves env reg (Content.onFailure env reg r).
Proof.
  unfold Content.onFailure. destruct (Content.sourceURLsRemaining r);
    [|apply preserves_load].
  apply (preserves_store_and_fire LOADING_FAILED (Content.request_link r)).
  apply preserves_emit. by repeat constructor.
Qed.

Lemma steps_perform a st : Content.Steps env reg st (Content.perform env reg a st).
Proof.
  destruct a; simpl.
  - apply preserves_load.
  - apply preserves_cachedContentForLink.
  - apply preserves_waitForDataLoad.
  - apply preserves_onSuccess.
  - apply preserves_onFailure.
Qed.

Lemma steps_after actions st :
  Content.Steps env reg st
    (fold_left (fun st a => Content.perform env reg a st) actions st).
Proof.
  revert st. induction actions as [|a actions IH]; intros st; simpl.
  - apply Content.steps_refl.
  - eapply Content.steps_trans; [apply steps_perform | apply IH].
Qed.

Lemma lastEvent_app key t1 t2 :
  Content.lastEvent reg key (t1 ++ t2)
  = fold_left
      (fun last e =>
         match e with
         | Content.FireEvent name link =>
             if bool_decide (Content.keyOf reg link = Some key)
             then Some (String.eqb name "Content.contentDidLoad")
             else last
         | _ => last
         end) t2 (Content.lastEvent reg key t1).
Proof. unfold Content.lastEvent. by rewrite fold_left_app. Qed.

Lemma lastEvent_quiet key t effects :
  Forall (Content.quiet env) effects →
  Content.lastEvent reg key (t ++ effects) = Content.lastEvent reg key t.
Proof.
  intros H. rewrite lastEvent_app. generalize (Content.lastEvent reg key t).
  induction H as [|e effects He _ IH]; intros last; simpl; [done|].
  rewrite <- (IH last). by destruct e.
Qed.

Lemma steps_reflects st st' :
  Content.Steps env reg st st' → Content.Reflects reg st → Content.Reflects reg st'.
Proof.
  induction 1 as [st|st effects Hq|st link key v Hkey|st1 st2 st3 _ IH1 _ IH2];
    intros Hst; [done | | | by auto].
  - intros key. simpl. rewrite lastEvent_quiet by done. apply Hst.
  - intros key'. simpl. rewrite lastEvent_app. simpl.
    destruct (decide (key = key')) as [<-|Hne].
    + rewrite bool_decide_eq_true_2 by done. rewrite lookup_insert_eq.
      by destruct v.
    + rewrite bool_decide_eq_false_2 by congruence.
      rewrite lookup_insert_ne by done. apply Hst.
Qed.

Lemma steps_grows st st' :
  Content.Steps env reg st st' →
  dom (Content.cachedContent st) ⊆ dom (Content.cachedContent st')
  ∧ ∃ new,
      Content.trace st' = Content.trace st ++ new
      ∧ ∀ r, Content.Ajax r ∈ new →
             pathname (Content.sourceURL r) ≠ pathname (location env).
Proof.
  induction 1 as [st|st effects Hq|st link key v Hkey|st1 st2 st3 _ IH1 _ IH2].
  - split; [done|]. exists []. rewrite app_nil_r. split; [done|].
    intros r Hr. inversion Hr.
  - split; [done|]. exists effects. split; [done|].
    intros r Hr. by apply (proj1 (Forall_forall _ _) Hq) in Hr.
  - split; [simpl; rewrite dom_insert_L; set_solver|].
    eexists. split; [done|]. intros r Hr.
    apply list_elem_of_singleton in Hr. done.
  - destruct IH1 as [Hd1 (new1 & Ht1 & Hr1)], IH2 as [Hd2 (new2 & Ht2 & Hr2)].
    split; [set_solver|]. exists (new1 ++ new2). split.
    + by rewrite Ht2, Ht1, app_assoc.
    + intros r [Hr|Hr]%elem_of_app; auto.
Qed.

Lemma reflects_initial : Content.Reflects reg Content.initial.
Proof. intros key. simpl. by rewrite lookup_empty. Qed.

End Invariants.

(** X6.  Whatever the client and the network do, in whatever order, the
    cache reflects the events fired: under every key the entry is a
    content object exactly when the last event fired for a link with that
    key is ["Content.contentDidLoad"], it is ["LOADING_FAILED"] exactly
    when the last one is ["Content.contentLoadDidFail"], and there is no
    entry exactly when no event has been fired for such a link. *)
Theorem cache_reflects_last_event
    (env : Env) (reg : list ContentType) (actions : list Content.Action)
    (key : string) :
  let st := Content.after env reg actions in
  Content.lastEvent reg key (Content.trace st)
  = (fun v => match v with Loaded _ => true | LOADING_FAILED => false end)
      <$> Content.cachedContent st !! key.
Proof.
  intros st.
  apply (steps_reflects env reg Content.initial st);
    [apply steps_after | apply reflects_initial].
Qed.

(** X7.  No call evicts: after any call, made in any state, every key
    that had a cache entry still has one, and the effects so far are
    still there, in their order, followed by the new ones. *)
Theorem no_eviction
    (env : Env) (reg : list ContentType) (a : Content.Action) (st : Content.State) :
  dom (Content.cachedContent st)
    ⊆ dom (Content.cachedContent (Content.perform env reg a st))
  ∧ Content.trace st `prefix_of` Content.trace (Content.perform env reg a st).
Proof.
  destruct (steps_grows env reg st _ (steps_perform env reg a st))
    as [Hdom (new & Hnew & _)].
  split; [done|]. by exists new.
Qed.

(** X8.  [Content.load] never fetches the page the user is on: whatever
    the client and the network do, no request made with [doAjax] by
    [load] has a source URL with the pathname of the current location. *)
Theorem current_page_is_never_requested
    (env : Env) (reg : list ContentType) (actions : list Content.Action) :
  Forall (fun r => pathname (Content.sourceURL r) ≠ pathname (location env))
         (Content.requests (Content.trace (Content.after env reg actions))).
Proof.
  destruct (steps_grows env reg Content.initial _
              (steps_after env reg actions Content.initial))
    as [_ (new & Hnew & Hremote)].
  unfold Content.after. rewrite Hnew. simpl.
  apply Forall_forall. intros r Hr. apply Hremote.
  clear -Hr. induction new as [|e new IH]; simpl in Hr; [by inversion Hr|].
  destruct e; simpl in Hr; try (right; by apply IH).
  apply elem_of_cons in Hr as [->|Hr]; [left | right; by apply IH].
Qed.

(** X9.  The hover (or click) listener of a target that points to
    another page: when the target's content is loaded, the listener does
    nothing at all; when there is no entry, and also when the entry is
    ["LOADING_FAILED"], it makes one request for the first source URL and
    nothing else, so a resource that has failed is fetched again at every
    hover. *)
Theorem contentLoad_listener
    (env : Env) (target : Link) (ct : ContentType) (first : URL) (rest : list URL)
    (st : Content.State) :
  Content.contentTypeForLink (Content.contentTypes env) target = Some ct →
  sourceURLsForLink ct target = first :: rest →
  pathname (link_url target) ≠ pathname (location env) →
  pathname first ≠ pathname (location env) →
  Extracts.contentLoad env target st
  = Content.Ok tt
      (if is_loaded (Content.cachedContent st !! href first) then st
       else {| Content.cachedContent := Content.cachedContent st;
               Content.trace :=
                 Content.trace st
                 ++ [Content.Ajax (Content.mkRequest target first rest)] |}).
Proof.
  intros Hct Hurls Htarget Hfirst.
  unfold Extracts.contentLoad, Content.bind, Content.cachedDataExists.
  unfold Content.bind.
  rewrite (cachedContentForLink_elsewhere env _ target ct first rest st Hct Hurls Htarget).
  destruct (Content.cachedContent st !! href first) as [[c|]|]; simpl; [done| |].
  - rewrite load_without_handlers, (load_request_first env _ target ct first rest st Hct Hurls).
    by apply load_request_remote.
  - rewrite load_without_handlers, (load_request_first env _ target ct first rest st Hct Hurls).
    by apply load_request_remote.
Qed.

Lemma contentLoad_listener_witness :
  let env := Sample.env (Sample.site "/essay" "") in
  let target := Sample.anchor (Sample.site "/other" "#section-3") in
  let failed := {| Content.cachedContent := {[ "https://gwern.net/other" := LOADING_FAILED ]};
                   Content.trace := [] |} in
  Extracts.contentLoad env target failed
  = Content.Ok tt
      {| Content.cachedContent := Content.cachedContent failed;
         Content.trace :=
           [Content.Ajax (Content.mkRequest target (Sample.site "/other" "") [])] |}.
Proof.
  intros env target failed.
  rewrite (contentLoad_listener env target (localPage.contentType env)
             (Sample.site "/other" "") [] failed);
    [| reflexivity | reflexivity | discriminate | discriminate].
  replace (Content.cachedContent failed !! href (Sample.site "/other" ""))
    with (Some LOADING_FAILED) by (symmetry; apply lookup_singleton_eq).
  reflexivity.
Defined.

(** X10.  [Content.load] with handlers, for a link to another page whose
    key has no cache entry: it makes the one request, calls neither
    handler, and registers the handlers to wait for the two events;
    nothing is stored and no event is fired by the call. *)
Theorem load_with_handlers_waits
    (env : Env) (reg : list ContentType) (link : Link) (ct : ContentType)
    (first : URL) (rest : list URL)
    (loadHandler loadFailHandler : option nat) (st : Content.State) :
  Content.contentTypeForLink reg link = Some ct →
  sourceURLsForLink ct link = first :: rest →
  pathname (link_url link) ≠ pathname (location env) →
  pathname first ≠ pathname (location env) →
  Content.cachedContent st !! href first = None →
  is_Some loadHandler ∨ is_Some loadFailHandler →
  Content.load env reg link loadHandler loadFailHandler None st
  = Content.Ok tt
      {| Content.cachedContent := Content.cachedContent st;
         Content.trace :=
           Content.trace st
           ++ [Content.Ajax (Content.mkRequest link first rest);
               Content.AwaitLoad link loadHandler loadFailHandler] |}.
Proof.
  intros Hct Hurls Hlink Hfirst Hnone Hhandlers.
  unfold Content.load, Content.bind.
  rewrite (load_request_first env reg link ct first rest st Hct Hurls).
  rewrite (load_request_remote env reg link first rest st Hfirst).
  replace (bool_decide (is_Some loadHandler) || bool_decide (is_Some loadFailHandler))
    with true.
  2:{ symmetry. apply orb_true_iff.
      destruct Hhandlers; [left | right]; by apply bool_decide_eq_true. }
  simpl. unfold Content.waitForDataLoad, Content.bind.
  rewrite (cachedContentForLink_elsewhere env reg link ct first rest _ Hct Hurls Hlink).
  simpl. rewrite Hnone.
  rewrite (cachedContentForLink_elsewhere env reg link ct first rest _ Hct Hurls Hlink).
  simpl. rewrite Hnone. content_steps. by rewrite <- app_assoc.
Qed.

Lemma load_with_handlers_waits_witness :
  let env := Sample.env (Sample.site "/essay" "") in
  let link := Sample.anchor (Sample.site "/other" "#section-3") in
  Content.load env (Content.contentTypes env) link (Some 1) None None Content.initial
  = Content.Ok tt
      {| Content.cachedContent := ∅;
         Content.trace :=
           [Content.Ajax (Content.mkRequest link (Sample.site "/other" "") []);
            Content.AwaitLoad link (Some 1) None] |}.
Proof.
  intros env link.
  exact (load_with_handlers_waits env (Content.contentTypes env) link
           (localPage.contentType env) (Sample.site "/other" "") []
           (Some 1) None Content.initial eq_refl eq_refl
           ltac:(discriminate) ltac:(discriminate) (lookup_empty _)
           (or_introl (mk_is_Some _ _ eq_refl))).
Defined.

(** X11.  An empty response body counts as no response: when the request
    for a local page (another page than the current one) succeeds with an
    empty text, the local page type reads the live document of the
    current page instead, and what is stored under the key of the other
    page is a content object whose document is the live document. *)
Theorem empty_response_caches_live_document
    (env : Env) (link : Link) (header : option string)
    (result : option ContentObject) (effects : list SideEffect)
    (st : Content.State) :
  let reg := Content.contentTypes env in
  let url := set_search "" (set_hash "" (link_url link)) in
  Content.contentTypeForLink reg link = Some (localPage.contentType env) →
  Content.badContentType (localPage.contentType env) header = Some false →
  localPage.contentFromResponse env None link url = (Return result, effects) →
  ∃ content st',
    result = Some content
    ∧ content_document content = LiveDocument
    ∧ Content.onSuccess env reg (Content.mkRequest link url []) header "" st
      = Content.Ok tt st'
    ∧ Content.cachedContent st'
      = <[href url := Loaded content]> (Content.cachedContent st).
Proof.
  intros reg url Hct Hheader Hparse.
  destruct (localPage_contentFromResponse_live env link url result effects Hparse)
    as [(content & -> & Hlive) _].
  exists content. eexists. split; [done|]. split; [done|]. split.
  - rewrite (onSuccess_accepted env reg (Content.mkRequest link url []) header ""
               _ st Hct Hheader). simpl.
    apply (processResponse_returned reg link url (Some "") _ url [] (Some content)
             effects st Hct eq_refl Hparse).
  - done.
Qed.

Lemma empty_response_caches_live_document_witness :
  let env := Sample.env (Sample.site "/essay" "") in
  let link := Sample.anchor (Sample.site "/other" "#section-3") in
  ∃ content st',
    content_document content = LiveDocument
    ∧ Content.onSuccess env (Content.contentTypes env)
        (Content.mkRequest link (Sample.site "/other" "") []) (Some "text/html") ""
        Content.initial = Content.Ok tt st'
    ∧ Content.cachedContent st' = <[ "https://gwern.net/other" := Loaded content ]> ∅.
Proof.
  intros env link.
  destruct (empty_response_caches_live_document env link (Some "text/html") _ _
              Content.initial eq_refl eq_refl eq_refl)
    as (content & st' & _ & Hlive & Hrun & Hcache).
  exists content, st'. split; [exact Hlive|]. split; [exact Hrun | exact Hcache].
Defined.

(** X12.  Of the documents the registered content types make, only a
    local page has a base location: the URL it was loaded from, or the
    current location when the page type has read the live document; the
    documents of the other three types have none. *)
Theorem baseLocation_of_content
    (env : Env) (ct : ContentType) (response : option string) (link : Link)
    (loadURL : URL) (content : ContentObject) (effects : list SideEffect) :
  ct ∈ Content.contentTypes env →
  contentFromResponse ct response link loadURL = (Return (Some content), effects) →
  baseLocationForDocument env (content_document content)
  = if String.eqb (typeName ct) "localPage"
    then Some (if truthy response then loadURL else location env)
    else None.
Proof.
  intros Hreg. unfold Content.contentTypes in Hreg.
  repeat (apply elem_of_cons in Hreg as [->|Hreg]); [| | | |inversion Hreg]; simpl.
  - by intros [= <- _].
  - unfold localCodeFile.contentFromResponse.
    destruct response as [response|]; [|done].
    destruct (DOM.querySelector _ _ _); [|done]. by intros [= <- _].
  - unfold localFragment.contentFromResponse.
    destruct (match AuxLinks.auxLinksLinkType loadURL with Some _ => _ | None => _ end);
      [|done].
    by intros [= <- _].
  - unfold localPage.contentFromResponse.
    destruct (localPage.contentOf _ _) as [[classes|]|]; [|done|done].
    destruct (DOM.querySelector _ _ _); [|done].
    destruct (localPage.pageTitleMatch _); [|done].
    destruct (localPage.pageThumbnail _ _ _) as [[? ?]|]; [|done].
    intros [= <- _]. simpl. by destruct (truthy response).
Qed.

Lemma baseLocation_of_content_witness :
  let env := Sample.env (Sample.site "/essay" "") in
  let link := Sample.anchor (Sample.site "/other" "#section-3") in
  ∃ content effects,
    localPage.contentFromResponse env (Some "essay") link (Sample.site "/other" "")
      = (Return (Some content), effects)
    ∧ baseLocationForDocument env (content_document content)
      = Some (Sample.site "/other" "").
Proof.
  intros env link. eexists. eexists. split; [reflexivity|].
  exact (baseLocation_of_content env (localPage.contentType env) (Some "essay") link
           (Sample.site "/other" "") _ _
           ltac:(unfold Content.contentTypes; set_solver) eq_refl).
Defined.

End ContentMore.

(* ================================================================== *)
(** * Strings and patterns                                              *)
(* ================================================================== *)

Module JSFacts.
Import JS.

#[local] Arguments String.append !_ _ / : simpl nomatch.

Lemma append_nil_inv s1 s2 : s1 +:+ s2 = EmptyString → s1 = EmptyString ∧ s2 = EmptyString.
Proof. by destruct s1. Qed.

Lemma append_cons_inv s1 s2 a s :
  s1 +:+ s2 = String a s →
  (s1 = EmptyString ∧ s2 = String a s) ∨ (∃ s1', s1 = String a s1' ∧ s = s1' +:+ s2).
Proof.
  destruct s1 as [|b s1]; simpl; [by left|].
  intros [= -> <-]. right. by eexists.
Qed.

Lemma append_assoc (s1 s2 s3 : string) : (s1 +:+ s2) +:+ s3 = s1 +:+ (s2 +:+ s3).
Proof. induction s1 as [|a s1 IH]; simpl; [done|]. by f_equal. Qed.

Lemma append_nil_r (s : string) : s +:+ EmptyString = s.
Proof. induction s as [|a s IH]; simpl; [done|]. by f_equal. Qed.

Lemma nullable_Matches r : nullable r = true ↔ Matches r EmptyString.
Proof.
  split.
  - induction r as [| |p|r1 IH1 r2 IH2|r1 IH1 r2 IH2|r IH]; simpl; try done.
    + intros _. constructor.
    + intros [H1 H2]%andb_true_iff.
      apply (M_Seq r1 r2 EmptyString EmptyString); auto.
    + intros [H|H]%orb_true_iff; [apply M_Or_l|apply M_Or_r]; auto.
    + intros _. constructor.
  - induction r as [| |p|r1 IH1 r2 IH2|r1 IH1 r2 IH2|r IH]; simpl;
      inversion 1; subst; try done.
    + match goal with H : _ +:+ _ = EmptyString |- _ =>
        apply append_nil_inv in H as [-> ->] end.
      by rewrite IH1, IH2.
    + by rewrite IH1.
    + rewrite IH2; [|done]. by rewrite orb_true_r.
Qed.

Lemma Matches_Many_cons_inv r a s :
  Matches (Many r) (String a s) →
  ∃ s1 s2, s = s1 +:+ s2 ∧ Matches r (String a s1) ∧ Matches (Many r) s2.
Proof.
  intros H. remember (Many r) as r0 eqn:Hr. remember (String a s) as s0 eqn:Hs.
  induction H as [| | | | | |r' s1 s2 H1 _ H2 IH2]; try done.
  injection Hr as ->.
  apply append_cons_inv in Hs as [[-> ->]|(s1' & -> & ->)]; [by apply IH2|].
  by exists s1', s2.
Qed.

Lemma Matches_derivative a r : ∀ s,
  Matches (derivative a r) s ↔ Matches r (String a s).
Proof.
  induction r as [| |p|r1 IH1 r2 IH2|r1 IH1 r2 IH2|r IH]; intros s; simpl.
  - split; inversion 1.
  - split; inversion 1.
  - split.
    + destruct (p a) eqn:Hp; inversion 1; subst. by constructor.
    + inversion 1; subst.
      match goal with H : p a = true |- _ => rewrite H end. constructor.
  - split.
    + intros H.
      assert (Matches (Seq (derivative a r1) r2) s
              ∨ (nullable r1 = true ∧ Matches (derivative a r2) s)) as [H'|[Hn H']].
      { destruct (nullable r1); [|by left].
        inversion H; subst; [by left|by right]. }
      * inversion H'; subst.
        apply (M_Seq r1 r2 (String a _) _); [by apply IH1|done].
      * apply (M_Seq r1 r2 EmptyString (String a s));
          [by apply nullable_Matches|by apply IH2].
    + inversion 1 as [| |r1' r2' s1 s2 H1 H2| | | |]; subst.
      match goal with Hs : _ +:+ _ = String a s |- _ =>
        apply append_cons_inv in Hs as [[-> ->]|(s1' & -> & ->)] end.
      * apply nullable_Matches in H1. rewrite H1.
        apply M_Or_r. by apply IH2.
      * assert (Matches (Seq (derivative a r1) r2) (s1' +:+ s2)).
        { constructor; [by apply IH1|done]. }
        destruct (nullable r1); [by apply M_Or_l|done].
  - split.
    + inversion 1; subst; [apply M_Or_l; by apply IH1|apply M_Or_r; by apply IH2].
    + inversion 1; subst; [apply M_Or_l; by apply IH1|apply M_Or_r; by apply IH2].
  - split.
    + inversion 1; subst.
      apply (M_Many_cons r (String a _) _); [by apply IH|done].
    + intros (s1 & s2 & -> & H1 & H2)%Matches_Many_cons_inv.
      constructor; [by apply IH|done].
Qed.

(** The matcher decides the relation. *)
Lemma accepts_Matches s : ∀ r, accepts r s = true ↔ Matches r s.
Proof.
  induction s as [|a s IH]; intros r; simpl.
  - apply nullable_Matches.
  - rewrite IH. apply Matches_derivative.
Qed.

Lemma Matches_anything s : Matches anything s.
Proof.
  induction s as [|a s IH]; [constructor|].
  by apply (M_Many_cons _ (String a EmptyString) s); [constructor|].
Qed.

Lemma Matches_Class_cons p a r s :
  Matches (Seq (Class p) r) (String a s) ↔ p a = true ∧ Matches r s.
Proof.
  split.
  - inversion 1 as [| |r1' r2' s1 s2 H1 H2| | | |]; subst.
    inversion H1; subst.
    match goal with Hs : _ +:+ _ = String a s |- _ =>
      simpl in Hs; by injection Hs as -> -> end.
  - intros [Hp H]. by apply (M_Seq _ _ (String a EmptyString) s); [constructor|].
Qed.

Lemma Matches_Class_nil p r : ¬ Matches (Seq (Class p) r) EmptyString.
Proof.
  inversion 1 as [| |r1' r2' s1 s2 H1 H2| | | |]; subst.
  by inversion H1; subst.
Qed.

Lemma Matches_anything_Seq r s :
  Matches (Seq anything r) s ↔ ∃ pre post, s = pre +:+ post ∧ Matches r post.
Proof.
  split.
  - inversion 1; subst. by eexists _, _.
  - intros (pre & post & -> & H). constructor; [apply Matches_anything|done].
Qed.

Lemma Matches_Or_Seq r1 r2 r s :
  Matches (Seq (Or r1 r2) r) s ↔ Matches (Seq r1 r) s ∨ Matches (Seq r2 r) s.
Proof.
  split.
  - inversion 1 as [| |r1' r2' s1 s2 H1 H2| | | |]; subst.
    inversion H1; subst; [left|right]; by constructor.
  - intros [H|H]; inversion H; subst;
      (constructor; [|done]); [by apply M_Or_l|by apply M_Or_r].
Qed.

Lemma chars_app s1 s2 : chars (s1 +:+ s2) = chars s1 ++ chars s2.
Proof. induction s1 as [|a s1 IH]; simpl; [done|]. by rewrite <- IH. Qed.

Lemma length_append (s1 s2 : string) :
  String.length (s1 +:+ s2) = String.length s1 + String.length s2.
Proof. induction s1 as [|a s1 IH]; simpl; [done|]. by rewrite IH. Qed.

Lemma rev_app_spec s1 : ∀ s2, String.rev_app s1 s2 = String.rev s1 +:+ s2.
Proof.
  unfold String.rev. induction s1 as [|a s1 IH]; intros s2; simpl; [done|].
  rewrite IH, (IH (String a EmptyString)). by rewrite append_assoc.
Qed.

Lemma rev_cons a s : String.rev (String a s) = String.rev s +:+ String a EmptyString.
Proof. unfold String.rev at 1. simpl. apply rev_app_spec. Qed.

Lemma rev_append s1 s2 : String.rev (s1 +:+ s2) = String.rev s2 +:+ String.rev s1.
Proof.
  induction s1 as [|a s1 IH]; simpl.
  - by rewrite append_nil_r.
  - by rewrite !rev_cons, IH, append_assoc.
Qed.

Lemma rev_involutive s : String.rev (String.rev s) = s.
Proof.
  induction s as [|a s IH]; [done|].
  by rewrite rev_cons, rev_append, IH.
Qed.

Lemma prefix_cons a s1 b s2 :
  String.prefix (String a s1) (String b s2)
  = if ascii_dec a b then String.prefix s1 s2 else false.
Proof. done. Qed.

Lemma prefix_iff p : ∀ s, String.prefix p s = true ↔ ∃ rest, s = p +:+ rest.
Proof.
  induction p as [|a p IH]; intros s.
  - destruct s; (split; [by eexists|done]).
  - destruct s as [|b s]; [split; [done|by intros [? ?]]|].
    rewrite prefix_cons. destruct (ascii_dec a b) as [->|Hne].
    + rewrite IH. split; intros [rest Hrest]; exists rest; simpl in *; congruence.
    + split; [done|]. intros [rest Hrest]. simpl in Hrest. congruence.
Qed.

Lemma startsWith_iff s p : startsWith s p = true ↔ ∃ rest, s = p +:+ rest.
Proof. apply prefix_iff. Qed.

Lemma endsWith_iff s e : endsWith s e = true ↔ ∃ pre, s = pre +:+ e.
Proof.
  unfold endsWith. rewrite prefix_iff. split.
  - intros [rest Hrest]. exists (String.rev rest).
    by rewrite <- (rev_involutive s), Hrest, rev_append, rev_involutive.
  - intros [pre ->]. exists (String.rev pre). apply rev_append.
Qed.

Lemma slice_length_append p s : slice (String.length p) (p +:+ s) = s.
Proof. induction p as [|a p IH]; simpl; [by destruct s|done]. Qed.

Lemma slice_to_length_append s e : slice_to (String.length s) (s +:+ e) = s.
Proof.
  induction s as [|a s IH]; simpl; [by destruct e|]. by rewrite IH.
Qed.

End JSFacts.

(* ================================================================== *)
(** * Further properties of the classification                          *)
(* ================================================================== *)

Module ClassificationFacts.

Lemma doc_www_is_not_metadata s :
  JS.startsWith s "/doc/www/" = true → JS.startsWith s "/metadata/" = false.
Proof.
  unfold JS.startsWith. destruct s as [|a [|b s]]; [done| |].
  { rewrite !(JSFacts.prefix_cons _ _ a). by destruct (ascii_dec "/" a). }
  rewrite !(JSFacts.prefix_cons _ _ a), !(JSFacts.prefix_cons _ _ b).
  destruct (ascii_dec "/" a); [|done].
  destruct (ascii_dec "d" b) as [<-|]; [|done]. intros _.
  by destruct (ascii_dec "m" "d").
Qed.

Lemma find_head_filter {A} (P : A → bool) (l : list A) :
  List.find P l = head (List.filter P l).
Proof. induction l as [|x l IH]; simpl; [done|]. by destruct (P x). Qed.

Lemma filter_Permutation {A} (P : A → bool) (l1 l2 : list A) :
  l1 ≡ₚ l2 → List.filter P l1 ≡ₚ List.filter P l2.
Proof.
  induction 1 as [|x l1 l2 _ IH|x y l|l1 l2 l3 _ IH1 _ IH2]; simpl.
  - done.
  - destruct (P x); [by constructor | done].
  - destruct (P x), (P y); try done. apply perm_swap.
  - by etrans.
Qed.

Section WithEnv.
Context (env : Env).

(** The three specific types exclude one another. *)
Lemma specific_types_exclusive link :
  localTweetArchive.matches env link && localCodeFile.matches env link = false
  ∧ localTweetArchive.matches env link && localFragment.matches env link = false
  ∧ localCodeFile.matches env link && localFragment.matches env link = false.
Proof.
  unfold localTweetArchive.matches, localCodeFile.matches, localFragment.matches.
  destruct (String.eqb (hostname (link_url link)) (hostname (location env)));
    simpl; [|done].
  destruct (isAnnotatedLinkFull env (classList link)); simpl;
    [by rewrite !andb_false_r|].
  destruct (JS.startsWith (pathname (link_url link)) "/doc/www/") eqn:Hwww; simpl.
  - rewrite (doc_www_is_not_metadata _ Hwww). simpl. by rewrite !andb_false_r.
  - destruct (JS.startsWith (pathname (link_url link)) "/metadata/"); simpl; [done|].
    by rewrite andb_false_r.
Qed.

Lemma at_most_one_specific link :
  (length (List.filter (fun ct => matches ct link)
             [localTweetArchive.contentType env; localCodeFile.contentType env;
              localFragment.contentType env]) ≤ 1)%nat.
Proof.
  destruct (specific_types_exclusive link) as (H1 & H2 & H3). simpl.
  destruct (localTweetArchive.matches env link),
           (localCodeFile.matches env link),
           (localFragment.matches env link); simpl in *; try done; lia.
Qed.

End WithEnv.

(** X13.  A link to another host is declined by every content type, so
    [contentTypeForLink] gives [null] for it; a link that is annotated
    (in full) is declined by the code file, fragment and page types, so
    its content type can only be the tweet archive, or none. *)
Theorem foreign_and_annotated_links (env : Env) (link : Link) :
  (String.eqb (hostname (link_url link)) (hostname (location env)) = false →
   Content.contentTypeForLink (Content.contentTypes env) link = None)
  ∧ (isAnnotatedLinkFull env (classList link) = true →
     Content.contentTypeForLink (Content.contentTypes env) link
     = if localTweetArchive.matches env link
       then Some (localTweetArchive.contentType env) else None).
Proof.
  split.
  - intros Hhost. unfold Content.contentTypeForLink, Content.contentTypes. simpl.
    unfold localTweetArchive.matches, localCodeFile.matches,
      localFragment.matches, localPage.matches.
    by rewrite Hhost.
  - intros Hannotated. unfold Content.contentTypeForLink, Content.contentTypes. simpl.
    destruct (localTweetArchive.matches env link); [done|].
    unfold localCodeFile.matches, localFragment.matches, localPage.matches.
    rewrite Hannotated.
    by destruct (negb (String.eqb (hostname (link_url link)) (hostname (location env)))).
Qed.

Lemma foreign_and_annotated_links_witness :
  let env := Sample.env (Sample.site "/essay" "") in
  let foreign := Sample.anchor (mkURL "https:" "example.org" "" "/essay" "" "") in
  let annotated := mkLink (Sample.site "/other" "") ["link-annotated"] None None None in
  Content.contentTypeForLink (Content.contentTypes env) foreign = None
  ∧ Content.contentTypeForLink (Content.contentTypes env) annotated = None.
Proof.
  intros env foreign annotated. split.
  - exact (proj1 (foreign_and_annotated_links env foreign) eq_refl).
  - exact (proj2 (foreign_and_annotated_links env annotated) eq_refl).
Defined.

(** X14.  The tweet archive, code file and fragment types never match
    the same link, so their order in the registry does not matter: with
    these three registered in any order before the page type,
    [contentTypeForLink] gives what it gives with [Content.contentTypes].
    Only the page type, which overlaps with the others, has to come last. *)
Theorem order_of_specific_types_is_immaterial
    (env : Env) (specific : list ContentType) (link : Link) :
  specific ≡ₚ [localTweetArchive.contentType env; localCodeFile.contentType env;
               localFragment.contentType env] →
  Content.contentTypeForLink (specific ++ [localPage.contentType env]) link
  = Content.contentTypeForLink (Content.contentTypes env) link.
Proof.
  intros Hperm. unfold Content.contentTypeForLink.
  rewrite !find_head_filter.
  change (Content.contentTypes env)
    with ([localTweetArchive.contentType env; localCodeFile.contentType env;
           localFragment.contentType env] ++ [localPage.contentType env]).
  rewrite !List.filter_app.
  cut (List.filter (fun ct => matches ct link) specific
       = List.filter (fun ct => matches ct link)
           [localTweetArchive.contentType env; localCodeFile.contentType env;
            localFragment.contentType env]); [by intros ->|].
  pose proof (filter_Permutation (fun ct => matches ct link) _ _ Hperm) as Hfilter.
  pose proof (at_most_one_specific env link) as Hone.
  destruct (List.filter _ [_; _; _]) as [|x [|y l]]; simpl in Hone.
  - by apply Permutation_nil_r in Hfilter.
  - by apply Permutation_singleton_r in Hfilter.
  - lia.
Qed.

Lemma order_of_specific_types_is_immaterial_witness :
  let env := Sample.env (Sample.site "/essay" "") in
  let link := Sample.anchor (Sample.site "/metadata/today.html" "") in
  Content.contentTypeForLink
    ([localFragment.contentType env; localTweetArchive.contentType env;
      localCodeFile.contentType env] ++ [localPage.contentType env]) link
  = Content.contentTypeForLink (Content.contentTypes env) link.
Proof.
  intros env link.
  apply (order_of_specific_types_is_immaterial env).
  etrans; [apply perm_swap|]. apply perm_skip, perm_swap.
Defined.

End ClassificationFacts.

(* ================================================================== *)
(** * Note numbers                                                      *)
(* ================================================================== *)

Module NotesFacts.
Import JS JSFacts Notes.

#[local] Arguments String.append !_ _ / : simpl nomatch.

Lemma numeral_inv number :
  numeral number →
  ∃ d rest, number = String d rest ∧ is_digit d = true
            ∧ Forall (fun a => is_digit a = true) (chars rest).
Proof.
  intros [Hne Hdigits]. destruct number as [|d rest]; [done|].
  exists d, rest. by inversion Hdigits; subst.
Qed.

(** A note's hash matches the note pattern. *)
Lemma note_hash_accepted c d rest :
  c = "s"%char ∨ c = "f"%char → is_digit d = true →
  accepts noteRegExp (String "#" (String c (String "n" (String d rest)))) = true.
Proof.
  intros Hc Hd. apply accepts_Matches, Matches_anything_Seq.
  exists EmptyString, (String "#" (String c (String "n" (String d rest)))).
  split; [done|].
  apply Matches_Class_cons. split; [done|].
  assert (Matches (Seq (Class (Ascii.eqb c))
                     (Seq (chr "n") (Seq digit anything)))
            (String c (String "n" (String d rest)))) as H.
  { apply Matches_Class_cons. split; [apply Ascii.eqb_refl|].
    apply Matches_Class_cons. split; [done|].
    apply Matches_Class_cons. split; [done|]. apply Matches_anything. }
  inversion H; subst.
  constructor; [|done].
  destruct Hc as [-> | ->]; [by apply M_Or_l|by apply M_Or_r].
Qed.

(** A citation's hash does not match the note pattern, and matches the
    citation pattern. *)
Lemma citation_hash_not_a_note number :
  Forall (fun a => is_digit a = true) (chars number) →
  accepts noteRegExp ("#fnref" +:+ number) = false.
Proof.
  intros Hdigits. apply not_true_is_false.
  intros (pre & post & Hs & H)%accepts_Matches%Matches_anything_Seq.
  destruct post as [|c post]; [by apply Matches_Class_nil in H|].
  apply Matches_Class_cons in H as [Hc%Ascii.eqb_eq H]. subst c.
  destruct pre as [|x pre].
  - simpl in Hs. injection Hs as <-.
    apply Matches_Or_Seq in H as [H|H];
      apply Matches_Class_cons in H as [Hc H]; [done|].
    apply Matches_Class_cons in H as [_ H].
    by apply Matches_Class_cons in H as [? _].
  - simpl in Hs. injection Hs as _ Hs.
    apply (f_equal chars) in Hs. rewrite chars_app in Hs. simpl in Hs.
    assert ("#"%char ∈ chars pre ++ "#"%char :: chars post) as Hin
      by (apply elem_of_app; right; left).
    rewrite <- Hs in Hin.
    repeat (apply elem_of_cons in Hin as [?|Hin]; [done|]).
    by apply (proj1 (Forall_forall _ _) Hdigits) in Hin.
Qed.

Lemma citation_hash_accepted d rest :
  is_digit d = true →
  accepts citationRegExp ("#fnref" +:+ String d rest) = true.
Proof.
  intros Hd. apply accepts_Matches, Matches_anything_Seq.
  exists EmptyString, ("#fnref" +:+ String d rest). split; [done|].
  constructor.
  - by apply accepts_Matches.
  - apply Matches_Class_cons. split; [done|]. apply Matches_anything.
Qed.

(** X15.  The note number read from a hash is the number its id was made
    from: for a decimal numeral [number], [noteNumberFromHash] gives
    [number] back from the footnote id [fn<number>], the sidenote id
    [sn<number>] and the citation id [fnref<number>], with or without
    the number sign in front. *)
Theorem noteNumberFromHash_of_id (number : string) :
  numeral number →
  noteNumberFromHash (idForFootnoteNumber number) = number
  ∧ noteNumberFromHash (idForSidenoteNumber number) = number
  ∧ noteNumberFromHash (idForCitationNumber number) = number
  ∧ noteNumberFromHash ("#" +:+ idForFootnoteNumber number) = number
  ∧ noteNumberFromHash ("#" +:+ idForSidenoteNumber number) = number
  ∧ noteNumberFromHash ("#" +:+ idForCitationNumber number) = number.
Proof.
  intros Hnumeral.
  destruct (numeral_inv _ Hnumeral) as (d & rest & -> & Hd & Hrest).
  assert (Forall (fun a => is_digit a = true) (chars (String d rest))) as Hdigits
    by by constructor.
  pose proof (note_hash_accepted "f" d rest (or_intror eq_refl) Hd) as Hf.
  pose proof (note_hash_accepted "s" d rest (or_introl eq_refl) Hd) as Hs.
  pose proof (citation_hash_not_a_note _ Hdigits) as Hn.
  pose proof (citation_hash_accepted d rest Hd) as Hc.
  unfold noteNumberFromHash, idForFootnoteNumber, idForSidenoteNumber,
    idForCitationNumber.
  repeat split.
  - change (JS.startsWith ("fn" +:+ String d rest) "#") with false.
    cbv iota beta. simpl negb. cbv iota.
    change ("#" +:+ ("fn" +:+ String d rest))
      with (String "#" (String "f" (String "n" (String d rest)))).
    by rewrite Hf.
  - change (JS.startsWith ("sn" +:+ String d rest) "#") with false.
    simpl negb. cbv iota.
    change ("#" +:+ ("sn" +:+ String d rest))
      with (String "#" (String "s" (String "n" (String d rest)))).
    by rewrite Hs.
  - change (JS.startsWith ("fnref" +:+ String d rest) "#") with false.
    simpl negb. cbv iota.
    change ("#" +:+ ("fnref" +:+ String d rest)) with ("#fnref" +:+ String d rest).
    by rewrite Hn, Hc.
  - change (JS.startsWith ("#" +:+ ("fn" +:+ String d rest)) "#") with true.
    simpl negb. cbv iota.
    change ("#" +:+ ("fn" +:+ String d rest))
      with (String "#" (String "f" (String "n" (String d rest)))).
    by rewrite Hf.
  - change (JS.startsWith ("#" +:+ ("sn" +:+ String d rest)) "#") with true.
    simpl negb. cbv iota.
    change ("#" +:+ ("sn" +:+ String d rest))
      with (String "#" (String "s" (String "n" (String d rest)))).
    by rewrite Hs.
  - change (JS.startsWith ("#" +:+ ("fnref" +:+ String d rest)) "#") with true.
    simpl negb. cbv iota.
    change ("#" +:+ ("fnref" +:+ String d rest)) with ("#fnref" +:+ String d rest).
    by rewrite Hn, Hc.
Qed.

Lemma noteNumberFromHash_of_id_witness :
  noteNumberFromHash (idForFootnoteNumber "12") = "12"
  ∧ noteNumberFromHash ("#" +:+ idForCitationNumber "12") = "12".
Proof.
  assert (numeral "12") as H.
  { split; [done|]. repeat constructor. }
  split.
  - exact (proj1 (noteNumberFromHash_of_id "12" H)).
  - exact (proj2 (proj2 (proj2 (proj2 (proj2 (noteNumberFromHash_of_id "12" H)))))).
Defined.

End NotesFacts.

(* ================================================================== *)
(** * Auxiliary links                                                   *)
(* ================================================================== *)

Module AuxLinksFacts.
Import JS JSFacts AuxLinks.

#[local] Arguments String.append !_ _ / : simpl nomatch.

(** X16.  The pathname prefixes of the three kinds of auxiliary links
    exclude one another, so a pathname that begins with one of them is of
    that kind; its target is the rest of the path: behind a slash when
    the pathname does not end in [.html], and decoded twice, without the
    ending, when it does. *)
Theorem targetOfAuxLinksLink_is_rest_of_path
    (env : Env) (link : URL) (pathnamePrefix linkType rest : string) :
  (pathnamePrefix, linkType) ∈ auxLinksLinkTypes →
  pathname link = pathnamePrefix +:+ rest →
  auxLinksLinkType link = Some linkType
  ∧ (endsWith (pathname link) ".html" = false →
     targetOfAuxLinksLink env link = Some (Some ("/" +:+ rest)))
  ∧ (∀ name, rest = name +:+ ".html" →
     targetOfAuxLinksLink env link
     = Some (decodeURIComponent env name ≫= decodeURIComponent env)).
Proof.
  intros Hin Hpath.
  assert (List.find (fun e => startsWith (pathname link) (fst e)) auxLinksLinkTypes
          = Some (pathnamePrefix, linkType)) as Hfind.
  { rewrite Hpath. unfold auxLinksLinkTypes in *.
    repeat (apply elem_of_cons in Hin as [[= -> ->]|Hin];
            [cbn [List.find fst];
             repeat match goal with
             | |- context [startsWith (?p +:+ ?r) ?p] =>
                 rewrite (proj2 (startsWith_iff (p +:+ r) p) (ex_intro _ r eq_refl))
             | |- context [startsWith (?q +:+ ?r) ?p] =>
                 change (startsWith (q +:+ r) p) with false
             end; reflexivity|]).
    inversion Hin. }
  unfold auxLinksLinkType, targetOfAuxLinksLink. rewrite Hfind.
  split; [done|]. split.
  - intros ->. do 2 f_equal. rewrite Hpath. unfold auxLinksLinkTypes in Hin.
    repeat (apply elem_of_cons in Hin as [[= -> ->]|Hin]; [reflexivity|]).
    inversion Hin.
  - intros name ->.
    assert (endsWith (pathname link) ".html" = true) as ->.
    { apply endsWith_iff. exists (pathnamePrefix +:+ name).
      by rewrite Hpath, append_assoc. }
    rewrite Hpath, slice_length_append, !length_append.
    replace (String.length pathnamePrefix
             + (String.length name + String.length ".html")
             - String.length ".html" - String.length pathnamePrefix)
      with (String.length name) by lia.
    by rewrite slice_to_length_append.
Qed.

Lemma targetOfAuxLinksLink_is_rest_of_path_witness :
  let env := Sample.env (Sample.site "/essay" "") in
  let link := Sample.site "/metadata/annotation/similar/essay" "" in
  auxLinksLinkType link = Some "similars"
  ∧ targetOfAuxLinksLink env link = Some (Some "/essay").
Proof.
  intros env link.
  pose proof (targetOfAuxLinksLink_is_rest_of_path env link
                "/metadata/annotation/similar/" "similars" "essay"
                ltac:(unfold auxLinksLinkTypes; set_solver) eq_refl)
    as (Htype & Htarget & _).
  split; [exact Htype | exact (Htarget eq_refl)].
Defined.

End AuxLinksFacts.

(* ================================================================== *)
(** * The check of the response's content type                          *)
(* ================================================================== *)

Module ResponseFacts.
Import JS JSFacts.

#[local] Arguments String.append !_ _ / : simpl nomatch.

Lemma mimeTypeAt_cons a b s :
  Content.mimeTypeAt (String a (String b s))
  = if negb (Ascii.eqb a LF) && negb (Ascii.eqb a CR)
    then if Ascii.eqb b ";" then Some (String a EmptyString)
         else String a <$> Content.mimeTypeAt (String b s)
    else None.
Proof. done. Qed.

Lemma mimeTypeAt_type m : ∀ rest,
  m ≠ EmptyString →
  Forall (fun a => Content.plain a = true) (chars m) →
  rest = EmptyString ∨ (∃ params, rest = String ";" params) →
  Content.mimeTypeAt (m +:+ rest) = Some m.
Proof.
  induction m as [|a m IH]; intros rest Hne Hplain Hrest; [done|].
  inversion Hplain as [|? ? Ha Hm]; subst.
  unfold Content.plain in Ha.
  apply andb_true_iff in Ha as [[Ha1 Ha2]%andb_true_iff Ha3].
  destruct m as [|b m].
  - destruct Hrest as [->|[params ->]].
    + simpl. by rewrite Ha2, Ha3.
    + change (String a EmptyString +:+ String ";" params)
        with (String a (String ";" params)).
      by rewrite mimeTypeAt_cons, Ha2, Ha3.
  - change (String a (String b m) +:+ rest) with (String a (String b (m +:+ rest))).
    rewrite mimeTypeAt_cons, Ha2, Ha3.
    inversion Hm as [|? ? Hb _]; subst.
    unfold Content.plain in Hb.
    apply andb_true_iff in Hb as [[Hb1 _]%andb_true_iff _].
    apply negb_true_iff in Hb1. rewrite Hb1.
    change (String b (m +:+ rest)) with (String b m +:+ rest).
    by rewrite IH.
Qed.

Lemma mimeType_of_mimeTypeAt s m :
  Content.mimeTypeAt s = Some m → Content.mimeType s = Some m.
Proof. destruct s; simpl; [done|]. by intros ->. Qed.

Lemma mimeType_none s :
  Forall (fun a => Ascii.eqb a LF || Ascii.eqb a CR = true) (chars s) →
  Content.mimeType s = None.
Proof.
  induction s as [|a s IH]; [done|].
  intros Hs. inversion Hs as [|? ? Ha Hrest]; subst.
  cbn [Content.mimeType Content.mimeTypeAt].
  apply orb_true_iff in Ha as [-> | ->]; simpl; [by apply IH|].
  rewrite andb_false_r. by apply IH.
Qed.

(** X17.  Of the [Content-Type] header only the media type counts: for
    a content type with a list of permitted types, a header that is a
    media type, or a media type with parameters behind a semicolon, is
    refused exactly when the media type is not in the list, whatever the
    parameters; a header without any character but line terminators
    makes the check throw (the match is [null]). *)
Theorem content_type_parameters_are_ignored
    (contentType : ContentType) (permitted : list string)
    (mediaType parameters : string) :
  permittedContentTypes contentType = Some permitted →
  mediaType ≠ EmptyString →
  Forall (fun a => Content.plain a = true) (chars mediaType) →
  Content.badContentType contentType (Some mediaType)
    = Some (negb (contains permitted mediaType))
  ∧ Content.badContentType contentType (Some (mediaType +:+ ";" +:+ parameters))
    = Some (negb (contains permitted mediaType))
  ∧ (∀ header,
       Forall (fun a => Ascii.eqb a LF || Ascii.eqb a CR = true) (chars header) →
       Content.badContentType contentType (Some header) = None).
Proof.
  intros Hpermitted Hne Hplain. unfold Content.badContentType. rewrite Hpermitted.
  repeat split.
  - pose proof (mimeTypeAt_type mediaType EmptyString Hne Hplain (or_introl eq_refl)) as H.
    rewrite append_nil_r in H. by rewrite (mimeType_of_mimeTypeAt _ _ H).
  - by rewrite (mimeType_of_mimeTypeAt _ _
                  (mimeTypeAt_type mediaType (";" +:+ parameters) Hne Hplain
                     (or_intror (ex_intro _ parameters eq_refl)))).
  - intros header Hheader. by rewrite (mimeType_none _ Hheader).
Qed.

Lemma content_type_parameters_are_ignored_witness :
  let env := Sample.env (Sample.site "/essay" "") in
  Content.badContentType (localPage.contentType env)
    (Some ("text/html" +:+ ";" +:+ " charset=utf-8")) = Some false
  ∧ Content.badContentType (localPage.contentType env)
      (Some ("application/json" +:+ ";" +:+ " charset=utf-8")) = Some true.
Proof.
  intros env. split.
  - refine (proj1 (proj2 (content_type_parameters_are_ignored
              (localPage.contentType env) ["text/html"] "text/html" " charset=utf-8"
              eq_refl _ _)));
      [done | repeat constructor].
  - refine (proj1 (proj2 (content_type_parameters_are_ignored
              (localPage.contentType env) ["text/html"] "application/json"
              " charset=utf-8" eq_refl _ _)));
      [done | repeat constructor].
Defined.

End ResponseFacts.

(* ================================================================== *)
(** * The target predicates of [Extracts]                               *)
(* ================================================================== *)

Module ExtractsFacts.

(** X18.  The targets that [Extracts] takes for local documents, code
    files and local pages are links the Content object has a type for:
    a transformable local document is of the tweet archive type, a local
    code file of the code file type (no earlier type takes it), and a
    local page link of some registered type, so that [Content.load] finds
    a content type for each of them. *)
Theorem extracts_targets_have_content_types (env : Env) (target : Link) :
  (Extracts.isTransformableLocalDocumentLink env target = true →
   Content.contentTypeForLink (Content.contentTypes env) target
   = Some (localTweetArchive.contentType env))
  ∧ (Extracts.isLocalCodeFileLink env target = true →
     Content.contentTypeForLink (Content.contentTypes env) target
     = Some (localCodeFile.contentType env))
  ∧ (Extracts.isLocalPageLink env target = true →
     ∃ contentType,
       Content.contentTypeForLink (Content.contentTypes env) target = Some contentType
       ∧ contentType ∈ Content.contentTypes env).
Proof.
  unfold Content.contentTypeForLink, Content.contentTypes. simpl.
  repeat split.
  - unfold Extracts.isTransformableLocalDocumentLink.
    destruct (contains (classList target) "content-transform-not"); [done|].
    by intros ->.
  - unfold Extracts.isLocalCodeFileLink. intros Hcode.
    destruct (ClassificationFacts.specific_types_exclusive env target) as (H & _ & _).
    rewrite Hcode, andb_true_r in H. by rewrite H, Hcode.
  - unfold Extracts.isLocalPageLink. intros [Hpage _]%andb_true_iff.
    destruct (localTweetArchive.matches env target); [eexists; split; [done|set_solver]|].
    destruct (localCodeFile.matches env target); [eexists; split; [done|set_solver]|].
    destruct (localFragment.matches env target); [eexists; split; [done|set_solver]|].
    rewrite Hpage. eexists; split; [done|set_solver].
Qed.

Lemma extracts_targets_have_content_types_witness :
  let env := Sample.env (Sample.site "/essay" "") in
  let target := Sample.anchor (Sample.site "/static/js/popups.js" "") in
  Extracts.isLocalCodeFileLink env target = true
  ∧ Content.contentTypeForLink (Content.contentTypes env) target
    = Some (localCodeFile.contentType env).
Proof.
  intros env target. split; [reflexivity|].
  exact (proj1 (proj2 (extracts_targets_have_content_types env target)) eq_refl).
Defined.

End ExtractsFacts.

(* ================================================================== *)
(** * Anchors of links                                                  *)
(* ================================================================== *)

Module AnchorFacts.
Import JS JSFacts.

#[local] Arguments String.append !_ _ / : simpl nomatch.

Lemma count_cons (a c : ascii) (l : list ascii) :
  count_occ ascii_dec (a :: l) c
  = (if Ascii.eqb a c then 1 else 0) + count_occ ascii_dec l c.
Proof.
  destruct (Ascii.eqb a c) eqn:H.
  - apply Ascii.eqb_eq in H. by rewrite count_occ_cons_eq.
  - apply Ascii.eqb_neq in H. by rewrite count_occ_cons_neq.
Qed.

(** [split] gives one part more than there are separators. *)
Lemma split_go_length sep s : ∀ cur,
  length (split_go sep cur s) = S (count_occ ascii_dec (chars s) sep).
Proof.
  induction s as [|a s IH]; intros cur; [done|].
  cbn [split_go chars list_ascii_of_string]. fold (chars s). rewrite count_cons.
  destruct (Ascii.eqb a sep); simpl; by rewrite IH.
Qed.

(** The global match gives one anchor for each number sign. *)
Lemma hashMatches_go_length s : ∀ cur,
  length (hashMatches_go cur s)
  = (match cur with Some _ => 1 | None => 0 end) + count_occ ascii_dec (chars s) "#"%char.
Proof.
  induction s as [|a s IH]; intros cur.
  - by destruct cur.
  - cbn [hashMatches_go chars list_ascii_of_string]. fold (chars s).
    rewrite count_cons. destruct (Ascii.eqb a "#"%char).
    + rewrite length_app, IH. destruct cur; simpl; lia.
    + rewrite IH. by destruct cur.
Qed.

Lemma hashMatches_go_plain s : ∀ c,
  count_occ ascii_dec (chars s) "#"%char = 0 →
  hashMatches_go (Some c) s = [String.rev c +:+ s].
Proof.
  induction s as [|a s IH]; intros c.
  - intros _. simpl. by rewrite append_nil_r.
  - cbn [hashMatches_go chars list_ascii_of_string]. fold (chars s).
    rewrite count_cons. destruct (Ascii.eqb a "#"%char); [done|].
    intros Hs. simpl fmap. rewrite (IH _ Hs), rev_cons, append_assoc. done.
Qed.

(** X19.  When a link is an anchor link.  With a [data-target-id], it is
    one exactly when that holds a single id (no space); without, and
    when the link is not an annotation link, a link with a hash (which
    begins with a number sign) is one exactly when the hash has no
    second number sign, and its anchor is then the hash itself.  After [stripAnchorsFromLink] a link has no
    anchors: it is not an anchor link and has no target element in any
    document. *)
Theorem anchor_links (env : Env) (link : Link) :
  (nonempty (dataset_targetId link) = true →
   (isAnchorLink env link = true
    ↔ count_occ ascii_dec (chars (default "" (dataset_targetId link))) " "%char = 0))
  ∧ (nonempty (dataset_targetId link) = false →
     isAnnotationLink env link = false →
     startsWith (hash (link_url link)) "#" = true →
     (isAnchorLink env link = true
      ↔ count_occ ascii_dec (chars (hash (link_url link))) "#"%char = 1)
     ∧ (∀ id, hash (link_url link) = "#" +:+ id →
          count_occ ascii_dec (chars id) "#"%char = 0 →
          anchorsForLink env link = [hash (link_url link)]))
  ∧ anchorsForLink env (stripAnchorsFromLink link) = []
  ∧ (∀ doc, targetElementInDocument env (stripAnchorsFromLink link) doc = None).
Proof.
  split; [|split; [|split]].
  - intros Hid. unfold isAnchorLink, anchorsForLink. rewrite Hid.
    rewrite length_map. unfold split. rewrite split_go_length.
    rewrite Nat.eqb_eq. lia.
  - intros Hid Hannotation [rest Hrest]%startsWith_iff.
    assert (String.eqb (hash (link_url link)) "" = false) as Hhash
      by (apply String.eqb_neq; by rewrite Hrest).
    unfold isAnchorLink, anchorsForLink. rewrite Hid, Hannotation, Hhash. simpl.
    split.
    + unfold hashMatches. rewrite hashMatches_go_length, Nat.eqb_eq. done.
    + intros id -> Hplain. unfold hashMatches.
      change ("#" +:+ id) with (String "#" id).
      cbn [hashMatches_go]. simpl Ascii.eqb. cbv iota.
      by rewrite (hashMatches_go_plain _ _ Hplain).
  - unfold anchorsForLink, stripAnchorsFromLink. simpl.
    by rewrite !andb_false_r.
  - intros doc. unfold targetElementInDocument, isAnchorLink, anchorsForLink,
      stripAnchorsFromLink. simpl. by rewrite !andb_false_r.
Qed.

Lemma anchor_links_witness :
  let env := Sample.env (Sample.site "/essay" "") in
  let link := Sample.anchor (Sample.site "/other" "#section-3") in
  isAnchorLink env link = true
  ∧ anchorsForLink env link = ["#section-3"]
  ∧ isAnchorLink env (Sample.anchor (Sample.site "/other" "#section-3#claim")) = false.
Proof.
  intros env link.
  destruct (proj1 (proj2 (anchor_links env link)) eq_refl eq_refl eq_refl)
    as [Hone Hanchors].
  split; [by apply Hone|]. split; [exact (Hanchors "section-3" eq_refl eq_refl)|].
  apply not_true_is_false. intros Htwo.
  by apply (proj1 (proj1 (proj1 (proj2
              (anchor_links env (Sample.anchor (Sample.site "/other" "#section-3#claim"))))
              eq_refl eq_refl eq_refl))) in Htwo.
Defined.

End AnchorFacts.

(* ================================================================== *)
(** * Escaping                                                          *)
(* ================================================================== *)

Module EscapingFacts.
Import JS JSFacts.

#[local] Arguments String.append !_ _ / : simpl nomatch.

Lemma htmlEncode_cons a s :
  localCodeFile.htmlEncode (String a s)
  = if Ascii.eqb a "<" then "&#60;" +:+ localCodeFile.htmlEncode s
    else if Ascii.eqb a ">" then "&#62;" +:+ localCodeFile.htmlEncode s
    else String a (localCodeFile.htmlEncode s).
Proof. done. Qed.

Lemma escapeQuotes_cons a s :
  localPage.escapeQuotes (String a s)
  = if Ascii.eqb a (ascii_of_nat 34) then "&quot;" +:+ localPage.escapeQuotes s
    else String a (localPage.escapeQuotes s).
Proof. done. Qed.

(** X20.  The two escapings are complete and change nothing else: the
    encoded text of a raw code file holds no angle bracket, and is the
    text itself when that holds none; the escaped alternative text of a
    thumbnail holds no double quote, and is the text itself when that
    holds none.  The encoding of code leaves the ampersand alone, so it
    is not injective: a file that holds the character reference of an
    angle bracket is encoded as the file that holds the bracket. *)
Theorem escaping_is_complete (s : string) :
  (("<"%char ∉ chars (localCodeFile.htmlEncode s))
   ∧ (">"%char ∉ chars (localCodeFile.htmlEncode s)))
  ∧ (("<"%char ∉ chars s) → (">"%char ∉ chars s) → localCodeFile.htmlEncode s = s)
  ∧ (ascii_of_nat 34 ∉ chars (localPage.escapeQuotes s))
  ∧ ((ascii_of_nat 34 ∉ chars s) → localPage.escapeQuotes s = s)
  ∧ localCodeFile.htmlEncode ("&#60;" +:+ s) = localCodeFile.htmlEncode ("<" +:+ s).
Proof.
  split; [|split; [|split; [|split]]].
  - induction s as [|a s [IH1 IH2]]; [split; apply not_elem_of_nil|].
    rewrite htmlEncode_cons.
    destruct (Ascii.eqb a "<") eqn:Hlt; [|destruct (Ascii.eqb a ">") eqn:Hgt].
    + rewrite chars_app. split; intros [H|H]%elem_of_app; try done;
        simpl in H; repeat (apply elem_of_cons in H as [?|H]; [done|]); inversion H.
    + rewrite chars_app. split; intros [H|H]%elem_of_app; try done;
        simpl in H; repeat (apply elem_of_cons in H as [?|H]; [done|]); inversion H.
    + apply Ascii.eqb_neq in Hlt, Hgt.
      split; intros [H|H]%elem_of_cons; done.
  - induction s as [|a s IH]; [done|].
    intros [Ha Hs]%not_elem_of_cons [Ha' Hs']%not_elem_of_cons.
    rewrite htmlEncode_cons.
    apply not_eq_sym, Ascii.eqb_neq in Ha, Ha'. rewrite Ha, Ha'.
    f_equal. by apply IH.
  - induction s as [|a s IH]; [apply not_elem_of_nil|].
    rewrite escapeQuotes_cons.
    destruct (Ascii.eqb a (ascii_of_nat 34)) eqn:Hq.
    + rewrite chars_app. intros [H|H]%elem_of_app; [|done].
      simpl in H. repeat (apply elem_of_cons in H as [?|H]; [done|]). inversion H.
    + apply Ascii.eqb_neq in Hq. intros [H|H]%elem_of_cons; done.
  - induction s as [|a s IH]; [done|].
    intros [Ha Hs]%not_elem_of_cons. rewrite escapeQuotes_cons.
    apply not_eq_sym, Ascii.eqb_neq in Ha. rewrite Ha. f_equal. by apply IH.
  - done.
Qed.

Lemma escaping_is_complete_witness :
  localCodeFile.htmlEncode "x = a[i];" = "x = a[i];"
  ∧ ("<"%char ∉ chars (localCodeFile.htmlEncode "if (a < b) { return a -> b; }")).
Proof.
  split.
  - apply (proj1 (proj2 (escaping_is_complete "x = a[i];")));
      intros H; repeat (apply elem_of_cons in H as [?|H]; [done|]); inversion H.
  - exact (proj1 (proj1 (escaping_is_complete "if (a < b) { return a -> b; }"))).
Defined.

End EscapingFacts.

(* ================================================================== *)
(** * The title of a local page                                         *)
(* ================================================================== *)

Module PageTitleFacts.
Import JS JSFacts.

#[local] Arguments String.append !_ _ / : simpl nomatch.

Lemma Matches_Many_Class p s :
  Matches (Many (Class p)) s ↔ Forall (fun a => p a = true) (chars s).
Proof.
  split.
  - intros H. remember (Many (Class p)) as r eqn:Hr.
    induction H as [| | | | | |r' s1 s2 H1 _ H2 IH2]; try done.
    injection Hr as ->. inversion H1; subst.
    rewrite chars_app. apply Forall_app. split; [by repeat constructor|].
    by apply IH2.
  - induction s as [|a s IH]; [constructor|].
    intros H. inversion H; subst.
    apply (M_Many_cons _ (String a EmptyString) s); [by constructor|by apply IH].
Qed.

Lemma withoutEnding_Some s ending t :
  localPage.withoutEnding s ending = Some t ↔ s = t +:+ ending.
Proof.
  unfold localPage.withoutEnding. split.
  - destruct (endsWith s ending) eqn:Hends; [|done].
    apply endsWith_iff in Hends as [pre ->]. intros [= <-].
    rewrite length_append.
    replace (String.length pre + String.length ending - String.length ending)
      with (String.length pre) by lia.
    by rewrite slice_to_length_append.
  - intros ->.
    rewrite (proj2 (endsWith_iff (t +:+ ending) ending) (ex_intro _ t eq_refl)).
    rewrite length_append.
    replace (String.length t + String.length ending - String.length ending)
      with (String.length t) by lia.
    by rewrite slice_to_length_append.
Qed.

Lemma withoutEnding_None s ending :
  localPage.withoutEnding s ending = None ↔ endsWith s ending = false.
Proof. unfold localPage.withoutEnding. by destruct (endsWith s ending). Qed.

(** A title in reader mode does not end in the site's name. *)
Lemma reader_mode_is_not_site_name t :
  endsWith (t +:+ " · Gwern.net (reader mode)") " · Gwern.net" = false.
Proof.
  unfold endsWith. by rewrite rev_append.
Qed.

Lemma dot_true a :
  negb (Ascii.eqb a LF) && negb (Ascii.eqb a CR) = true ↔ a ≠ LF ∧ a ≠ CR.
Proof.
  rewrite andb_true_iff, !negb_true_iff. by rewrite !Ascii.eqb_neq.
Qed.

Lemma pageTitleMatch_Some s t :
  localPage.pageTitleMatch s = Some t
  ↔ t ≠ EmptyString
    ∧ Forall (fun a => a ≠ LF ∧ a ≠ CR) (chars t)
    ∧ (s = t +:+ " · Gwern.net" ∨ s = t +:+ " · Gwern.net (reader mode)").
Proof.
  assert (∀ t', negb (String.eqb t' "") && accepts (Many dot) t' = true
                ↔ t' ≠ EmptyString ∧ Forall (fun a => a ≠ LF ∧ a ≠ CR) (chars t'))
    as Hgood.
  { intros t'. rewrite andb_true_iff, negb_true_iff, String.eqb_neq.
    rewrite accepts_Matches. unfold dot. rewrite Matches_Many_Class.
    by setoid_rewrite dot_true. }
  unfold localPage.pageTitleMatch. split.
  - destruct (localPage.withoutEnding s " · Gwern.net") as [t'|] eqn:H1.
    + apply withoutEnding_Some in H1.
      destruct (negb (String.eqb t' "") && accepts (Many dot) t') eqn:Hok; [|done].
      intros [= <-]. apply Hgood in Hok as [? ?]. auto.
    + destruct (localPage.withoutEnding s " · Gwern.net (reader mode)")
        as [t'|] eqn:H2; [|done].
      apply withoutEnding_Some in H2.
      destruct (negb (String.eqb t' "") && accepts (Many dot) t') eqn:Hok; [|done].
      intros [= <-]. apply Hgood in Hok as [? ?]. auto.
  - intros (Hne & Hplain & [-> | ->]).
    + rewrite (proj2 (withoutEnding_Some _ _ t) eq_refl).
      by rewrite (proj2 (Hgood t) (conj Hne Hplain)).
    + rewrite (proj2 (withoutEnding_None _ _) (reader_mode_is_not_site_name t)).
      rewrite (proj2 (withoutEnding_Some _ _ t) eq_refl).
      by rewrite (proj2 (Hgood t) (conj Hne Hplain)).
Qed.

(** X21.  The title of a local page is the text of its [title] element
    without the site's name: the pattern gives a title exactly for a text
    that ends in the site's name (or the site's name and the reader mode
    mark), with at least one character and no line terminator before it,
    and then gives that part; so the content object that
    [contentFromResponse] returns for a page has such a title, and the
    text of the page's [title] element is that title and the site's name. *)
Theorem page_title_is_title_without_site_name (env : Env) :
  (∀ s t,
     localPage.pageTitleMatch s = Some t
     ↔ t ≠ EmptyString
       ∧ Forall (fun a => a ≠ LF ∧ a ≠ CR) (chars t)
       ∧ (s = t +:+ " · Gwern.net" ∨ s = t +:+ " · Gwern.net (reader mode)"))
  ∧ (∀ response link loadURL content effects,
       localPage.contentFromResponse env response link loadURL
         = (Return (Some content), effects) →
       ∃ titleElement pageTitle,
         DOM.querySelector (nodes_of env (content_document content)) []
           (DOM.simple [DOM.Tag "title"]) = Some titleElement
         ∧ title content = Some pageTitle
         ∧ pageTitle ≠ EmptyString
         ∧ (serializeHTML env
              (DOM.childrenAt (nodes_of env (content_document content)) titleElement)
            = pageTitle +:+ " · Gwern.net"
            ∨ serializeHTML env
                (DOM.childrenAt (nodes_of env (content_document content)) titleElement)
              = pageTitle +:+ " · Gwern.net (reader mode)")).
Proof.
  split; [apply pageTitleMatch_Some|].
  intros response link loadURL content effects.
  unfold localPage.contentFromResponse.
  set (page := if truthy response
               then Fragment (newDocument env response) (Some loadURL)
               else LiveDocument).
  destruct (localPage.contentOf _ _) as [[classes|]|]; try done.
  destruct (DOM.querySelector _ _ _) as [titleElement|] eqn:Htitle; [|done].
  destruct (localPage.pageTitleMatch _) as [pageTitle|] eqn:Hmatch; [|done].
  destruct (localPage.pageThumbnail _ _ _) as [[html requests]|]; [|done].
  intros [= <- _]. simpl.
  apply pageTitleMatch_Some in Hmatch as (Hne & _ & Hs).
  by exists titleElement, pageTitle.
Qed.

Lemma page_title_is_title_without_site_name_witness :
  localPage.pageTitleMatch "Essay · Gwern.net (reader mode)" = Some "Essay".
Proof.
  apply (proj1 (page_title_is_title_without_site_name
                  (Sample.env (Sample.site "/essay" "")))).
  split; [done|]. split; [|by right].
  repeat (constructor; [done|]). constructor.
Defined.

End PageTitleFacts.

(* ================================================================== *)
(** * The target element of a backlink                                  *)
(* ================================================================== *)

Module TargetFacts.

Lemma head_filter_Some {A} (f : A → bool) (l : list A) (x : A) :
  head (List.filter f l) = Some x → In x l ∧ f x = true.
Proof.
  intros H. apply filter_In.
  destruct (List.filter f l) as [|y rest]; [done|].
  injection H as ->. by left.
Qed.

Lemma existsb_false {A} (f : A → bool) (l : list A) :
  existsb f l = false ↔ Forall (fun x => f x = false) l.
Proof.
  induction l as [|x l IH]; simpl.
  - split; [constructor|done].
  - rewrite orb_false_iff, IH. split.
    + intros [? ?]. by constructor.
    + by inversion 1.
Qed.

(** An anchor element that is not inside what the exclusion selector
    names: none of its ancestors is the page metadata block or a list of
    auxiliary links. *)
Lemma not_excluded doc p :
  DOM.matchesSimple doc p (DOM.Tag "a") = true →
  DOM.closest doc p exclusionSelector = None →
  Forall (fun q => DOM.matchesSimple doc q (DOM.Id "page-metadata") = false
                   ∧ DOM.matchesSimple doc q (DOM.Class "aux-links-list") = false)
         (DOM.properAncestors p).
Proof.
  intros Ha Hclosest. unfold DOM.closest in Hclosest.
  pose proof (find_none _ _ Hclosest p (or_introl eq_refl)) as Hp.
  unfold DOM.matchesSelector, exclusionSelector in Hp. simpl in Hp.
  rewrite Ha in Hp. simpl in Hp.
  apply orb_false_iff in Hp as [H1 [H2 _]%orb_false_iff].
  rewrite existsb_false in H1. rewrite existsb_false in H2.
  apply Forall_forall. intros q Hq.
  pose proof (proj1 (Forall_forall _ _) H1 q Hq) as Hq1.
  pose proof (proj1 (Forall_forall _ _) H2 q Hq) as Hq2.
  simpl in Hq1, Hq2. rewrite !andb_true_r in Hq1, Hq2. done.
Qed.

(** X22.  The backlink that [targetElementInDocument] falls back on,
    when the link's anchor selects no element of the document: it is an
    anchor element without the class [backlink-not], it points to the
    backlink target of the link (by its pathname when the target begins
    with a slash, else by its [href] or its original URL), and it is not
    inside the page metadata block nor inside a list of auxiliary links. *)
Theorem backlink_target_is_outside_exclusions
    (env : Env) (link : Link) (doc : list DOM.Node) (p : DOM.Path) :
  targetElementInDocument env link doc = Some p →
  (∀ anchor, head (anchorsForLink env link) = Some anchor →
     JS.startsWith anchor "#" = true →
     DOM.querySelector doc [] (selectorFromHash env anchor) = None) →
  ∃ target attrs,
    dataset_backlinkTargetUrl link = Some target
    ∧ from_option DOM.attrs_of [] (DOM.nodeAt doc p) = attrs
    ∧ DOM.matchesSimple doc p (DOM.Tag "a") = true
    ∧ DOM.matchesSimple doc p (DOM.NotClass "backlink-not") = true
    ∧ (if JS.startsWith target "/"
       then anchor_pathname env attrs = target
       else anchor_href env attrs = target
            ∨ DOM.getAttribute attrs "data-url-original" = Some target)
    ∧ Forall (fun q => DOM.matchesSimple doc q (DOM.Id "page-metadata") = false
                       ∧ DOM.matchesSimple doc q (DOM.Class "aux-links-list") = false)
             (DOM.properAncestors p).
Proof.
  unfold targetElementInDocument. intros Htarget Hnone.
  destruct (negb (isAnchorLink env link)) eqn:Hanchor; [done|].
  assert ((if JS.startsWith (default "" (head (anchorsForLink env link))) "#"
           then DOM.querySelector doc []
                  (selectorFromHash env (default "" (head (anchorsForLink env link))))
           else None) = None) as Helement.
  { destruct (JS.startsWith _ "#") eqn:Hstarts; [|done].
    destruct (head (anchorsForLink env link)) as [anchor|] eqn:Hhead; [|done].
    by apply Hnone. }
  rewrite Helement in Htarget.
  destruct (nonempty (dataset_backlinkTargetUrl link)) eqn:Hbacklink; [|done].
  destruct (dataset_backlinkTargetUrl link) as [target|]; [|done].
  simpl in Htarget.
  apply head_filter_Some in Htarget as [Hin [Hpoints Hclosest]%andb_true_iff].
  apply bool_decide_eq_true in Hclosest.
  unfold DOM.querySelectorAll in Hin.
  apply filter_In in Hin as [_ [_ Hmatches]%andb_true_iff].
  assert (DOM.matchesSimple doc p (DOM.Tag "a") = true
          ∧ DOM.matchesSimple doc p (DOM.NotClass "backlink-not") = true) as [Ha Hnot].
  { unfold DOM.matchesSelector, backlinkSelector in Hmatches. simpl in Hmatches.
    rewrite !andb_true_r, orb_false_r in Hmatches.
    apply orb_true_iff in Hmatches as [H|H];
      apply andb_true_iff in H as [? [_ ?]%andb_true_iff]; done. }
  exists target, (from_option DOM.attrs_of [] (DOM.nodeAt doc p)).
  repeat split; try done.
  - destruct (JS.startsWith target "/").
    + by apply String.eqb_eq.
    + apply orb_true_iff in Hpoints as [H%String.eqb_eq|H%bool_decide_eq_true]; auto.
  - by apply not_excluded.
Qed.

Lemma backlink_target_is_outside_exclusions_witness :
  let env := Sample.env (Sample.site "/essay" "") in
  let link :=
    {| link_url := Sample.site "/metadata/annotation/backlink/%252Fessay.html" "";
       classList := []; dataset_urlOriginal := None; dataset_targetId := None;
       dataset_backlinkTargetUrl := Some "https://example.org/article" |} in
  let doc :=
    [ DOM.Elem "div" [("id", "page-metadata")]
        [ DOM.Elem "a" [("href", "https://example.org/article")] [] ];
      DOM.Elem "p" []
        [ DOM.Elem "a" [("href", "https://example.org/article")] [] ] ] in
  targetElementInDocument env link doc = Some [1; 0]
  ∧ ∃ target attrs,
      dataset_backlinkTargetUrl link = Some target
      ∧ from_option DOM.attrs_of [] (DOM.nodeAt doc [1; 0]) = attrs
      ∧ DOM.matchesSimple doc [1; 0] (DOM.Tag "a") = true
      ∧ DOM.matchesSimple doc [1; 0] (DOM.NotClass "backlink-not") = true
      ∧ (if JS.startsWith target "/"
         then anchor_pathname env attrs = target
         else anchor_href env attrs = target
              ∨ DOM.getAttribute attrs "data-url-original" = Some target)
      ∧ Forall (fun q => DOM.matchesSimple doc q (DOM.Id "page-metadata") = false
                         ∧ DOM.matchesSimple doc q (DOM.Class "aux-links-list") = false)
               (DOM.properAncestors [1; 0]).
Proof.
  intros env link doc.
  assert (targetElementInDocument env link doc = Some [1; 0]) as H by reflexivity.
  split; [exact H|].
  apply (backlink_target_is_outside_exclusions env link doc [1; 0] H).
  intros anchor [= <-]. discriminate.
Defined.

End TargetFacts.

(* ================================================================== *)
(** * The marking of auxiliary-links fragments                          *)
(* ================================================================== *)

Module FragmentFacts.

Lemma skeleton_alter (g : DOM.Node → DOM.Node) (forest : list DOM.Node) : ∀ i,
  (∀ n, DOM.skeleton (g n) = DOM.skeleton n) →
  map DOM.skeleton (alter g i forest) = map DOM.skeleton forest.
Proof.
  induction forest as [|x forest IH]; intros i Hg; [done|].
  destruct i as [|i]; simpl.
  - by rewrite Hg.
  - f_equal. by apply IH.
Qed.

(** A change of one node that keeps its skeleton keeps the skeleton of
    the document. *)
Lemma skeleton_updateAt (f : DOM.Node → DOM.Node) (p : DOM.Path) :
  (∀ n, DOM.skeleton (f n) = DOM.skeleton n) →
  ∀ forest, map DOM.skeleton (DOM.updateAt f p forest) = map DOM.skeleton forest.
Proof.
  intros Hf. induction p as [|i p IH]; intros forest; [done|].
  simpl. apply skeleton_alter. intros n.
  destruct p as [|j p]; [apply Hf|].
  destruct n as [t a cs|d]; [|done].
  simpl. f_equal. apply IH.
Qed.

Lemma skeleton_update_attrs f n :
  DOM.skeleton (DOM.update_attrs f n) = DOM.skeleton n.
Proof. by destruct n. Qed.

Lemma skeleton_attrs_at f p forest :
  map DOM.skeleton (DOM.updateAt (DOM.update_attrs f) p forest)
  = map DOM.skeleton forest.
Proof. apply skeleton_updateAt. intros n. apply skeleton_update_attrs. Qed.

Lemma skeleton_fold f (paths : list DOM.Path) : ∀ forest,
  map DOM.skeleton
    (fold_left (fun doc p => DOM.updateAt (DOM.update_attrs f) p doc) paths forest)
  = map DOM.skeleton forest.
Proof.
  induction paths as [|p paths IH]; intros forest; [done|].
  simpl. by rewrite IH, skeleton_attrs_at.
Qed.

Lemma skeleton_markAuxLinksList env linkType loadURL fragment marked :
  localFragment.markAuxLinksList env linkType loadURL fragment = Some marked →
  map DOM.skeleton marked = map DOM.skeleton fragment.
Proof.
  unfold localFragment.markAuxLinksList, localFragment.addClassToAll.
  destruct (DOM.querySelector fragment [] _) as [auxLinksList|]; [|by intros [= <-]].
  destruct (DOM.previousElementSibling _ _) as [label|]; [|done].
  destruct (String.eqb linkType "backlinks").
  - destruct (DOM.querySelectorAll _ _ localFragment.backlinkAnchors) as [|auxLink rest].
    + intros [= <-]. by rewrite !skeleton_fold, !skeleton_attrs_at.
    + destruct (AuxLinks.targetOfAuxLinksLink env loadURL) as [[target|]|];
        [|done|]; intros [= <-];
        by repeat (rewrite skeleton_fold || rewrite skeleton_attrs_at).
  - intros [= <-]. by rewrite !skeleton_attrs_at.
Qed.

(** X23.  What the fragment type makes of a response differs from the
    parsed response in attributes only: the marking of an auxiliary-links
    list adds classes and the backlink target, and never adds, removes,
    moves or renames a node, nor changes any text; and one
    [GW.contentDidLoad] event is fired, for that document. *)
Theorem fragment_marking_changes_attributes_only
    (env : Env) (response : option string) (link : Link) (loadURL : URL)
    (content : ContentObject) (effects : list SideEffect) :
  localFragment.contentFromResponse env response link loadURL
    = (Return (Some content), effects) →
  ∃ fragment,
    content_document content = Fragment fragment None
    ∧ map DOM.skeleton fragment = map DOM.skeleton (newDocument env response)
    ∧ effects = [ContentDidLoad "Content.contentTypes.localFragment.load"
                   (Fragment fragment None)].
Proof.
  unfold localFragment.contentFromResponse.
  destruct (AuxLinks.auxLinksLinkType loadURL) as [linkType|].
  - destruct (localFragment.markAuxLinksList env linkType loadURL _)
      as [marked|] eqn:Hmarked; [|done].
    intros [= <- <-]. exists marked. repeat split.
    by apply (skeleton_markAuxLinksList env linkType loadURL).
  - intros [= <- <-]. by eexists.
Qed.

Lemma fragment_marking_changes_attributes_only_witness :
  let env := Sample.env (Sample.site "/essay" "") in
  let loadURL := Sample.site "/metadata/annotation/backlink/%252Fessay.html" "" in
  let link := Sample.anchor loadURL in
  ∃ content effects fragment,
    localFragment.contentFromResponse env (Some "essay") link loadURL
      = (Return (Some content), effects)
    ∧ content_document content = Fragment fragment None
    ∧ fragment ≠ newDocument env (Some "essay")
    ∧ map DOM.skeleton fragment = map DOM.skeleton (newDocument env (Some "essay")).
Proof.
  intros env loadURL link.
  destruct (localFragment.contentFromResponse env (Some "essay") link loadURL)
    as [[[content|]|error] effects] eqn:Hresult; try (by vm_compute in Hresult).
  destruct (fragment_marking_changes_attributes_only env (Some "essay") link loadURL
              content effects Hresult) as (fragment & Hdocument & Hskeleton & _).
  exists content, effects, fragment. repeat split; try done.
  intros ->. vm_compute in Hresult. injection Hresult as <- _.
  by vm_compute in Hdocument.
Defined.

End FragmentFacts.

(* ================================================================== *)
(** * Links of the other types to the current page                      *)
(* ================================================================== *)

Module SelfLinkFacts.
Import ContentFacts.

Lemma load_request_local env reg link url rest st :
  pathname url = pathname (location env) →
  Content.load_request env reg link (Some (url :: rest)) st
  = Content.processResponse reg link url None st.
Proof.
  intros Heq. unfold Content.load_request, Content.bind. simpl.
  by apply String.eqb_eq in Heq as ->.
Qed.

Lemma localFragment_of_nothing env link loadURL :
  localFragment.contentFromResponse env None link loadURL
  = (Return (Some (document_only (Fragment [] None))),
     [ContentDidLoad "Content.contentTypes.localFragment.load" (Fragment [] None)]).
Proof.
  unfold localFragment.contentFromResponse.
  by destruct (AuxLinks.auxLinksLinkType loadURL).
Qed.

(** X24.  The special case of [Content.load] for the current page is
    taken for every content type, not for the page type only.  When the
    first source URL of a link has the pathname of the current location,
    no request is made and the content type is given no response: for a
    tweet archive or fragment link an empty document is stored as the
    link's content and ["Content.contentDidLoad"] is fired; for a code
    file link, [load] throws, and nothing is stored or fired. *)
Theorem self_link_of_other_types
    (env : Env) (link : Link) (ct : ContentType) (first : URL) (rest : list URL)
    (st : Content.State) :
  Content.contentTypeForLink (Content.contentTypes env) link = Some ct →
  sourceURLsForLink ct link = first :: rest →
  pathname first = pathname (location env) →
  (ct = localTweetArchive.contentType env ∨ ct = localFragment.contentType env →
   Content.load env (Content.contentTypes env) link None None None st
   = Content.Ok tt
       {| Content.cachedContent :=
            <[href first := Loaded (document_only (Fragment [] None))]>
              (Content.cachedContent st);
          Content.trace :=
            Content.trace st
            ++ (if String.eqb (typeName ct) "localFragment"
                then [Content.FromContentType
                        (ContentDidLoad "Content.contentTypes.localFragment.load"
                           (Fragment [] None))]
                else [])
            ++ [Content.FireEvent "Content.contentDidLoad" link] |})
  ∧ (ct = localCodeFile.contentType env →
     Content.load env (Content.contentTypes env) link None None None st
     = Content.Throw "TypeError" st).
Proof.
  intros Htype Hurls Hself.
  rewrite load_without_handlers, (load_request_first _ _ _ _ _ _ _ Htype Hurls),
    (load_request_local _ _ _ _ _ _ Hself).
  split.
  - intros [-> | ->].
    + by rewrite (processResponse_returned _ _ _ _ _ _ _ _ _ _ Htype Hurls eq_refl).
    + by rewrite (processResponse_returned _ _ _ _ _ _ _ _ _ _ Htype Hurls
                    (localFragment_of_nothing env link first)).
  - intros ->.
    rewrite (processResponse_raised _ link first None _ "TypeError" [] _ Htype eq_refl).
    simpl. rewrite app_nil_r. by destruct st.
Qed.

Lemma self_link_of_other_types_witness :
  let current := Sample.site "/metadata/annotation/backlink/%252Fessay.html" "" in
  let env := Sample.env current in
  let link := Sample.anchor current in
  Content.load env (Content.contentTypes env) link None None None Content.initial
  = Content.Ok tt
      {| Content.cachedContent :=
           {[ href current := Loaded (document_only (Fragment [] None)) ]};
         Content.trace :=
           [Content.FromContentType
              (ContentDidLoad "Content.contentTypes.localFragment.load"
                 (Fragment [] None));
            Content.FireEvent "Content.contentDidLoad" link] |}.
Proof.
  intros current env link.
  exact (proj1 (self_link_of_other_types env link (localFragment.contentType env)
                  current [] Content.initial eq_refl eq_refl eq_refl)
           (or_intror eq_refl)).
Defined.

Section Reads.
Context (env : Env) (reg : list ContentType).
Context (link : Link) (ct : ContentType) (first : URL) (rest : list URL).
Context (content : ContentObject) (effects : list SideEffect).
Hypothesis Htype : Content.contentTypeForLink reg link = Some ct.
Hypothesis Hurls : sourceURLsForLink ct link = first :: rest.
Hypothesis Hlink : pathname (link_url link) = pathname (location env).
Hypothesis Hself : pathname first = pathname (location env).
Hypothesis Hcontent :
  contentFromResponse ct None link first = (Return (Some content), effects).

Lemma load_request_self st :
  Content.load_request env reg link None st
  = Content.Ok tt
      {| Content.cachedContent :=
           <[href first := Loaded content]> (Content.cachedContent st);
         Content.trace :=
           Content.trace st
           ++ (map Content.FromContentType effects
               ++ [Content.FireEvent "Content.contentDidLoad" link]) |}.
Proof using Htype Hurls Hself Hcontent.
  rewrite (load_request_first _ _ _ _ _ _ _ Htype Hurls),
    (load_request_local _ _ _ _ _ _ Hself).
  by rewrite (processResponse_returned _ _ _ _ _ _ _ _ _ _ Htype Hurls Hcontent).
Qed.

Lemma cachedContentForLink_self st :
  Content.cachedContentForLink env reg link st
  = Content.Ok (Some (Loaded content))
      {| Content.cachedContent :=
           <[href first := Loaded content]> (Content.cachedContent st);
         Content.trace :=
           Content.trace st
           ++ (map Content.FromContentType effects
               ++ [Content.FireEvent "Content.contentDidLoad" link]) |}.
Proof using Htype Hurls Hlink Hself Hcontent.
  unfold Content.cachedContentForLink.
  apply String.eqb_eq in Hlink as ->. unfold Content.when, Content.bind.
  rewrite load_request_self.
  rewrite (contentCacheKeyForLink_Some _ _ _ _ _ _ Htype Hurls).
  unfold Content.read. simpl. by rewrite lookup_insert_eq.
Qed.

Lemma waitForDataLoad_self st (loadHandler loadFailHandler : nat) :
  Content.waitForDataLoad env reg link (Some loadHandler) (Some loadFailHandler) st
  = Content.Ok tt
      {| Content.cachedContent :=
           <[href first := Loaded content]> (Content.cachedContent st);
         Content.trace :=
           Content.trace st
           ++ (map Content.FromContentType effects
               ++ [Content.FireEvent "Content.contentDidLoad" link])
           ++ (map Content.FromContentType effects
               ++ [Content.FireEvent "Content.contentDidLoad" link])
           ++ [Content.CallHandler loadHandler link] |}.
Proof using Htype Hurls Hlink Hself Hcontent.
  unfold Content.waitForDataLoad, Content.bind.
  rewrite !cachedContentForLink_self. unfold Content.call, Content.emit. simpl.
  rewrite insert_insert_eq. by rewrite <- !app_assoc.
Qed.

End Reads.

(** X25.  Every read of a link to the current page is a load.  For a
    link whose first source URL has the pathname of the current
    location, and whose content type makes a content object of no
    response: [cachedDataExists] processes the live document, stores the
    content object and fires ["Content.contentDidLoad"] before it
    answers [true]; [waitForDataLoad] does so twice, and then calls the
    load handler; and [Content.load] with handlers does so three times,
    with the side effects of the content type each time. *)
Theorem reads_of_self_link_load_again
    (env : Env) (reg : list ContentType) (link : Link) (ct : ContentType)
    (first : URL) (rest : list URL) (content : ContentObject)
    (effects : list SideEffect) (loadHandler loadFailHandler : nat)
    (st : Content.State) :
  Content.contentTypeForLink reg link = Some ct →
  sourceURLsForLink ct link = first :: rest →
  pathname (link_url link) = pathname (location env) →
  pathname first = pathname (location env) →
  contentFromResponse ct None link first = (Return (Some content), effects) →
  let processed :=
    map Content.FromContentType effects
    ++ [Content.FireEvent "Content.contentDidLoad" link] in
  let stored added :=
    {| Content.cachedContent :=
         <[href first := Loaded content]> (Content.cachedContent st);
       Content.trace := Content.trace st ++ added |} in
  Content.cachedDataExists env reg link st = Content.Ok true (stored processed)
  ∧ Content.waitForDataLoad env reg link (Some loadHandler) (Some loadFailHandler) st
    = Content.Ok tt
        (stored (processed ++ processed ++ [Content.CallHandler loadHandler link]))
  ∧ Content.load env reg link (Some loadHandler) (Some loadFailHandler) None st
    = Content.Ok tt
        (stored (processed ++ processed ++ processed
                 ++ [Content.CallHandler loadHandler link])).
Proof.
  intros Htype Hurls Hlink Hself Hcontent processed stored.
  split; [|split].
  - unfold Content.cachedDataExists, Content.bind.
    by rewrite (cachedContentForLink_self env reg link ct first rest content effects
                  Htype Hurls Hlink Hself Hcontent).
  - by rewrite (waitForDataLoad_self env reg link ct first rest content effects
                  Htype Hurls Hlink Hself Hcontent).
  - unfold Content.load, Content.bind.
    rewrite (load_request_self env reg link ct first rest content effects
               Htype Hurls Hself Hcontent).
    simpl.
    rewrite (waitForDataLoad_self env reg link ct first rest content effects
               Htype Hurls Hlink Hself Hcontent).
    simpl. rewrite insert_insert_eq. unfold stored, processed.
    by rewrite <- !app_assoc.
Qed.

Lemma reads_of_self_link_load_again_witness :
  let current := Sample.site "/metadata/annotation/backlink/%252Fessay.html" "" in
  let env := Sample.env current in
  let link := Sample.anchor current in
  let loaded :=
    Content.FromContentType
      (ContentDidLoad "Content.contentTypes.localFragment.load" (Fragment [] None)) in
  let fired := Content.FireEvent "Content.contentDidLoad" link in
  Content.trace
    (Content.state_of
       (Content.load env (Content.contentTypes env) link (Some 1) (Some 2) None
          Content.initial))
  = [loaded; fired; loaded; fired; loaded; fired; Content.CallHandler 1 link].
Proof.
  intros current env link loaded fired.
  by rewrite (proj2 (proj2 (reads_of_self_link_load_again env (Content.contentTypes env)
                              link (localFragment.contentType env) current []
                              (document_only (Fragment [] None))
                              [ContentDidLoad "Content.contentTypes.localFragment.load"
                                 (Fragment [] None)]
                              1 2 Content.initial eq_refl eq_refl eq_refl eq_refl
                              eq_refl))).
Defined.

End SelfLinkFacts.

(* ================================================================== *)
(** * Renumbering a citation                                            *)
(* ================================================================== *)

Module RenumberingFacts.
Import JS JSFacts Notes.

#[local] Arguments String.append !_ _ / : simpl nomatch.

Lemma slice_to_prefix p rest : slice_to (String.length p) (p +:+ rest) = p.
Proof. apply slice_to_length_append. Qed.

(** X26.  Renumbering keeps a citation consistent with the ids of notes.
    For a citation whose hash points to a footnote or sidenote and whose
    id is a citation id, after [setCitationNumber] with a decimal number
    the hash is the old one with the number replaced, the id is
    [idForCitationNumber] of the number, and [noteNumberFromHash] of the
    hash is the number; the text is the number when the citation has an
    element child, and when it has none the call throws after the hash
    and the id have been changed. *)
Theorem setCitationNumber_renumbers
    (citation : Citation) (kind old number : string) :
  kind = "fn" ∨ kind = "sn" →
  citation_hash citation = "#" +:+ kind +:+ old →
  startsWith (citation_id citation) "fnref" = true →
  numeral number →
  let result := setCitationNumber citation number in
  citation_hash (fst result) = "#" +:+ kind +:+ number
  ∧ citation_id (fst result) = idForCitationNumber number
  ∧ noteNumberFromHash (citation_hash (fst result)) = number
  ∧ snd result = bool_decide (is_Some (citation_text citation))
  ∧ citation_text (fst result) = (fun _ => number) <$> citation_text citation.
Proof.
  intros Hkind Hhash [rest Hid]%startsWith_iff Hnumeral result.
  assert (citation_hash (fst result) = "#" +:+ kind +:+ number) as Hnew.
  { unfold result, setCitationNumber.
    assert (slice_to 3 (citation_hash citation) = "#" +:+ kind) as ->.
    { rewrite Hhash. by destruct Hkind as [-> | ->]. }
    assert (assign_hash (("#" +:+ kind) +:+ number) = "#" +:+ kind +:+ number) as ->.
    { unfold assign_hash. by destruct Hkind as [-> | ->]. }
    by destruct (citation_text citation). }
  split; [done|]. split; [|split; [|split]].
  - unfold result, setCitationNumber.
    assert (slice_to 5 (citation_id citation) = "fnref") as Hprefix.
    { rewrite Hid. apply (slice_to_prefix "fnref"). }
    rewrite Hprefix. by destruct (citation_text citation).
  - rewrite Hnew.
    destruct (NotesFacts.numeral_inv _ Hnumeral) as (d & rest' & -> & Hd & _).
    unfold noteNumberFromHash.
    assert (startsWith ("#" +:+ kind +:+ String d rest') "#" = true) as ->
      by (apply startsWith_iff; by eexists).
    simpl negb. cbv iota.
    destruct Hkind as [-> | ->].
    + change ("#" +:+ "fn" +:+ String d rest')
        with (String "#" (String "f" (String "n" (String d rest')))).
      by rewrite (NotesFacts.note_hash_accepted "f" d rest' (or_intror eq_refl) Hd).
    + change ("#" +:+ "sn" +:+ String d rest')
        with (String "#" (String "s" (String "n" (String d rest')))).
      by rewrite (NotesFacts.note_hash_accepted "s" d rest' (or_introl eq_refl) Hd).
  - unfold result, setCitationNumber. by destruct (citation_text citation).
  - unfold result, setCitationNumber. by destruct (citation_text citation).
Qed.

Lemma setCitationNumber_renumbers_witness :
  let citation := mkCitation "#fn3" "fnref3" (Some "3") in
  let result := setCitationNumber citation "12" in
  citation_hash (fst result) = "#" +:+ "fn" +:+ "12"
  ∧ citation_id (fst result) = idForCitationNumber "12"
  ∧ noteNumberFromHash (citation_hash (fst result)) = "12"
  ∧ snd result = bool_decide (is_Some (Some "3"))
  ∧ citation_text (fst result) = Some "12".
Proof.
  intros citation.
  refine (setCitationNumber_renumbers citation "fn" "3" "12"
            (or_introl eq_refl) eq_refl eq_refl _).
  split; [done|]. repeat constructor.
Defined.

End RenumberingFacts.

(* ================================================================== *)
(** * The activity indicator                                            *)
(* ================================================================== *)

Module ActivityFacts.
Import Activity.

Lemma run_snoc (calls : list Call) c st :
  fold_left step (calls ++ [c]) st = step (fold_left step calls st) c.
Proof. by rewrite fold_left_app. Qed.

(** The calls count the activities, from any state. *)
Lemma activities_counted (calls : list Call) : ∀ st,
  length (activities (fold_left step calls st))
  = fold_left (fun n c => match c with Begin => S n | End_ => pred n end)
      calls (length (activities st)).
Proof.
  induction calls as [|c calls IH]; intros st; [done|].
  simpl. rewrite IH. f_equal. destruct c; simpl.
  - rewrite length_app. simpl. lia.
  - by destruct (activities st).
Qed.

(** Without an indicator element the calls make none. *)
Lemma no_indicator (calls : list Call) : ∀ st,
  indicator st = None → indicator (fold_left step calls st) = None.
Proof.
  induction calls as [|c calls IH]; intros st Hnone; [done|].
  simpl. apply IH. destruct c; simpl; rewrite Hnone; [done|].
  by destruct (Nat.eqb _ 0).
Qed.

Lemma shows_after_first_call st c :
  indicator st = Some true → shows (step st c).
Proof.
  intros Hon. unfold shows. destruct c; simpl; rewrite Hon; simpl.
  - rewrite length_app. simpl. by rewrite Nat.add_1_r.
  - by destruct (Nat.eqb (length (tail (activities st))) 0).
Qed.

Lemma shows_step st c : shows st → shows (step st c).
Proof.
  unfold shows. intros Hshows. destruct c; simpl; rewrite Hshows; simpl.
  - rewrite length_app. simpl. by rewrite Nat.add_1_r.
  - destruct (Nat.eqb (length (tail (activities st))) 0) eqn:Hzero; [done|].
    do 2 f_equal. apply Nat.eqb_neq in Hzero. apply Nat.eqb_neq.
    destruct (activities st); simpl in *; lia.
Qed.

Lemma shows_fold (calls : list Call) : ∀ st,
  shows st → shows (fold_left step calls st).
Proof.
  induction calls as [|c calls IH]; intros st Hshows; [done|].
  simpl. by apply IH, shows_step.
Qed.

(** X27.  The life of the activity indicator, from the state the
    script starts in (no activity, no indicator element).  Before the
    element exists the calls of [beginActivity] and [endActivity] only
    count; the element is made with the class [on], whatever is
    pending; and from the first call after that on, it has the class
    [on] exactly when an activity is pending, where the calls made
    before and after the creation count alike and an [endActivity] that
    finds nothing pending is forgotten.  So the one [endActivity] at the
    end of the page layout turns the new indicator off when nothing else
    is pending, and it ends an activity that is. *)
Theorem indicator_shows_pending_activities
    (before : list Call) (c : Call) (after : list Call) :
  indicator (fold_left step before initial) = None
  ∧ indicator (run before []) = Some true
  ∧ length (activities (run before (c :: after))) = pending (before ++ c :: after)
  ∧ indicator (run before (c :: after))
    = Some (negb (Nat.eqb (pending (before ++ c :: after)) 0))
  ∧ indicator (run [] [End_]) = Some false
  ∧ indicator (run [Begin] [End_]) = Some false.
Proof.
  split; [by apply no_indicator|]. split; [done|].
  assert (length (activities (run before (c :: after)))
          = pending (before ++ c :: after)) as Hlength.
  { unfold run, pending. rewrite activities_counted, fold_left_app. simpl.
    by rewrite (activities_counted before initial). }
  split; [done|]. split; [|done].
  rewrite <- Hlength. unfold run. simpl.
  by apply shows_fold, shows_after_first_call.
Qed.

End ActivityFacts.
